(** * ChatDocument: the client connection manager, the chat input, the
    upload filter, the stream relay and the relational schema.

    A shallow embedding of the TypeScript client (hooks/useWebSocket,
    components/chat/Chat, ChatInput, FileUpload, lib/api) and of the SQL
    schema, with the properties the specification states about them. *)

From Stdlib Require Import ZArith String List Bool Lia.
From stdpp Require Import base option list.
Import ListNotations.
Open Scope Z_scope.

(** ** The browser objects the connection manager drives *)

Module WebSocketManager.

(** [WebSocket.readyState]: CONNECTING = 0, OPEN = 1, CLOSING = 2, CLOSED = 3. *)
Inductive readyState := CONNECTING | OPEN | CLOSING | CLOSED.

#[global] Instance readyState_eq_dec : EqDecision readyState.
Proof. solve_decision. Defined.

(** The two callbacks the manager ever hands to a timer: the keep-alive
    closure of [ws.onopen] and the [connect()] closure of [ws.onclose]. *)
Inductive callback := PingTick | Reconnect.

Inductive timer_kind := Interval | Timeout.

(** One entry of the browser's timer table.  A handle returned by
    [setInterval]/[setTimeout] is the index of its entry. *)
Record timer := mkTimer {
  kind : timer_kind;
  delay : Z;              (* milliseconds *)
  action : callback;
  pending : bool          (* false once cleared, or once a timeout has fired *)
}.

#[global] Instance callback_eq_dec : EqDecision callback.
Proof. solve_decision. Defined.
#[global] Instance timer_kind_eq_dec : EqDecision timer_kind.
Proof. solve_decision. Defined.
#[global] Instance timer_eq_dec : EqDecision timer.
Proof. solve_decision. Defined.

(** The closure variables of [createWebSocketManager] (first block) and the
    part of the browser they refer to (second block).  A socket or timer
    reference is an index into [sockets] or [timers]; [None] is [null]. *)
Record state := mkState {
  ws : option nat;
  clientId : string;
  pingInterval : option nat;
  reconnectTimeout : option nat;
  connectionCount : Z;
  notified : nat;                    (* calls of notifyListeners() so far *)

  sockets : list readyState;         (* every WebSocket constructed so far *)
  timers : list timer;               (* every timer created so far *)
  wire : list (nat * string)         (* (socket, text) of every ws.send, oldest first *)
}.

(** [createWebSocketManager()]: the initial values of the closure. *)
Definition init : state :=
  {| ws := None; clientId := EmptyString; pingInterval := None; reconnectTimeout := None;
     connectionCount := 0; notified := 0;
     sockets := []; timers := []; wire := [] |}.

Definition set_ws (v : option nat) (σ : state) : state :=
  mkState v (clientId σ) (pingInterval σ) (reconnectTimeout σ) (connectionCount σ)
          (notified σ) (sockets σ) (timers σ) (wire σ).
Definition set_clientId (v : string) (σ : state) : state :=
  mkState (ws σ) v (pingInterval σ) (reconnectTimeout σ) (connectionCount σ)
          (notified σ) (sockets σ) (timers σ) (wire σ).
Definition set_pingInterval (v : option nat) (σ : state) : state :=
  mkState (ws σ) (clientId σ) v (reconnectTimeout σ) (connectionCount σ)
          (notified σ) (sockets σ) (timers σ) (wire σ).
Definition set_reconnectTimeout (v : option nat) (σ : state) : state :=
  mkState (ws σ) (clientId σ) (pingInterval σ) v (connectionCount σ)
          (notified σ) (sockets σ) (timers σ) (wire σ).
Definition set_connectionCount (v : Z) (σ : state) : state :=
  mkState (ws σ) (clientId σ) (pingInterval σ) (reconnectTimeout σ) v
          (notified σ) (sockets σ) (timers σ) (wire σ).
Definition set_notified (v : nat) (σ : state) : state :=
  mkState (ws σ) (clientId σ) (pingInterval σ) (reconnectTimeout σ) (connectionCount σ)
          v (sockets σ) (timers σ) (wire σ).
Definition set_sockets (v : list readyState) (σ : state) : state :=
  mkState (ws σ) (clientId σ) (pingInterval σ) (reconnectTimeout σ) (connectionCount σ)
          (notified σ) v (timers σ) (wire σ).
Definition set_timers (v : list timer) (σ : state) : state :=
  mkState (ws σ) (clientId σ) (pingInterval σ) (reconnectTimeout σ) (connectionCount σ)
          (notified σ) (sockets σ) v (wire σ).
Definition set_wire (v : list (nat * string)) (σ : state) : state :=
  mkState (ws σ) (clientId σ) (pingInterval σ) (reconnectTimeout σ) (connectionCount σ)
          (notified σ) (sockets σ) (timers σ) v.

(** *** Browser primitives *)

(** [new WebSocket(url)]: a new object in state CONNECTING; its reference
    is the next free index. *)
Definition new_WebSocket (σ : state) : nat * state :=
  (length (sockets σ), set_sockets (sockets σ ++ [CONNECTING]) σ).

(** [socket.close()]: nothing on a CLOSING or CLOSED socket, otherwise the
    socket goes to CLOSING; the close event is dispatched later. *)
Definition socket_close (s : nat) (σ : state) : state :=
  match sockets σ !! s with
  | Some CONNECTING | Some OPEN => set_sockets (<[s := CLOSING]> (sockets σ)) σ
  | _ => σ
  end.

(** [socket.send(text)] on an OPEN socket. *)
Definition socket_send (s : nat) (text : string) (σ : state) : state :=
  set_wire (wire σ ++ [(s, text)]) σ.

Definition new_timer (k : timer_kind) (cb : callback) (ms : Z) (σ : state) : nat * state :=
  (length (timers σ), set_timers (timers σ ++ [mkTimer k ms cb true]) σ).

Definition setInterval (cb : callback) (ms : Z) := new_timer Interval cb ms.
Definition setTimeout (cb : callback) (ms : Z) := new_timer Timeout cb ms.

Definition cancel (t : timer) : timer := mkTimer (kind t) (delay t) (action t) false.

(** [clearInterval(h)] and [clearTimeout(h)] share one handle table. *)
Definition clear_timer (h : nat) (σ : state) : state :=
  set_timers (alter cancel h (timers σ)) σ.
Definition clearInterval := clear_timer.
Definition clearTimeout := clear_timer.

(** *** The manager's functions *)

(** [ws?.readyState]: [None] when [ws] is null. *)
Definition ws_readyState (σ : state) : option readyState :=
  s ← ws σ; sockets σ !! s.

(** [ws?.readyState === WebSocket.OPEN] *)
Definition getSnapshot (σ : state) : bool :=
  bool_decide (ws_readyState σ = Some OPEN).

Definition notifyListeners (σ : state) : state :=
  set_notified (S (notified σ)) σ.

Definition PING_INTERVAL : Z := 30000.
Definition RECONNECT_DELAY : Z := 3000.

(** [if (pingInterval)] tests for [null]: a timer handle is a positive
    number in the browser (an object under Node) and so is truthy. *)
Definition cleanup (σ : state) : state :=
  match pingInterval σ with
  | Some h => set_pingInterval None (clearInterval h σ)
  | None => σ
  end.

(** [connect()]; [rnd] is the text that [Date.now()] and [Math.random()]
    contribute to the client identifier. *)
Definition connect (rnd : string) (σ : state) : state :=
  let σ := set_connectionCount (connectionCount σ + 1) σ in
  if bool_decide (ws_readyState σ = Some OPEN) || bool_decide (ws_readyState σ = Some CONNECTING)
  then σ
  else
    let σ := match reconnectTimeout σ with
             | Some h => set_reconnectTimeout None (clearTimeout h σ)
             | None => σ
             end in
    let σ := set_clientId ("client_" ++ rnd) σ in
    let '(s, σ) := new_WebSocket σ in
    set_ws (Some s) σ.

Definition disconnect (σ : state) : state :=
  let σ := set_connectionCount (connectionCount σ - 1) σ in
  if bool_decide (connectionCount σ <= 0) then
    let σ := set_connectionCount 0 σ in
    let σ := cleanup σ in
    let σ := match reconnectTimeout σ with
             | Some h => set_reconnectTimeout None (clearTimeout h σ)
             | None => σ
             end in
    match ws σ with
    | Some s => set_ws None (socket_close s σ)
    | None => σ
    end
  else σ.

Section Payloads.

(** What [send] accepts ([data: object]), its serialisation
    [JSON.stringify], and the literal [{ type: "ping" }]. *)
Context {object : Type}.
Variable JSON_stringify : object -> string.
Variable ping_object : object.

Definition send (data : object) (σ : state) : bool * state :=
  match ws σ with
  | Some s =>
      if bool_decide (sockets σ !! s = Some OPEN)
      then (true, socket_send s (JSON_stringify data) σ)
      else (false, σ)
  | None => (false, σ)
  end.

(** The closure passed to [setInterval] in [ws.onopen]. *)
Definition ping_tick (σ : state) : state :=
  match ws σ with
  | Some s =>
      if bool_decide (sockets σ !! s = Some OPEN)
      then socket_send s (JSON_stringify ping_object) σ
      else σ
  | None => σ
  end.

Definition onopen (σ : state) : state :=
  let σ := notifyListeners σ in
  let '(h, σ) := setInterval PingTick PING_INTERVAL σ in
  set_pingInterval (Some h) σ.

Definition onclose (σ : state) : state :=
  let σ := cleanup σ in
  let σ := notifyListeners σ in
  if bool_decide (connectionCount σ > 0) then
    let '(h, σ) := setTimeout Reconnect RECONNECT_DELAY σ in
    set_reconnectTimeout (Some h) σ
  else σ.

(** [ws.onmessage] parses the frame and calls the message listeners, which
    live outside the closure; the hook's listener is [Chat.handleMessage]. *)
Definition onmessage (σ : state) : state := σ.

(** [ws.onerror] only logs. *)
Definition onerror (σ : state) : state := σ.

Definition run_callback (cb : callback) (rnd : string) (σ : state) : state :=
  match cb with
  | PingTick => ping_tick σ
  | Reconnect => connect rnd σ
  end.

(** *** The event loop

    What can happen to the manager: a consumer calls one of its functions,
    or the browser dispatches a socket event or fires a timer.  Every socket
    the manager constructs carries the same four handlers, which read the
    closure variables and not the socket they are attached to. *)
Inductive event :=
| Connect (rnd : string)
| Disconnect
| Send (data : object)
| SocketOpened (s : nat)                 (* CONNECTING -> OPEN, then onopen *)
| SocketClosing (s : nat)                (* the peer starts the closing handshake: OPEN -> CLOSING *)
| SocketMessage (s : nat) (text : string)   (* onmessage: parsed and handed to the listeners *)
| SocketError (s : nat)                  (* onerror *)
| SocketClosed (s : nat)                 (* any live state -> CLOSED, then onclose *)
| TimerFired (h : nat) (rnd : string).   (* a pending timer runs its callback *)

(** One turn of the event loop; [None] when the browser cannot dispatch the
    event in this state. *)
Definition step (e : event) (σ : state) : option state :=
  match e with
  | Connect rnd => Some (connect rnd σ)
  | Disconnect => Some (disconnect σ)
  | Send data => Some (snd (send data σ))
  | SocketOpened s =>
      match sockets σ !! s with
      | Some CONNECTING => Some (onopen (set_sockets (<[s := OPEN]> (sockets σ)) σ))
      | _ => None
      end
  | SocketClosing s =>
      match sockets σ !! s with
      | Some OPEN => Some (set_sockets (<[s := CLOSING]> (sockets σ)) σ)
      | _ => None
      end
  | SocketMessage s _ =>
      match sockets σ !! s with
      | Some OPEN | Some CLOSING => Some (onmessage σ)
      | _ => None
      end
  | SocketError s =>
      match sockets σ !! s with
      | Some _ => Some (onerror σ)
      | None => None
      end
  | SocketClosed s =>
      match sockets σ !! s with
      | Some CLOSED | None => None
      | Some _ => Some (onclose (set_sockets (<[s := CLOSED]> (sockets σ)) σ))
      end
  | TimerFired h rnd =>
      match timers σ !! h with
      | Some t =>
          if pending t then
            match kind t with
            | Interval => Some (run_callback (action t) rnd σ)
            | Timeout => Some (run_callback (action t) rnd (clear_timer h σ))
            end
          else None
      | None => None
      end
  end.

Fixpoint run (es : list event) (σ : state) : option state :=
  match es with
  | [] => Some σ
  | e :: es => σ' ← step e σ; run es σ'
  end.

(** The consumers registered after the events [es], [n] before them: the
    hook's effect calls [connect()] when a consumer mounts and
    [disconnect()] when it unmounts; the browser's events register nobody. *)
Fixpoint consumers (es : list event) (n : nat) : nat :=
  match es with
  | [] => n
  | Connect _ :: es' => consumers es' (S n)
  | Disconnect :: es' => consumers es' (Nat.pred n)
  | _ :: es' => consumers es' n
  end.

(** Mount/unmount churn: a sequence of [connect] and [disconnect] calls, no
    [disconnect] of which brings the count down to zero. *)
Fixpoint churn (es : list event) (σ : state) : bool :=
  match es with
  | [] => true
  | Connect rnd :: es' => churn es' (connect rnd σ)
  | Disconnect :: es' =>
      bool_decide (connectionCount (disconnect σ) > 0) && churn es' (disconnect σ)
  | _ => false
  end.

End Payloads.

(** Every timer carries the callback, kind and delay of the one place in
    the source that creates it. *)
Definition well_timed (t : timer) : Prop :=
  match action t with
  | PingTick => kind t = Interval /\ delay t = PING_INTERVAL
  | Reconnect => kind t = Timeout /\ delay t = RECONNECT_DELAY
  end.

(** Three runs from the initial state, with payloads given by their JSON
    text.  In the first a lone consumer's socket drops and is reopened by
    the reconnect timer before the consumer unmounts.  In the second a
    consumer mounts, unmounts and mounts again (React's development double
    mount) before either socket has opened, both sockets then close, and the
    consumer unmounts.  In the third a second consumer mounts while the
    peer is closing the first socket, and both sockets then close. *)
Definition reconnected_then_unmounted : list (@event string) :=
  [Connect "r"; SocketOpened 0; SocketClosed 0; TimerFired 1 "s"; SocketOpened 1;
   Disconnect]%string.

Definition remounted_then_unmounted : list (@event string) :=
  [Connect "a"; Disconnect; Connect "b"; SocketClosed 0; SocketClosed 1;
   Disconnect]%string.

Definition mounted_during_close : list (@event string) :=
  [Connect "a"; SocketOpened 0; SocketClosing 0; Connect "b"; SocketOpened 1;
   SocketClosed 0]%string.

(** A manager with one consumer and its socket open: the state after
    [connect()] and the open event. *)
Definition one_consumer_open : state :=
  {| ws := Some 0%nat; clientId := "client_r"; pingInterval := Some 0%nat;
     reconnectTimeout := None; connectionCount := 1; notified := 1;
     sockets := [OPEN]; timers := [mkTimer Interval PING_INTERVAL PingTick true];
     wire := [] |}.

(** The same with a second consumer mounted. *)
Definition two_consumers_open : state := set_connectionCount 2 one_consumer_open.

End WebSocketManager.

(** ** types/chat.ts *)

Module Types.

(** [FileAttachment]; [type] is "image" or "pdf" for the type checker only,
    the cast [f.type as FileType] does not check at run time. *)
Record FileAttachment := mkFileAttachment {
  fa_id : string;
  fa_name : string;
  fa_type : string;
  fa_url : string;
  fa_mime_type : string
}.

(** The browser's [File], as far as the client reads it. *)
Record File := mkFile {
  file_name : string;
  file_type : string;      (* media type *)
  file_size : N            (* bytes *)
}.

Record UploadedFile := mkUploadedFile {
  uf_id : string;
  uf_name : string;
  uf_type : string;
  uf_url : string;
  uf_mime_type : string;
  uf_file : option File;
  uf_preview : option string
}.

Record Conversation := mkConversation {
  conv_id : string;
  conv_title : string;
  conv_created_at : string;
  conv_updated_at : string
}.

(** [Message]; the client can build one with [currentConversationId!],
    which is [null] at run time when no conversation is selected. *)
Record Message := mkMessage {
  msg_id : string;
  msg_conversation_id : option string;
  msg_role : string;
  msg_content : string;
  msg_attachments : list FileAttachment;
  msg_created_at : string
}.

(** A parsed frame [{ type, data }], by its [type] tag. *)
Inductive WebSocketMessage :=
| message_saved (id role content : string)
| stream_start
| stream_chunk (content : string)
| stream_end (id content : string)
| title_updated (conversation_id title : string)
| error (message : string)
| pong
| unknown_type (type : string).

End Types.

(** ** components/chat/ChatInput.tsx *)

Module ChatInput.
Import Types.

(** A JavaScript string is a sequence of UTF-16 code units. *)
Definition js_string := list N.

(** ECMAScript WhiteSpace and LineTerminator code points, the ones
    [String.prototype.trim] strips; all of them are single code units. *)
Definition is_white_space (c : N) : bool :=
  (N.eqb c 0x9 || N.eqb c 0xA || N.eqb c 0xB || N.eqb c 0xC || N.eqb c 0xD
   || N.eqb c 0x20 || N.eqb c 0xA0 || N.eqb c 0x1680
   || (N.leb 0x2000 c && N.leb c 0x200A)
   || N.eqb c 0x2028 || N.eqb c 0x2029 || N.eqb c 0x202F || N.eqb c 0x205F
   || N.eqb c 0x3000 || N.eqb c 0xFEFF)%bool.

Fixpoint trimStart (s : js_string) : js_string :=
  match s with
  | c :: s' => if is_white_space c then trimStart s' else s
  | [] => []
  end.

Definition trimEnd (s : js_string) : js_string := rev (trimStart (rev s)).

Definition trim (s : js_string) : js_string := trimEnd (trimStart s).

(** [!s] on a string: true exactly on the empty string. *)
Definition is_empty_string (s : js_string) : bool :=
  match s with [] => true | _ => false end.

Record props := mkProps {
  disabled : bool;
  isStreaming : bool
}.

(** The component's [useState] cells. *)
Record state := mkState {
  message : js_string;
  files : list UploadedFile;
  isUploading : bool
}.

Definition to_attachment (f : UploadedFile) : FileAttachment :=
  {| fa_id := uf_id f; fa_name := uf_name f; fa_type := uf_type f;
     fa_url := uf_url f; fa_mime_type := uf_mime_type f |}.

(** [handleSubmit]: the call of [onSendMessage] it makes, if any, and the
    state after it. *)
Definition handleSubmit (p : props) (σ : state)
  : option (js_string * list FileAttachment) * state :=
  let trimmedMessage := trim (message σ) in
  if is_empty_string trimmedMessage && Nat.eqb (length (files σ)) 0 then (None, σ)
  else if disabled p || isStreaming p then (None, σ)
  else
    let attachments := map to_attachment (files σ) in
    (Some (trimmedMessage, attachments),
     {| message := []; files := []; isUploading := isUploading σ |}).

(** The condition under which the specification lets the input send: some
    text is left after trimming or a file is attached, and the input is
    neither disabled nor streaming. *)
Definition may_send (p : props) (σ : state) : Prop :=
  (trim (message σ) <> [] \/ files σ <> [])
  /\ disabled p = false /\ isStreaming p = false.

End ChatInput.

(** ** components/chat/FileUpload.tsx *)

Module FileUpload.
Import Types.
Local Open Scope string_scope.

Definition ACCEPTED_TYPES : list string :=
  ["image/jpeg"; "image/png"; "image/gif"; "image/webp"; "application/pdf"].

Definition MAX_FILE_SIZE : N := 25 * 1024 * 1024.

(** [Array.prototype.includes] on strings. *)
Definition includes (l : list string) (x : string) : bool :=
  existsb (String.eqb x) l.

(** What [handleFileSelect] does to the outside, in order. *)
Inductive effect :=
| Alert (text : string)
| CreateObjectURL (f : File)
| Upload (f : File)                        (* onUpload(file): the network call *)
| FilesChange (fs : list UploadedFile)     (* onFilesChange(...) *)
| ConsoleError
| ResetInput.

Definition unsupported_message (f : File) : string :=
  "File type not supported: " ++ file_name f
  ++ ". Please upload images (JPEG, PNG, GIF, WebP) or PDFs.".

Definition too_large_message (f : File) : string :=
  "File too large: " ++ file_name f ++ ". Maximum size is 25MB.".

Definition failed_message (f : File) : string :=
  "Failed to upload " ++ file_name f.

Definition with_preview (p : option string) (u : UploadedFile) : UploadedFile :=
  mkUploadedFile (uf_id u) (uf_name u) (uf_type u) (uf_url u) (uf_mime_type u)
                 (uf_file u) p.

Section Handler.

(** The [files] and [onUpload] props the callback closes over, and
    [URL.createObjectURL].  [onUpload] resolves to an uploaded file or
    rejects.  [fileInputRef_current] tells whether [fileInputRef.current]
    holds the input element when the loop has ended; it is [null] once the
    component has unmounted. *)
Variable files : list UploadedFile.
Variable onUpload : File -> option UploadedFile.
Variable createObjectURL : File -> string.
Variable fileInputRef_current : bool.

(** The body of the [for] loop for one file. *)
Definition handle_one (file : File) : list effect :=
  if negb (includes ACCEPTED_TYPES (file_type file)) then
    [Alert (unsupported_message file)]
  else if N.ltb MAX_FILE_SIZE (file_size file) then
    [Alert (too_large_message file)]
  else
    let is_image := String.prefix "image/" (file_type file) in
    let preview := if is_image then Some (createObjectURL file) else None in
    (if is_image then [CreateObjectURL file] else [])
    ++ Upload file ::
       match onUpload file with
       | Some uploadedFile =>
           [FilesChange (files ++ [with_preview preview uploadedFile])]
       | None => [ConsoleError; Alert (failed_message file)]
       end.

Definition handleFileSelect (selectedFiles : list File) : list effect :=
  flat_map handle_one selectedFiles
  ++ (if fileInputRef_current then [ResetInput] else []).

End Handler.

(** The network calls among the effects, in order. *)
Definition uploads (es : list effect) : list File :=
  flat_map (fun e => match e with Upload f => [f] | _ => [] end) es.

Definition alerts (es : list effect) : list string :=
  flat_map (fun e => match e with Alert t => [t] | _ => [] end) es.

(** The two checks as the specification words them: the media type is on
    the allow-list and the size does not exceed 25 MB. *)
Definition passes (f : File) : bool :=
  includes ACCEPTED_TYPES (file_type f) && N.leb (file_size f) 26214400.

(** A selection of three files: a text file, a PDF one byte over the limit
    and a PDF of exactly 25 MB. *)
Definition sample_selection : list File :=
  [mkFile "a.txt" "text/plain" 10; mkFile "b.pdf" "application/pdf" 26214401;
   mkFile "c.pdf" "application/pdf" 26214400].

End FileUpload.

(** ** lib/api.ts: the requests the client builds for conversations *)

Module Api.
Local Open Scope string_scope.

Inductive http_method := GET | POST | PATCH | DELETE.

Record request := mkRequest {
  method : http_method;
  endpoint : string;
  body_title : option string      (* the [title] member of the JSON body, if any *)
}.

(** [title || "New Conversation"]: [undefined] and the empty string are falsy. *)
Definition title_or_default (title : option string) : string :=
  match title with
  | Some EmptyString | None => "New Conversation"
  | Some t => t
  end.

Definition createConversation (title : option string) : request :=
  {| method := POST; endpoint := "/api/conversations";
     body_title := Some (title_or_default title) |}.

Definition updateConversation (id title : string) : request :=
  {| method := PATCH; endpoint := "/api/conversations/" ++ id;
     body_title := Some title |}.

Definition deleteConversation (id : string) : request :=
  {| method := DELETE; endpoint := "/api/conversations/" ++ id;
     body_title := None |}.

End Api.

(** ** The relational schema (initial migration)

    Three tables; a table is the list of its rows.  The statements below are
    the engine's INSERT, UPDATE and DELETE under the declared defaults,
    checks and foreign keys; a statement that violates a constraint yields
    [None] and changes nothing.  A [string] stands for a sequence of
    characters. *)

Module Schema.
Local Open Scope string_scope.

Record conversation := mkConversation {
  c_id : string;
  c_title : string;
  c_created_at : Z;
  c_updated_at : Z
}.

Record message := mkMessage {
  m_id : string;
  m_conversation_id : string;
  m_role : string;
  m_content : string;
  m_created_at : Z
}.

Record attachment := mkAttachment {
  a_id : string;
  a_message_id : string;
  a_conversation_id : string;
  a_name : string;
  a_type : string;
  a_url : string;
  a_mime_type : string;
  a_created_at : Z
}.

Record database := mkDatabase {
  conversations : list conversation;
  messages : list message;
  attachments : list attachment
}.

Definition empty : database := mkDatabase [] [] [].

(** [title VARCHAR(255) NOT NULL DEFAULT 'New Conversation'] *)
Definition DEFAULT_TITLE : string := "New Conversation".

Definition fits (n : nat) (s : string) : bool := Nat.leb (String.length s) n.

Fixpoint all_spaces (s : string) : bool :=
  match s with
  | EmptyString => true
  | String c s' => Ascii.eqb c Ascii.Space && all_spaces s'
  end.

(** Storing a value in a [VARCHAR(n)] column: a string of at most [n]
    characters is stored as it is; a longer one is an error unless the
    characters in excess are all spaces, and then it is cut to [n]. *)
Definition varchar (n : nat) (s : string) : option string :=
  if fits n s then Some s
  else if all_spaces (substring n (String.length s - n) s) then Some (substring 0 n s)
  else None.

Definition has_conversation (id : string) (db : database) : bool :=
  existsb (fun c => String.eqb (c_id c) id) (conversations db).
Definition has_message (id : string) (db : database) : bool :=
  existsb (fun m => String.eqb (m_id m) id) (messages db).
Definition has_attachment (id : string) (db : database) : bool :=
  existsb (fun a => String.eqb (a_id a) id) (attachments db).

(** [INSERT INTO conversations (title) VALUES (...) RETURNING *], or with
    the title column left out ([None]).  [uuid] and [now] are what
    [uuid_generate_v4()] and [NOW()] evaluate to. *)
Definition insert_conversation (uuid : string) (now : Z) (title : option string)
    (db : database) : option (conversation * database) :=
  if has_conversation uuid db then None                 (* PRIMARY KEY *)
  else
    match varchar 255 (match title with Some t => t | None => DEFAULT_TITLE end) with
    | Some stored =>                                    (* VARCHAR(255) *)
        let row := {| c_id := uuid; c_title := stored;
                      c_created_at := now; c_updated_at := now |} in
        Some (row, mkDatabase (conversations db ++ [row]) (messages db) (attachments db))
    | None => None
    end.

(** [INSERT INTO messages (conversation_id, role, content) ... RETURNING *].
    Both values the CHECK lets through fit [VARCHAR(20)]; a longer role
    fails the CHECK whether it is cut or not. *)
Definition insert_message (uuid : string) (now : Z) (conversation_id role content : string)
    (db : database) : option (message * database) :=
  let row := {| m_id := uuid; m_conversation_id := conversation_id; m_role := role;
                m_content := content; m_created_at := now |} in
  if has_message uuid db then None                                     (* PRIMARY KEY *)
  else if negb (has_conversation conversation_id db) then None        (* REFERENCES conversations(id) *)
  else if negb (String.eqb role "user" || String.eqb role "assistant") then None   (* CHECK *)
  else Some (row, mkDatabase (conversations db) (messages db ++ [row]) (attachments db)).

(** [INSERT INTO attachments (...) ... RETURNING *] *)
Definition insert_attachment (uuid : string) (now : Z)
    (message_id conversation_id name type url mime_type : string)
    (db : database) : option (attachment * database) :=
  if has_attachment uuid db then None
  else if negb (has_message message_id db) then None
  else if negb (has_conversation conversation_id db) then None
  else if negb (String.eqb type "image" || String.eqb type "pdf") then None
  else
    match varchar 255 name, varchar 100 mime_type with
    | Some stored_name, Some stored_mime_type =>
        let row := {| a_id := uuid; a_message_id := message_id;
                      a_conversation_id := conversation_id; a_name := stored_name;
                      a_type := type; a_url := url; a_mime_type := stored_mime_type;
                      a_created_at := now |} in
        Some (row, mkDatabase (conversations db) (messages db) (attachments db ++ [row]))
    | _, _ => None
    end.

Definition set_title (title : string) (c : conversation) : conversation :=
  mkConversation (c_id c) title (c_created_at c) (c_updated_at c).

(** [UPDATE conversations SET title = ... WHERE id = ...] *)
Definition update_title (id title : string) (db : database) : option database :=
  match varchar 255 title with
  | Some stored =>
      Some (mkDatabase
              (map (fun c => if String.eqb (c_id c) id then set_title stored c else c)
                   (conversations db))
              (messages db) (attachments db))
  | None => None
  end.

(** [DELETE FROM attachments WHERE ...]: nothing references an attachment. *)
Definition delete_attachments (doomed : attachment -> bool) (db : database) : database :=
  mkDatabase (conversations db) (messages db)
             (List.filter (fun a => negb (doomed a)) (attachments db)).

(** [DELETE FROM messages WHERE ...], with
    [attachments.message_id REFERENCES messages(id) ON DELETE CASCADE]. *)
Definition delete_messages (doomed : message -> bool) (db : database) : database :=
  let gone := List.filter (fun m => doomed m) (messages db) in
  let db := mkDatabase (conversations db)
                       (List.filter (fun m => negb (doomed m)) (messages db))
                       (attachments db) in
  delete_attachments
    (fun a => existsb (fun m => String.eqb (m_id m) (a_message_id a)) gone) db.

(** [DELETE FROM conversations WHERE ...], with
    [messages.conversation_id REFERENCES conversations(id) ON DELETE CASCADE]
    and
    [attachments.conversation_id REFERENCES conversations(id) ON DELETE CASCADE]. *)
Definition delete_conversations (doomed : conversation -> bool) (db : database) : database :=
  let gone := List.filter (fun c => doomed c) (conversations db) in
  let db := mkDatabase (List.filter (fun c => negb (doomed c)) (conversations db))
                       (messages db) (attachments db) in
  let db := delete_messages
              (fun m => existsb (fun c => String.eqb (c_id c) (m_conversation_id m)) gone) db in
  delete_attachments
    (fun a => existsb (fun c => String.eqb (c_id c) (a_conversation_id a)) gone) db.

(** [DELETE FROM conversations WHERE id = ...] *)
Definition delete_conversation (id : string) : database -> database :=
  delete_conversations (fun c => String.eqb (c_id c) id).

(** Referential integrity: every foreign key points at an existing row. *)
Definition references_ok (db : database) : Prop :=
  (forall m, In m (messages db) -> has_conversation (m_conversation_id m) db = true)
  /\ (forall a, In a (attachments db) ->
        has_message (a_message_id a) db = true
        /\ has_conversation (a_conversation_id a) db = true).

(** The message rows a conversation owns, and the attachment rows it owns
    directly or through one of its messages. *)
Definition owned_message (id : string) (m : message) : bool :=
  String.eqb (m_conversation_id m) id.

Definition owned_attachment (id : string) (db : database) (a : attachment) : bool :=
  String.eqb (a_conversation_id a) id
  || existsb (fun m => String.eqb (m_id m) (a_message_id a) && owned_message id m)
             (messages db).

(** Two conversations; the attachment [a3] hangs on a message of the first
    and carries the second as its own conversation. *)
Definition sample : database :=
  {| conversations := [mkConversation "c1" "First" 10 10; mkConversation "c2" "Second" 20 20];
     messages := [mkMessage "m1" "c1" "user" "hello" 11; mkMessage "m2" "c2" "user" "hi" 21];
     attachments := [mkAttachment "a1" "m1" "c1" "x.png" "image" "u1" "image/png" 12;
                     mkAttachment "a2" "m2" "c2" "y.pdf" "pdf" "u2" "application/pdf" 22;
                     mkAttachment "a3" "m1" "c2" "z.png" "image" "u3" "image/png" 23] |}.

End Schema.

(** ** hooks/useWebSocket.ts (the hook) and components/chat/Chat.tsx *)

Module Chat.
Import Types.
Local Open Scope string_scope.

(** [UseWebSocketOptions]: every callback is optional; a callback acts on
    the consumer's state [S]. *)
Record UseWebSocketOptions (S : Type) := mkOptions {
  onMessageSaved : option (string -> string -> string -> S -> S);
  onStreamStart : option (S -> S);
  onStreamChunk : option (string -> S -> S);
  onStreamEnd : option (string -> string -> S -> S);
  onTitleUpdated : option (string -> string -> S -> S);
  onError : option (string -> S -> S)
}.
Arguments mkOptions {S}.
Arguments onMessageSaved {S}.
Arguments onStreamStart {S}.
Arguments onStreamChunk {S}.
Arguments onStreamEnd {S}.
Arguments onTitleUpdated {S}.
Arguments onError {S}.

(** [callback?.(args)] *)
Definition call_if_present {S : Type} (cb : option (S -> S)) (st : S) : S :=
  match cb with Some f => f st | None => st end.

(** [handleMessage] of [useWebSocket]: the hook's [isStreaming] cell paired
    with the consumer's state. *)
Definition handleMessage {S : Type} (options : UseWebSocketOptions S)
    (message : WebSocketMessage) (st : bool * S) : bool * S :=
  let '(isStreaming, c) := st in
  match message with
  | message_saved id role content =>
      (isStreaming,
       call_if_present (option_map (fun f => f id role content) (onMessageSaved options)) c)
  | stream_start =>
      (true, call_if_present (onStreamStart options) c)
  | stream_chunk content =>
      (isStreaming,
       call_if_present (option_map (fun f => f content) (onStreamChunk options)) c)
  | stream_end id content =>
      (false,
       call_if_present (option_map (fun f => f id content) (onStreamEnd options)) c)
  | title_updated conversation_id title =>
      (isStreaming,
       call_if_present (option_map (fun f => f conversation_id title) (onTitleUpdated options)) c)
  | error message =>
      (false,
       call_if_present (option_map (fun f => f message) (onError options)) c)
  | pong | unknown_type _ => (isStreaming, c)
  end.

(** [ws.onmessage] with the hook's listener registered: a frame that
    [JSON.parse] rejects ([None]) reaches no listener. *)
Definition onmessage {S : Type} (options : UseWebSocketOptions S)
    (parsed : option WebSocketMessage) (st : bool * S) : bool * S :=
  match parsed with
  | Some message => handleMessage options message st
  | None => st
  end.

(** The [useState] cells of [Chat] that the socket callbacks touch. *)
Record state := mkState {
  conversations : list Conversation;
  currentConversationId : option string;
  messages : list Message;
  streamingContent : string
}.

Definition set_conversations (v : list Conversation) (c : state) : state :=
  mkState v (currentConversationId c) (messages c) (streamingContent c).
Definition set_messages (v : list Message) (c : state) : state :=
  mkState (conversations c) (currentConversationId c) v (streamingContent c).
Definition set_streamingContent (v : string) (c : state) : state :=
  mkState (conversations c) (currentConversationId c) (messages c) v.

(** [{ ...c, title }] *)
Definition with_title (title : string) (c : Conversation) : Conversation :=
  mkConversation (conv_id c) title (conv_created_at c) (conv_updated_at c).

Definition retitle (id title : string) (cs : list Conversation) : list Conversation :=
  map (fun c => if String.eqb (conv_id c) id then with_title title c else c) cs.

(** The options [Chat] passes to [useWebSocket]; [now] is
    [new Date().toISOString()] at the time of the call. *)
Definition chat_options (now : string) : UseWebSocketOptions state :=
  {| onMessageSaved := Some (fun _ _ _ c => c);
     onStreamStart := Some (set_streamingContent EmptyString);
     onStreamChunk := Some (fun content c =>
                              set_streamingContent (streamingContent c ++ content) c);
     onStreamEnd := Some (fun id content c =>
                            let assistantMessage :=
                              {| msg_id := id;
                                 msg_conversation_id := currentConversationId c;
                                 msg_role := "assistant";
                                 msg_content := content;
                                 msg_attachments := [];
                                 msg_created_at := now |} in
                            set_streamingContent EmptyString
                              (set_messages (messages c ++ [assistantMessage]) c));
     onTitleUpdated := Some (fun conversation_id title c =>
                               set_conversations
                                 (retitle conversation_id title (conversations c)) c);
     onError := Some (fun _ c => set_streamingContent EmptyString c) |}.

(** [handleRenameConversation]; [ok] tells whether the awaited
    [updateConversation] call resolved. *)
Definition handleRenameConversation (ok : bool) (id title : string) (c : state) : state :=
  if ok then set_conversations (retitle id title (conversations c)) c else c.

(** Frames handled one after the other. *)
Definition receive (now : string) (frames : list WebSocketMessage) (st : bool * state)
  : bool * state :=
  fold_left (fun st m => handleMessage (chat_options now) m st) frames st.

End Chat.

(** ** The server's chat turn *)

Module Server.
Import Types Schema.
Local Open Scope string_scope.

Record chat_request := mkChatRequest {
  conversation_id : string;
  content : string;
  attachments : list FileAttachment
}.

(** Modelled from the spec: the call of the external model is made by the
    server's socket handler, which is not among the sources.  Per the spec a
    response is streamed as one or more chunks, so a call that completes has
    produced a first token and zero or more further ones; a call that fails
    has produced some tokens, possibly none, and a failure message. *)
Inductive model_outcome :=
| Completed (first : string) (rest : list string)
| Failed (emitted : list string) (reason : string).

(** What one turn takes from its environment. *)
Record turn := mkTurn {
  user_uuid : string;
  assistant_uuid : string;
  now : Z;
  outcome : model_outcome;
  summary : string            (* the short title the model returns when asked *)
}.

Definition assemble (tokens : list string) : string :=
  fold_right String.append EmptyString tokens.

(** Modelled from the spec: the server's socket handler (the stream relay)
    is not among the sources.  Per the spec it persists the user message,
    re-emits the model's token stream as start/chunk/end events, finally
    persists the assembled response and, on the first exchange of a
    conversation, emits a title-updated event; a failure surfaces as a single
    error event, aborts the stream and persists no response.  The rows are
    written with the schema's statements; the spec does not say when
    attachment rows are written, so the attachments table is left as it is. *)
Definition handle_chat (t : turn) (req : chat_request) (db : database)
  : list WebSocketMessage * database :=
  let first_exchange :=
    negb (existsb (fun m => String.eqb (m_conversation_id m) (conversation_id req))
                  (messages db)) in
  match insert_message (user_uuid t) (now t) (conversation_id req) "user" (content req) db with
  | None => ([error "Failed to save message"], db)
  | Some (saved, db1) =>
      let opening := [message_saved (m_id saved) (m_role saved) (m_content saved);
                      stream_start] in
      match outcome t with
      | Failed emitted reason =>
          ((opening ++ map stream_chunk emitted ++ [error reason])%list, db1)
      | Completed first rest =>
          let tokens := first :: rest in
          match insert_message (assistant_uuid t) (now t) (conversation_id req)
                               "assistant" (assemble tokens) db1 with
          | None =>
              ((opening ++ map stream_chunk tokens ++ [error "Failed to save message"])%list,
               db1)
          | Some (reply, db2) =>
              let closing := [stream_end (m_id reply) (m_content reply)] in
              if first_exchange then
                match update_title (conversation_id req) (summary t) db2 with
                | Some db3 =>
                    ((opening ++ map stream_chunk tokens ++ closing
                        ++ [title_updated (conversation_id req) (summary t)])%list, db3)
                | None =>
                    ((opening ++ map stream_chunk tokens ++ closing)%list, db2)
                end
              else ((opening ++ map stream_chunk tokens ++ closing)%list, db2)
          end
      end
  end.

(** The stream events among the frames of a turn, in order. *)
Definition is_stream_event (m : WebSocketMessage) : bool :=
  match m with
  | stream_start | stream_chunk _ | stream_end _ _ => true
  | _ => false
  end.

Definition stream_events (frames : list WebSocketMessage) : list WebSocketMessage :=
  List.filter is_stream_event frames.

(** The contract a turn's frames and final database meet when the turn
    streams a response: one start, one or more chunks, one end whose content
    is the chunks' concatenation, and a persisted assistant message with that
    content. *)
Definition streamed (frames : list WebSocketMessage) (db : database) : Prop :=
  exists (chunks : list string) (id : string),
    chunks <> []
    /\ stream_events frames
       = (stream_start :: map stream_chunk chunks ++ [stream_end id (assemble chunks)])%list
    /\ exists m, In m (messages db)
                 /\ m_id m = id /\ m_role m = "assistant"
                 /\ m_content m = assemble chunks.

(** A request on the first conversation of [Schema.sample], a turn in which
    the model answers in three tokens, and one in which it fails after the
    first. *)
Definition sample_request : chat_request :=
  {| conversation_id := "c1"; content := "What is in the picture?"; attachments := [] |}.

Definition completed_turn : turn :=
  {| user_uuid := "m3"; assistant_uuid := "m4"; now := 30;
     outcome := Completed "A " ["red "; "bicycle."]; summary := "Picture" |}.

Definition failed_turn : turn :=
  {| user_uuid := "m3"; assistant_uuid := "m4"; now := 30;
     outcome := Failed ["A "] "model unavailable"; summary := "Picture" |}.

End Server.

(** ** hooks/useWebSocket.ts: the listener sets, the snapshot and the hook's send *)

Module Listeners.
Import Types.

(** A JavaScript [Set] of functions: a member is told apart by identity
    (here a number), is kept once, and members are visited in insertion
    order. *)
Definition js_set := list nat.

(** [Set.prototype.add] *)
Definition set_add (x : nat) (s : js_set) : js_set :=
  if existsb (Nat.eqb x) s then s else s ++ [x].

(** [Set.prototype.delete] *)
Definition set_delete (x : nat) (s : js_set) : js_set :=
  List.filter (fun y => negb (Nat.eqb y x)) s.

(** The closure variables [listeners] and [messageListeners]. *)
Record registry := mkRegistry {
  listeners : js_set;
  messageListeners : js_set
}.

Definition empty : registry := mkRegistry [] [].

(** [subscribe(listener)], and the closure it returns. *)
Definition subscribe (listener : nat) (r : registry) : registry :=
  mkRegistry (set_add listener (listeners r)) (messageListeners r).
Definition unsubscribe (listener : nat) (r : registry) : registry :=
  mkRegistry (set_delete listener (listeners r)) (messageListeners r).

(** [addMessageListener(listener)], and the closure it returns. *)
Definition addMessageListener (listener : nat) (r : registry) : registry :=
  mkRegistry (listeners r) (set_add listener (messageListeners r)).
Definition removeMessageListener (listener : nat) (r : registry) : registry :=
  mkRegistry (listeners r) (set_delete listener (messageListeners r)).

(** [notifyListeners()]: the listeners called, in order. *)
Definition notifyListeners (r : registry) : list nat := listeners r.

(** [forEach] over listeners of which some throw: the calls made before the
    exception leaves the loop. *)
Fixpoint call_until_throw (throws : nat -> bool) (s : js_set) : list nat :=
  match s with
  | [] => []
  | l :: s' => l :: (if throws l then [] else call_until_throw throws s')
  end.

(** [ws.onmessage]: [JSON.parse] and the [forEach] over the message
    listeners sit in one [try]; [parsed] tells whether the frame parsed and
    [throws] which listeners throw on the message.  The result is the list of
    listeners called. *)
Definition onmessage (parsed : bool) (throws : nat -> bool) (r : registry) : list nat :=
  if parsed then call_until_throw throws (messageListeners r) else [].

End Listeners.

Module Hook.
Import Types WebSocketManager.

(** The objects the hook hands to [JSON.stringify]: the keep-alive literal
    and the chat request built by [sendMessage]. *)
Inductive hook_object :=
| ping_literal
| chat_literal (conversation_id content : string) (attachments : list FileAttachment).

Section Serialiser.

Variable JSON_stringify : hook_object -> string.

(** [sendMessage] of [useWebSocket]. *)
Definition sendMessage (conversationId content : string)
    (attachments : list FileAttachment) (σ : state) : bool * state :=
  send JSON_stringify (chat_literal conversationId content attachments) σ.

End Serialiser.

(** Every socket but the current one is on its way out or gone. *)
Definition others_closed (σ : state) : Prop :=
  forall s st, sockets σ !! s = Some st -> ws σ <> Some s ->
               st = CLOSING \/ st = CLOSED.

(** The references the closure holds point into the browser's tables. *)
Definition handles_valid (σ : state) : Prop :=
  (forall s, ws σ = Some s -> (s < length (sockets σ))%nat)
  /\ (forall h, pingInterval σ = Some h -> (h < length (timers σ))%nat)
  /\ (forall h, reconnectTimeout σ = Some h -> (h < length (timers σ))%nat).

Definition settled (σ : state) : Prop := others_closed σ /\ handles_valid σ.

End Hook.

(** ** components/chat/Chat.tsx: the page around the socket callbacks

    A handler that awaits a request is a step taken when the request ends:
    its argument tells how it ended.  What the handler reads from its
    closure ([currentConversationId], [conversations]) is an argument of its
    own, the value of the render the handler was created in; a functional
    update ([setConversations((prev) => ...)]) reads the page in place. *)

Module ChatPage.
Import Types WebSocketManager.
Local Open Scope string_scope.

(** The remaining [useState] cells of [Chat]. *)
Record page := mkPage {
  cells : Chat.state;
  isLoadingConversations : bool;
  isLoadingMessages : bool;
  sidebarOpen : bool
}.

Definition initial : page :=
  {| cells := Chat.mkState [] None [] EmptyString;
     isLoadingConversations := true; isLoadingMessages := false; sidebarOpen := true |}.

Definition set_cells (v : Chat.state) (p : page) : page :=
  mkPage v (isLoadingConversations p) (isLoadingMessages p) (sidebarOpen p).

Definition set_currentConversationId (v : option string) (c : Chat.state) : Chat.state :=
  Chat.mkState (Chat.conversations c) v (Chat.messages c) (Chat.streamingContent c).

(** [!currentConversationId]: [null] and the empty string are falsy. *)
Definition no_conversation (id : option string) : bool :=
  match id with
  | None | Some EmptyString => true
  | Some _ => false
  end.

(** [loadConversations]; [currentConversationId] is the value in the
    function's closure and [data] is what the awaited [getConversations()]
    resolved to, [None] when it rejected. *)
Definition loadConversations (currentConversationId : option string)
    (data : option (list Conversation)) (p : page) : page :=
  match data with
  | Some data =>
      let c := Chat.set_conversations data (cells p) in
      let c := match data with
               | first :: _ =>
                   if no_conversation currentConversationId
                   then set_currentConversationId (Some (conv_id first)) c
                   else c
               | [] => c
               end in
      mkPage c false (isLoadingMessages p) (sidebarOpen p)
  | None => mkPage (cells p) false (isLoadingMessages p) (sidebarOpen p)
  end.

(** The mount effect ([useEffect(() => { loadConversations(); }, [])]) runs
    the [loadConversations] of the first render, whose closure holds the
    initial selection. *)
Definition mount (data : option (list Conversation)) (p : page) : page :=
  loadConversations (Chat.currentConversationId (cells initial)) data p.

(** [loadMessages] *)
Definition loadMessages (data : option (list Message)) (p : page) : page :=
  match data with
  | Some data => mkPage (Chat.set_messages data (cells p))
                        (isLoadingConversations p) false (sidebarOpen p)
  | None => mkPage (cells p) (isLoadingConversations p) false (sidebarOpen p)
  end.

(** [handleNewConversation]; [created] is the outcome of the awaited
    [createConversation()]. *)
Definition handleNewConversation (created : option Conversation) (p : page) : page :=
  match created with
  | Some conversation =>
      set_cells
        (Chat.set_messages []
           (set_currentConversationId (Some (conv_id conversation))
              (Chat.set_conversations (conversation :: Chat.conversations (cells p))
                                      (cells p)))) p
  | None => p
  end.

(** [handleSelectConversation] *)
Definition handleSelectConversation (id : string) (p : page) : page :=
  mkPage (set_currentConversationId (Some id) (cells p))
         (isLoadingConversations p) (isLoadingMessages p) false.

Definition other_than (id : string) (c : Conversation) : bool :=
  negb (String.eqb (conv_id c) id).

(** [handleDeleteConversation]; [ok] tells whether the awaited
    [deleteConversation] call resolved.  [captured] holds the
    [currentConversationId] and [conversations] of the handler's closure, the
    values of the render in which the delete was requested; [p] is the page
    when the call resolves. *)
Definition handleDeleteConversation (ok : bool) (id : string) (captured : Chat.state)
    (p : page) : page :=
  if ok then
    let c := Chat.set_conversations
               (List.filter (other_than id) (Chat.conversations (cells p))) (cells p) in
    match Chat.currentConversationId captured with
    | Some current =>
        if String.eqb current id then
          let remaining := List.filter (other_than id) (Chat.conversations captured) in
          set_cells (set_currentConversationId
                       (match remaining with
                        | first :: _ => Some (conv_id first)
                        | [] => None
                        end) c) p
        else set_cells c p
    | None => set_cells c p
    end
  else p.

Section Serialiser.

Variable JSON_stringify : Hook.hook_object -> string.

(** [sendMessageToServer]: the optimistic user message, then the send,
    whose result is dropped.  [stamp] is [Date.now()] as text and [clock]
    is [new Date().toISOString()]. *)
Definition sendMessageToServer (stamp clock : string)
    (conversationId content : string) (attachments : list FileAttachment)
    (st : page * state) : page * state :=
  let '(p, σ) := st in
  let userMessage :=
    {| msg_id := "temp_" ++ stamp;
       msg_conversation_id := Some conversationId;
       msg_role := "user";
       msg_content := content;
       msg_attachments := attachments;
       msg_created_at := clock |} in
  (set_cells (Chat.set_messages (Chat.messages (cells p) ++ [userMessage]) (cells p)) p,
   snd (Hook.sendMessage JSON_stringify conversationId content attachments σ)).

(** [handleSendMessage]; [currentConversationId] is the value in the
    handler's closure.  With a conversation selected it sends at once.
    Without one it awaits [createConversation()] ([created]; a rejection
    ends the handler), lists and selects the new conversation and leaves the
    send to a 100 ms timer, returned as the identifier to send to. *)
Definition handleSendMessage (currentConversationId : option string)
    (created : option Conversation) (stamp clock : string)
    (content : string) (attachments : list FileAttachment)
    (st : page * state) : page * state * option string :=
  let '(p, σ) := st in
  if no_conversation currentConversationId then
    match created with
    | Some conversation =>
        (set_cells
           (set_currentConversationId (Some (conv_id conversation))
              (Chat.set_conversations (conversation :: Chat.conversations (cells p))
                                      (cells p))) p,
         σ, Some (conv_id conversation))
    | None => (p, σ, None)
    end
  else
    match currentConversationId with
    | Some id => (sendMessageToServer stamp clock id content attachments (p, σ), None)
    | None => (p, σ, None)
    end.

End Serialiser.

(** What the main area renders. *)
Inductive main_view :=
| Welcome
| Skeleton
| NoMessagesYet
| MessageList (thinking streaming : bool).

Definition last_is_user (ms : list Message) : bool :=
  match last ms with
  | Some m => String.eqb (msg_role m) "user"
  | None => false
  end.

Definition is_empty (s : string) : bool :=
  match s with EmptyString => true | _ => false end.

Definition main_view_of (p : page) : main_view :=
  if no_conversation (Chat.currentConversationId (cells p)) then Welcome
  else if isLoadingMessages p then Skeleton
  else if Nat.eqb (length (Chat.messages (cells p))) 0 then NoMessagesYet
  else MessageList
         (negb (Nat.eqb (length (Chat.messages (cells p))) 0)
          && last_is_user (Chat.messages (cells p))
          && is_empty (Chat.streamingContent (cells p)))
         (negb (is_empty (Chat.streamingContent (cells p)))).

(** The selected conversation is one of the listed ones. *)
Definition selection_listed (c : Chat.state) : Prop :=
  match Chat.currentConversationId c with
  | Some id => exists conv, In conv (Chat.conversations c) /\ conv_id conv = id
  | None => True
  end.

(** The frames that reset the streamed text. *)
Definition resets (m : WebSocketMessage) : bool :=
  match m with
  | stream_start | stream_end _ _ | error _ => true
  | _ => false
  end.

Definition chunk_contents (frames : list WebSocketMessage) : list string :=
  flat_map (fun m => match m with stream_chunk c => [c] | _ => [] end) frames.

Definition stream_ends (frames : list WebSocketMessage) : list (string * string) :=
  flat_map (fun m => match m with stream_end id c => [(id, c)] | _ => [] end) frames.

(** The assistant message [onStreamEnd] builds from a stream-end frame. *)
Definition reply (clock : string) (current : option string) (e : string * string) : Message :=
  {| msg_id := fst e; msg_conversation_id := current; msg_role := "assistant";
     msg_content := snd e; msg_attachments := []; msg_created_at := clock |}.

Definition concat_all (parts : list string) : string :=
  fold_right String.append EmptyString parts.

(** The frames of [frames] handled by the page, one after the other. *)
Definition on_frames (clock : string) (frames : list WebSocketMessage) (p : page) : page :=
  set_cells (snd (Chat.receive clock frames (false, cells p))) p.

(** What the user and the network can do to the page after it has
    mounted, one handler at a time: a handler's closure then holds the page
    it resolves on.  [Select] is a click on the entry at a position of the
    sidebar list. *)
Inductive action :=
| MessagesLoaded (data : option (list Message))
| NewConversation (created : option Conversation)
| Select (position : nat)
| Rename (ok : bool) (id title : string)
| Delete (ok : bool) (id : string)
| Frames (clock : string) (frames : list WebSocketMessage).

Definition act (a : action) (p : page) : page :=
  match a with
  | MessagesLoaded data => loadMessages data p
  | NewConversation created => handleNewConversation created p
  | Select position =>
      match Chat.conversations (cells p) !! position with
      | Some conversation => handleSelectConversation (conv_id conversation) p
      | None => p
      end
  | Rename ok id title => set_cells (Chat.handleRenameConversation ok id title (cells p)) p
  | Delete ok id => handleDeleteConversation ok id (cells p) p
  | Frames clock frames => on_frames clock frames p
  end.

Definition act_all (actions : list action) (p : page) : page :=
  fold_left (fun p a => act a p) actions p.

End ChatPage.

(** ** components/chat/FileUpload.tsx: removing a file *)

Module FileList.
Import Types.

Inductive removal_effect :=
| RevokeObjectURL (url : string)
| FilesChanged (fs : list UploadedFile).       (* onFilesChange(...) *)

Definition has_id (fileId : string) (f : UploadedFile) : bool :=
  String.eqb (uf_id f) fileId.

(** [removeFile]; a preview is revoked when [fileToRemove?.preview] is
    truthy, that is a non-empty string. *)
Definition removeFile (files : list UploadedFile) (fileId : string) : list removal_effect :=
  let fileToRemove := List.find (has_id fileId) files in
  (match fileToRemove with
   | Some f =>
       match uf_preview f with
       | Some (String a rest) => [RevokeObjectURL (String a rest)]
       | _ => []
       end
   | None => []
   end)
  ++ [FilesChanged (List.filter (fun f => negb (has_id fileId f)) files)].

(** The state cell [files] of [ChatInput] after a list of effects of either
    handler: the last [onFilesChange] wins. *)
Definition files_after_removal (files : list UploadedFile) (es : list removal_effect)
  : list UploadedFile :=
  fold_left (fun fs e => match e with FilesChanged fs' => fs' | _ => fs end) es files.

Definition files_after_select (files : list UploadedFile) (es : list FileUpload.effect)
  : list UploadedFile :=
  fold_left (fun fs e => match e with FileUpload.FilesChange fs' => fs' | _ => fs end)
            es files.

(** The lists passed to [onFilesChange] among the effects, in order. *)
Definition changes (es : list FileUpload.effect) : list (list UploadedFile) :=
  flat_map (fun e => match e with FileUpload.FilesChange fs => [fs] | _ => [] end) es.

(** The preview [handleFileSelect] attaches to an accepted file. *)
Definition preview_of (createObjectURL : File -> string) (f : File) : option string :=
  if String.prefix "image/" (file_type f) then Some (createObjectURL f) else None.

End FileList.

(** ** components/chat/ChatInput.tsx: keys, the disabled flags, uploads *)

Module ChatInputKeys.
Import Types ChatInput.
Local Open Scope string_scope.

Record KeyboardEvent := mkKey {
  key : string;
  shiftKey : bool
}.

(** [handleKeyDown]: whether [preventDefault] was called, and what
    [handleSubmit] did if it ran. *)
Definition handleKeyDown (e : KeyboardEvent) (p : props) (σ : state)
  : bool * (option (js_string * list FileAttachment) * state) :=
  if String.eqb (key e) "Enter" && negb (shiftKey e)
  then (true, handleSubmit p σ)
  else (false, (None, σ)).

(** [isDisabled], passed to the text area and the upload button. *)
Definition isDisabled (p : props) (σ : state) : bool :=
  disabled p || isStreaming p || isUploading σ.

(** The [disabled] attribute of the send button. *)
Definition send_button_disabled (p : props) (σ : state) : bool :=
  isDisabled p σ
  || (is_empty_string (trim (message σ)) && Nat.eqb (length (files σ)) 0).

Definition set_isUploading (v : bool) (σ : state) : state :=
  mkState (message σ) (files σ) v.

(** [handleUpload]: the flag goes up for the awaited [uploadFile] call and
    comes down in [finally], whether the call resolved or rejected. *)
Definition handleUpload (outcome : option UploadedFile) (σ : state)
  : option UploadedFile * state :=
  let σ := set_isUploading true σ in
  (outcome, set_isUploading false σ).

End ChatInputKeys.

(** ** The schema: statements in sequence *)

Module Statements.
Import Schema.
Local Open Scope string_scope.

(** [DELETE FROM messages WHERE id = ...] *)
Definition delete_message (id : string) : database -> database :=
  delete_messages (fun m => String.eqb (m_id m) id).

Inductive statement :=
| InsertConversation (uuid : string) (now : Z) (title : option string)
| InsertMessage (uuid : string) (now : Z) (conversation_id role content : string)
| InsertAttachment (uuid : string) (now : Z)
                   (message_id conversation_id name type url mime_type : string)
| UpdateTitle (id title : string)
| DeleteConversation (id : string)
| DeleteMessage (id : string).

(** A statement that violates a constraint is rejected and leaves the
    database as it was. *)
Definition exec (s : statement) (db : database) : database :=
  match s with
  | InsertConversation uuid now title =>
      match insert_conversation uuid now title db with
      | Some (_, db') => db'
      | None => db
      end
  | InsertMessage uuid now conversation_id role content =>
      match insert_message uuid now conversation_id role content db with
      | Some (_, db') => db'
      | None => db
      end
  | InsertAttachment uuid now message_id conversation_id name type url mime_type =>
      match insert_attachment uuid now message_id conversation_id name type url mime_type db
      with
      | Some (_, db') => db'
      | None => db
      end
  | UpdateTitle id title =>
      match update_title id title db with
      | Some db' => db'
      | None => db
      end
  | DeleteConversation id => delete_conversation id db
  | DeleteMessage id => delete_message id db
  end.

Definition exec_all (ss : list statement) (db : database) : database :=
  fold_left (fun db s => exec s db) ss db.

(** The declared constraints, as properties of a database: primary keys,
    the CHECKs on [role] and [type], the VARCHAR bounds the statements test,
    and the foreign keys. *)
Definition keys_unique (db : database) : Prop :=
  NoDup (map c_id (conversations db))
  /\ NoDup (map m_id (messages db))
  /\ NoDup (map a_id (attachments db)).

Definition checks_hold (db : database) : Prop :=
  (forall c, In c (conversations db) -> (String.length (c_title c) <= 255)%nat)
  /\ (forall m, In m (messages db) -> m_role m = "user" \/ m_role m = "assistant")
  /\ (forall a, In a (attachments db) ->
        (a_type a = "image" \/ a_type a = "pdf")
        /\ (String.length (a_name a) <= 255)%nat
        /\ (String.length (a_mime_type a) <= 100)%nat).

Definition consistent (db : database) : Prop :=
  keys_unique db /\ checks_hold db /\ references_ok db.

End Statements.

(** ** The storage bucket (storage migration) *)

Module Storage.
Import Types.
Local Open Scope string_scope.

Record bucket := mkBucket {
  b_id : string;
  b_name : string;
  b_public : bool;
  file_size_limit : N;
  allowed_mime_types : list string
}.

(** The row of the [INSERT INTO storage.buckets ... VALUES (...)]. *)
Definition chat_files : bucket :=
  {| b_id := "chat-files"; b_name := "chat-files"; b_public := true;
     file_size_limit := 26214400;
     allowed_mime_types :=
       ["image/jpeg"; "image/png"; "image/gif"; "image/webp"; "application/pdf"] |}.

(** [ON CONFLICT (id) DO UPDATE SET public = EXCLUDED.public,
    file_size_limit = EXCLUDED.file_size_limit,
    allowed_mime_types = EXCLUDED.allowed_mime_types]: the row in place keeps
    its name. *)
Definition on_conflict (excluded : bucket) (b : bucket) : bucket :=
  {| b_id := b_id b; b_name := b_name b; b_public := b_public excluded;
     file_size_limit := file_size_limit excluded;
     allowed_mime_types := allowed_mime_types excluded |}.

(** [INSERT ... ON CONFLICT (id) DO UPDATE] on the buckets table. *)
Definition upsert (row : bucket) (table : list bucket) : list bucket :=
  if existsb (fun b => String.eqb (b_id b) (b_id row)) table
  then map (fun b => if String.eqb (b_id b) (b_id row) then on_conflict row b else b) table
  else table ++ [row].

(** The migration's statement. *)
Definition migrate : list bucket -> list bucket := upsert chat_files.

(** What the bucket's two limits let in: an object no larger than
    [file_size_limit] whose media type is on [allowed_mime_types]. *)
Definition admits (b : bucket) (f : File) : bool :=
  N.leb (file_size f) (file_size_limit b)
  && existsb (String.eqb (file_type f)) (allowed_mime_types b).

End Storage.

(** ** components/chat/ConversationSidebar.tsx *)

Module Sidebar.
Import ChatInput.

(** [Conversation] of types/chat.ts as the sidebar reads it; the title is
    the JavaScript string the rename dialog edits and trims. *)
Record Conversation := mkConversation {
  conv_id : string;
  conv_title : js_string
}.

Record state := mkState {
  renameDialogOpen : bool;
  deleteDialogOpen : bool;
  selectedConversation : option Conversation;
  newTitle : js_string
}.

(** A call of one of the props. *)
Inductive call :=
| onRenameConversation (id : string) (title : js_string)
| onDeleteConversation (id : string).


Definition openDeleteDialog (conversation : Conversation) (σ : state) : state :=
  {| renameDialogOpen := renameDialogOpen σ; deleteDialogOpen := true;
     selectedConversation := Some conversation; newTitle := newTitle σ |}.


(** [handleDelete] *)
Definition handleDelete (σ : state) : option call * state :=
  match selectedConversation σ with
  | Some conversation =>
      (Some (onDeleteConversation (conv_id conversation)),
       {| renameDialogOpen := renameDialogOpen σ; deleteDialogOpen := false;
          selectedConversation := selectedConversation σ; newTitle := newTitle σ |})
  | None => (None, σ)
  end.

End Sidebar.
(** * Properties *)

(** ** The connection manager *)

Module WebSocketManagerFacts.
Import WebSocketManager.

Lemma lookup_alter_cancel (h j : nat) (ts : list timer) (t : timer) :
  alter cancel h ts !! j = Some t ->
  exists t0, ts !! j = Some t0 /\ ((j = h /\ t = cancel t0) \/ (j <> h /\ t = t0)).
Proof.
  rewrite list_lookup_alter. case_decide as E.
  - subst j. destruct (ts !! h) as [t0|]; simpl; [|discriminate].
    intros [= <-]. exists t0. auto.
  - intros H. exists t. split; [exact H|]. right. split; congruence.
Qed.

Lemma lookup_alter_cancel_pending (h j : nat) (ts : list timer) (t : timer) :
  alter cancel h ts !! j = Some t -> pending t = true ->
  j <> h /\ ts !! j = Some t.
Proof.
  intros H Hp. apply lookup_alter_cancel in H.
  destruct H as (t0 & Ht0 & [[-> ->] | [Hne ->]]); [discriminate|]. auto.
Qed.

Lemma cleanup_fields (σ : state) :
  ws (cleanup σ) = ws σ /\ sockets (cleanup σ) = sockets σ
  /\ wire (cleanup σ) = wire σ /\ connectionCount (cleanup σ) = connectionCount σ
  /\ reconnectTimeout (cleanup σ) = reconnectTimeout σ
  /\ pingInterval (cleanup σ) = None
  /\ length (timers (cleanup σ)) = length (timers σ).
Proof.
  unfold cleanup. destruct (pingInterval σ) as [h|] eqn:E; simpl; rewrite ?E;
    repeat split; try reflexivity.
  unfold alter. apply length_alter.
Qed.

Lemma cleanup_cancels (σ : state) (h : nat) (t : timer) :
  pingInterval σ = Some h -> timers (cleanup σ) !! h = Some t -> pending t = false.
Proof.
  intros E. unfold cleanup. rewrite E. simpl. intros H.
  destruct (pending t) eqn:Hp; [|reflexivity].
  apply lookup_alter_cancel_pending in H; [|exact Hp]. destruct H; congruence.
Qed.

Lemma well_timed_cancel (t : timer) : well_timed t -> well_timed (cancel t).
Proof. unfold well_timed, cancel. simpl. auto. Qed.

Lemma Forall_well_timed_alter (h : nat) (ts : list timer) :
  Forall well_timed ts -> Forall well_timed (alter cancel h ts).
Proof.
  revert h. induction ts as [|t ts IH]; intros h H; [destruct h; exact H|].
  inversion H; subst. destruct h; simpl.
  - constructor; [apply well_timed_cancel; assumption | assumption].
  - constructor; [assumption | apply IH; assumption].
Qed.

Lemma well_timed_connect (rnd : string) (σ : state) :
  Forall well_timed (timers σ) -> Forall well_timed (timers (connect rnd σ)).
Proof.
  intros H. unfold connect. simpl.
  destruct (_ || _); simpl; [exact H|].
  destruct (reconnectTimeout σ); simpl; [apply Forall_well_timed_alter|]; exact H.
Qed.

Lemma well_timed_cleanup (σ : state) :
  Forall well_timed (timers σ) -> Forall well_timed (timers (cleanup σ)).
Proof.
  intros H. unfold cleanup. destruct (pingInterval σ); simpl;
    [apply Forall_well_timed_alter|]; exact H.
Qed.

Lemma connect_count (rnd : string) (σ : state) :
  connectionCount (connect rnd σ) = connectionCount σ + 1.
Proof.
  unfold connect. simpl. destruct (_ || _); simpl; [reflexivity|].
  destruct (reconnectTimeout σ); reflexivity.
Qed.

Lemma connect_wire (rnd : string) (σ : state) : wire (connect rnd σ) = wire σ.
Proof.
  unfold connect. simpl. destruct (_ || _); simpl; [reflexivity|].
  destruct (reconnectTimeout σ); reflexivity.
Qed.

Lemma socket_close_fields (s : nat) (σ : state) :
  ws (socket_close s σ) = ws σ /\ timers (socket_close s σ) = timers σ
  /\ wire (socket_close s σ) = wire σ
  /\ connectionCount (socket_close s σ) = connectionCount σ
  /\ pingInterval (socket_close s σ) = pingInterval σ
  /\ reconnectTimeout (socket_close s σ) = reconnectTimeout σ
  /\ length (sockets (socket_close s σ)) = length (sockets σ).
Proof.
  unfold socket_close. destruct (sockets σ !! s) as [[]|]; simpl;
    repeat split; try reflexivity; apply length_insert.
Qed.

(** The teardown branch of [disconnect], field by field. *)
Lemma disconnect_teardown (σ : state) :
  connectionCount σ - 1 <= 0 ->
  connectionCount (disconnect σ) = 0 /\ ws (disconnect σ) = None
  /\ pingInterval (disconnect σ) = None /\ reconnectTimeout (disconnect σ) = None
  /\ wire (disconnect σ) = wire σ
  /\ length (sockets (disconnect σ)) = length (sockets σ)
  /\ length (timers (disconnect σ)) = length (timers σ)
  /\ (forall s, ws σ = Some s -> sockets σ !! s = Some OPEN \/ sockets σ !! s = Some CONNECTING ->
        sockets (disconnect σ) !! s = Some CLOSING)
  /\ (forall h t, (pingInterval σ = Some h \/ reconnectTimeout σ = Some h) ->
        timers (disconnect σ) !! h = Some t -> pending t = false).
Proof.
  intros Hle. unfold disconnect. simpl.
  rewrite bool_decide_eq_true_2 by exact Hle.
  destruct σ as [w cid pi rt n nf ss ts wr]. simpl in *.
  unfold cleanup, clearInterval, clearTimeout, clear_timer, socket_close; simpl.
  destruct pi as [p|], rt as [r|], w as [s|]; simpl;
    try (destruct (ss !! s) as [[]|] eqn:Es; simpl);
    rewrite ?length_insert, ?length_alter;
    repeat split; try reflexivity;
    try (intros s' [= <-] [H|H]; rewrite ?Es in H; try discriminate;
         apply list_lookup_insert_eq; apply lookup_lt_Some in Es; exact Es);
    try (intros s' [=]);
    try (intros s' [= <-] [H|H]; congruence).
  all: intros h t [[= <-]|[= <-]] Hl; try discriminate.
  all: destruct (pending t) eqn:Hp; [exfalso|reflexivity].
  all: repeat (apply lookup_alter_cancel_pending in Hl; [|exact Hp];
               destruct Hl as [? Hl]; try congruence).
Qed.

(** The other branch: nothing but the count changes. *)
Lemma disconnect_keep (σ : state) :
  connectionCount σ - 1 > 0 ->
  disconnect σ = set_connectionCount (connectionCount σ - 1) σ.
Proof.
  intros H. unfold disconnect. simpl.
  rewrite bool_decide_eq_false_2 by lia. reflexivity.
Qed.

Lemma disconnect_count (σ : state) :
  connectionCount (disconnect σ) = Z.max 0 (connectionCount σ - 1).
Proof.
  destruct (Z_le_gt_dec (connectionCount σ - 1) 0) as [H|H].
  - destruct (disconnect_teardown σ H) as [-> _]. lia.
  - rewrite disconnect_keep by exact H. simpl. lia.
Qed.

Lemma disconnect_wire (σ : state) : wire (disconnect σ) = wire σ.
Proof.
  destruct (Z_le_gt_dec (connectionCount σ - 1) 0) as [H|H].
  - apply (disconnect_teardown σ H).
  - rewrite disconnect_keep by exact H. reflexivity.
Qed.

Lemma well_timed_disconnect (σ : state) :
  Forall well_timed (timers σ) -> Forall well_timed (timers (disconnect σ)).
Proof.
  intros H. unfold disconnect. simpl. case_bool_decide; [|exact H].
  set (σ1 := cleanup _).
  assert (H1 : Forall well_timed (timers σ1)) by (apply well_timed_cleanup; exact H).
  clearbody σ1.
  assert (H2 : Forall well_timed
                 (timers match reconnectTimeout σ1 with
                         | Some h => set_reconnectTimeout None (clearTimeout h σ1)
                         | None => σ1
                         end)).
  { destruct (reconnectTimeout σ1); simpl; [apply Forall_well_timed_alter|]; exact H1. }
  destruct (ws _) as [s|]; [|exact H2].
  simpl. destruct (socket_close_fields s
    match reconnectTimeout σ1 with
    | Some h => set_reconnectTimeout None (clearTimeout h σ1)
    | None => σ1
    end) as (_ & -> & _). exact H2.
Qed.

Section Payloads.

Context {object : Type}.
Variable JSON_stringify : object -> string.
Variable ping_object : object.

Local Abbreviation send := (send JSON_stringify).
Local Abbreviation ping_tick := (ping_tick JSON_stringify ping_object).
Local Abbreviation step := (step JSON_stringify ping_object).
Local Abbreviation run := (run JSON_stringify ping_object).
Local Abbreviation run_callback := (run_callback JSON_stringify ping_object).

(** A call of [send] or a keep-alive tick appends at most one frame, and
    only on the current socket while it is OPEN. *)
Lemma send_cases (data : object) (σ : state) :
  (exists s, ws σ = Some s /\ sockets σ !! s = Some OPEN
             /\ send data σ = (true, set_wire (wire σ ++ [(s, JSON_stringify data)]) σ))
  \/ (ws_readyState σ <> Some OPEN /\ send data σ = (false, σ)).
Proof.
  unfold WebSocketManager.send, ws_readyState. destruct (ws σ) as [s|]; simpl.
  - case_bool_decide as E; [left; exists s; auto | right; auto].
  - right. split; [discriminate | reflexivity].
Qed.

Lemma ping_tick_cases (σ : state) :
  (exists s, ws σ = Some s /\ sockets σ !! s = Some OPEN
             /\ ping_tick σ = set_wire (wire σ ++ [(s, JSON_stringify ping_object)]) σ)
  \/ (ws_readyState σ <> Some OPEN /\ ping_tick σ = σ).
Proof.
  unfold WebSocketManager.ping_tick, ws_readyState. destruct (ws σ) as [s|]; simpl.
  - case_bool_decide as E; [left; exists s; auto | right; auto].
  - right. split; [discriminate | reflexivity].
Qed.

Lemma onopen_fields (σ : state) :
  timers (onopen σ) = timers σ ++ [mkTimer Interval PING_INTERVAL PingTick true]
  /\ pingInterval (onopen σ) = Some (length (timers σ))
  /\ ws (onopen σ) = ws σ /\ sockets (onopen σ) = sockets σ
  /\ wire (onopen σ) = wire σ /\ connectionCount (onopen σ) = connectionCount σ
  /\ reconnectTimeout (onopen σ) = reconnectTimeout σ.
Proof. unfold onopen. simpl. repeat split; reflexivity. Qed.

Lemma onclose_fields (σ : state) :
  ws (onclose σ) = ws σ /\ sockets (onclose σ) = sockets σ
  /\ wire (onclose σ) = wire σ /\ connectionCount (onclose σ) = connectionCount σ
  /\ pingInterval (onclose σ) = None
  /\ (connectionCount σ > 0 ->
        timers (onclose σ)
        = timers (cleanup σ) ++ [mkTimer Timeout RECONNECT_DELAY Reconnect true]
        /\ reconnectTimeout (onclose σ) = Some (length (timers σ)))
  /\ (connectionCount σ <= 0 ->
        timers (onclose σ) = timers (cleanup σ)
        /\ reconnectTimeout (onclose σ) = reconnectTimeout σ).
Proof.
  destruct (cleanup_fields σ) as (Hw & Hs & Hwr & Hc & Hr & Hp & Hl).
  unfold onclose. simpl. rewrite Hc.
  case_bool_decide as E; simpl; rewrite ?Hw, ?Hs, ?Hwr, ?Hc, ?Hp, ?Hr, ?Hl;
    repeat split; try reflexivity; intros; lia.
Qed.

(** What a single turn of the loop can put on the wire. *)
Lemma step_wire (e : event) (σ σ' : state) :
  step e σ = Some σ' ->
  wire σ' = wire σ
  \/ exists s text,
       ws σ = Some s /\ sockets σ !! s = Some OPEN
       /\ wire σ' = wire σ ++ [(s, text)]
       /\ (text = JSON_stringify ping_object
           \/ exists d, e = Send d /\ text = JSON_stringify d).
Proof.
  destruct e as [rnd| |d|s|s|s text|s|s|h rnd]; simpl.
  - intros [= <-]. left. apply connect_wire.
  - intros [= <-]. left. apply disconnect_wire.
  - intros [= <-].
    destruct (send_cases d σ) as [(s & Hw & Hs & ->) | (_ & ->)]; [right|left; reflexivity].
    exists s, (JSON_stringify d). eauto 10.
  - destruct (sockets σ !! s) as [[]|]; intros [= <-]. left. reflexivity.
  - destruct (sockets σ !! s) as [[]|]; intros [= <-]. left. reflexivity.
  - destruct (sockets σ !! s) as [[]|]; intros [= <-]; left; reflexivity.
  - destruct (sockets σ !! s); intros [= <-]. left. reflexivity.
  - destruct (sockets σ !! s) as [[]|]; intros [= <-]; left;
      apply (onclose_fields (set_sockets _ σ)).
  - destruct (timers σ !! h) as [t|]; [|discriminate].
    destruct (pending t); [|discriminate].
    destruct (kind t), (action t); simpl; intros [= <-].
    + destruct (ping_tick_cases σ) as [(s & Hw & Hs & ->) | (_ & ->)];
        [right; exists s, (JSON_stringify ping_object); eauto 10 | left; reflexivity].
    + left. apply connect_wire.
    + destruct (ping_tick_cases (clear_timer h σ)) as [(s & Hw & Hs & ->) | (_ & ->)];
        [right; exists s, (JSON_stringify ping_object); eauto 10 | left; reflexivity].
    + left. rewrite connect_wire. reflexivity.
Qed.

Lemma step_count (e : event) (σ σ' : state) :
  step e σ = Some σ' -> 0 <= connectionCount σ -> 0 <= connectionCount σ'.
Proof.
  destruct e as [rnd| |d|s|s|s text|s|s|h rnd]; simpl.
  - intros [= <-]. rewrite connect_count. lia.
  - intros [= <-]. rewrite disconnect_count. lia.
  - intros [= <-].
    destruct (send_cases d σ) as [(s & _ & _ & ->) | (_ & ->)]; simpl; auto.
  - destruct (sockets σ !! s) as [[]|]; intros [= <-]. simpl. auto.
  - destruct (sockets σ !! s) as [[]|]; intros [= <-]. simpl. auto.
  - destruct (sockets σ !! s) as [[]|]; intros [= <-]; auto.
  - destruct (sockets σ !! s); intros [= <-]. auto.
  - destruct (sockets σ !! s) as [[]|]; intros [= <-];
      destruct (onclose_fields (set_sockets (<[s:=CLOSED]> (sockets σ)) σ))
        as (_ & _ & _ & -> & _); simpl; auto.
  - destruct (timers σ !! h) as [t|]; [|discriminate].
    destruct (pending t); [|discriminate].
    destruct (kind t), (action t); simpl; intros [= <-].
    + destruct (ping_tick_cases σ) as [(s & _ & _ & ->) | (_ & ->)]; simpl; auto.
    + rewrite connect_count. lia.
    + destruct (ping_tick_cases (clear_timer h σ)) as [(s & _ & _ & ->) | (_ & ->)];
        simpl; auto.
    + rewrite connect_count. simpl. lia.
Qed.

Lemma step_well_timed (e : event) (σ σ' : state) :
  step e σ = Some σ' ->
  Forall well_timed (timers σ) -> Forall well_timed (timers σ').
Proof.
  destruct e as [rnd| |d|s|s|s text|s|s|h rnd]; simpl.
  - intros [= <-]. apply well_timed_connect.
  - intros [= <-]. apply well_timed_disconnect.
  - intros [= <-].
    destruct (send_cases d σ) as [(s & _ & _ & ->) | (_ & ->)]; simpl; auto.
  - destruct (sockets σ !! s) as [[]|]; intros [= <-] H.
    destruct (onopen_fields (set_sockets (<[s:=OPEN]> (sockets σ)) σ)) as (-> & _).
    simpl. apply Forall_app. split; [exact H|]. repeat constructor.
  - destruct (sockets σ !! s) as [[]|]; intros [= <-]. simpl. auto.
  - destruct (sockets σ !! s) as [[]|]; intros [= <-]; auto.
  - destruct (sockets σ !! s); intros [= <-]. auto.
  - assert (Hc : forall τ, Forall well_timed (timers τ) ->
                           Forall well_timed (timers (onclose τ))).
    { intros τ H. destruct (onclose_fields τ) as (_ & _ & _ & _ & _ & Hpos & Hneg).
      destruct (Z_le_gt_dec (connectionCount τ) 0) as [Hz|Hz].
      - destruct (Hneg Hz) as [-> _]. apply well_timed_cleanup, H.
      - destruct (Hpos Hz) as [-> _]. apply Forall_app.
        split; [apply well_timed_cleanup, H | repeat constructor]. }
    destruct (sockets σ !! s) as [[]|]; intros [= <-] H; apply Hc; exact H.
  - destruct (timers σ !! h) as [t|]; [|discriminate].
    destruct (pending t); [|discriminate].
    destruct (kind t), (action t); simpl; intros [= <-] H.
    + destruct (ping_tick_cases σ) as [(s & _ & _ & ->) | (_ & ->)]; simpl; auto.
    + apply well_timed_connect, H.
    + destruct (ping_tick_cases (clear_timer h σ)) as [(s & _ & _ & ->) | (_ & ->)];
        simpl; apply Forall_well_timed_alter, H.
    + apply well_timed_connect. simpl. apply Forall_well_timed_alter, H.
Qed.

(** Along a run the wire only grows, and every new frame is a keep-alive
    ping or the payload of a [send] call of that run. *)
Lemma run_wire (es : list event) (σ σ' : state) :
  run es σ = Some σ' ->
  exists later,
    wire σ' = wire σ ++ later
    /\ forall s text, In (s, text) later ->
         text = JSON_stringify ping_object
         \/ exists d, In (Send d) es /\ text = JSON_stringify d.
Proof.
  revert σ. induction es as [|e es IH]; simpl; intros σ H.
  - injection H as <-. exists []. rewrite app_nil_r. split; [reflexivity | intros ? ? []].
  - destruct (step e σ) as [σ1|] eqn:E; simpl in H; [|discriminate].
    destruct (IH _ H) as (later & Hw & Hl).
    destruct (step_wire _ _ _ E) as [Hs | (s & text & _ & _ & Hs & Hor)].
    + exists later. rewrite Hw, Hs. split; [reflexivity|].
      intros s text Hin. destruct (Hl _ _ Hin) as [?|(d & ? & ?)]; eauto.
    + exists ((s, text) :: later). rewrite Hw, Hs, <- app_assoc. split; [reflexivity|].
      intros s0 t0 [[= <- <-]|Hin].
      * destruct Hor as [?|(d & -> & ?)]; eauto.
      * destruct (Hl _ _ Hin) as [?|(d & ? & ?)]; eauto.
Qed.

Lemma run_count (es : list event) (σ σ' : state) :
  run es σ = Some σ' -> 0 <= connectionCount σ -> 0 <= connectionCount σ'.
Proof.
  revert σ. induction es as [|e es IH]; simpl; intros σ H H0.
  - injection H as <-. exact H0.
  - destruct (step e σ) as [σ1|] eqn:E; simpl in H; [|discriminate].
    eapply IH; [exact H|]. eapply step_count; eassumption.
Qed.

Lemma run_well_timed (es : list event) (σ σ' : state) :
  run es σ = Some σ' ->
  Forall well_timed (timers σ) -> Forall well_timed (timers σ').
Proof.
  revert σ. induction es as [|e es IH]; simpl; intros σ H H0.
  - injection H as <-. exact H0.
  - destruct (step e σ) as [σ1|] eqn:E; simpl in H; [|discriminate].
    eapply IH; [exact H|]. eapply step_well_timed; eassumption.
Qed.

Lemma cleanup_set_sockets (ss : list readyState) (σ : state) :
  timers (cleanup (set_sockets ss σ)) = timers (cleanup σ)
  /\ pingInterval (set_sockets ss σ) = pingInterval σ
  /\ connectionCount (set_sockets ss σ) = connectionCount σ
  /\ reconnectTimeout (set_sockets ss σ) = reconnectTimeout σ.
Proof. unfold cleanup. simpl. destruct (pingInterval σ); repeat split; reflexivity. Qed.

(** What the close event does, whatever socket it is dispatched on. *)
Lemma step_closed (s : nat) (σ σ' : state) :
  step (SocketClosed s) σ = Some σ' ->
  σ' = onclose (set_sockets (<[s := CLOSED]> (sockets σ)) σ).
Proof.
  simpl. destruct (sockets σ !! s) as [[]|]; intros [= <-]; reflexivity.
Qed.

Lemma connect_keeps_cancelled (rnd : string) (σ : state) (h : nat) (t : timer) :
  timers (connect rnd σ) !! h = Some t -> pending t = true ->
  exists t0, timers σ !! h = Some t0 /\ pending t0 = true.
Proof.
  unfold connect. simpl. destruct (_ || _); simpl; [eauto|].
  destruct (reconnectTimeout σ) as [r|]; simpl; [|eauto].
  intros H Hp. apply lookup_alter_cancel_pending in H; [|exact Hp].
  destruct H. eauto.
Qed.

(** While the current socket is OPEN or CONNECTING, [connect] only counts. *)
Lemma connect_live (rnd : string) (σ : state) :
  ws_readyState σ = Some OPEN \/ ws_readyState σ = Some CONNECTING ->
  connect rnd σ = set_connectionCount (connectionCount σ + 1) σ.
Proof.
  intros H. unfold connect.
  assert (E : ws_readyState (set_connectionCount (connectionCount σ + 1) σ)
              = ws_readyState σ) by reflexivity.
  rewrite E. destruct H as [-> | ->]; reflexivity.
Qed.

(** Otherwise it constructs a socket, after clearing a pending reconnect. *)
Lemma connect_fresh (rnd : string) (σ : state) :
  ws_readyState σ <> Some OPEN -> ws_readyState σ <> Some CONNECTING ->
  ws (connect rnd σ) = Some (length (sockets σ))
  /\ sockets (connect rnd σ) = sockets σ ++ [CONNECTING]
  /\ reconnectTimeout (connect rnd σ) = None
  /\ pingInterval (connect rnd σ) = pingInterval σ.
Proof.
  intros H1 H2. unfold connect.
  assert (E : ws_readyState (set_connectionCount (connectionCount σ + 1) σ)
              = ws_readyState σ) by reflexivity.
  rewrite E, !bool_decide_eq_false_2 by assumption. simpl.
  destruct σ as [w cid pi [r|] n nf ss ts wr]; simpl; repeat split; reflexivity.
Qed.

Lemma churn_only_counts (es : list event) (σ : state) :
  churn es σ = true ->
  ws_readyState σ = Some OPEN \/ ws_readyState σ = Some CONNECTING ->
  exists n, run es σ = Some (set_connectionCount n σ).
Proof.
  revert σ. induction es as [|e es IH]; intros σ Hc Hl; simpl in *.
  - exists (connectionCount σ). destruct σ; reflexivity.
  - destruct e as [rnd| |d|s|s|s text|s|s|h rnd]; try discriminate.
    + rewrite connect_live in * by exact Hl.
      destruct (IH (set_connectionCount (connectionCount σ + 1) σ) Hc Hl) as [n Hn].
      exists n. change (run es (connect rnd σ) = Some (set_connectionCount n σ)).
      rewrite connect_live by exact Hl. exact Hn.
    + apply andb_prop in Hc. destruct Hc as [Hpos Hc].
      apply bool_decide_eq_true in Hpos. rewrite disconnect_count in Hpos.
      rewrite disconnect_keep in * by lia.
      destruct (IH (set_connectionCount (connectionCount σ - 1) σ) Hc Hl) as [n Hn].
      exists n. change (run es (disconnect σ) = Some (set_connectionCount n σ)).
      rewrite disconnect_keep by lia. exact Hn.
Qed.

(** C2. [send]: when the socket does not exist or is not OPEN nothing is
    transmitted and the result is [false]; when it is OPEN the serialised
    payload is transmitted on it and the result is [true].  Nothing is queued:
    a failed [send] leaves the manager as it was, and no later turn of the
    event loop transmits that payload, short of a new [send] call with it. *)
Theorem send_best_effort (data : object) (σ : state) :
  ((ws σ = None \/ exists s, ws σ = Some s /\ sockets σ !! s <> Some OPEN) ->
     send data σ = (false, σ))
  /\ (forall s, ws σ = Some s -> sockets σ !! s = Some OPEN ->
        send data σ = (true, set_wire (wire σ ++ [(s, JSON_stringify data)]) σ))
  /\ (forall es σ',
        fst (send data σ) = false ->
        run es (snd (send data σ)) = Some σ' ->
        JSON_stringify data <> JSON_stringify ping_object ->
        (forall d, In (Send d) es -> JSON_stringify d <> JSON_stringify data) ->
        exists later, wire σ' = wire σ ++ later
                      /\ forall s, ~ In (s, JSON_stringify data) later).
Proof.
  split; [|split].
  - intros H. destruct (send_cases data σ) as [(s & Hw & Hs & _) | (_ & E)]; [|exact E].
    destruct H as [H | (s' & H & Hn)]; congruence.
  - intros s Hw Hs. unfold WebSocketManager.send. rewrite Hw.
    rewrite bool_decide_eq_true_2 by exact Hs. reflexivity.
  - intros es σ' Hf Hr Hping Hes.
    destruct (send_cases data σ) as [(s & _ & _ & E) | (_ & E)]; rewrite E in Hf, Hr;
      [discriminate|]. simpl in Hr.
    destruct (run_wire _ _ _ Hr) as (later & Hw & Hl).
    exists later. split; [exact Hw|]. intros s Hin.
    destruct (Hl _ _ Hin) as [E1 | (d & Hd & E1)]; [exact (Hping E1)|].
    exact (Hes d Hd (eq_sym E1)).
Qed.

(** X25. When a socket closes while [connectionCount > 0], the handler
    creates exactly one timer: a one-shot timeout of 3000 ms that calls
    [connect] once and cannot fire again; when the count is not positive it
    creates none.  Every reconnect timer the manager ever creates has that
    same delay. *)
Theorem close_schedules_reconnect (s : nat) (σ σ' : state) :
  step (SocketClosed s) σ = Some σ' ->
  (connectionCount σ > 0 ->
     timers σ' = timers (cleanup σ) ++ [mkTimer Timeout RECONNECT_DELAY Reconnect true]
     /\ reconnectTimeout σ' = Some (length (timers σ))
     /\ forall rnd rnd',
          step (TimerFired (length (timers σ)) rnd) σ'
          = Some (connect rnd (clear_timer (length (timers σ)) σ'))
          /\ step (TimerFired (length (timers σ)) rnd')
                  (connect rnd (clear_timer (length (timers σ)) σ')) = None)
  /\ (connectionCount σ <= 0 ->
        timers σ' = timers (cleanup σ) /\ reconnectTimeout σ' = reconnectTimeout σ)
  /\ RECONNECT_DELAY = 3000
  /\ (forall es τ, run es init = Some τ ->
        forall t, In t (timers τ) -> action t = Reconnect ->
                  kind t = Timeout /\ delay t = 3000).
Proof.
  intros Hs. apply step_closed in Hs. subst σ'.
  set (σ0 := set_sockets _ σ).
  destruct (cleanup_set_sockets (<[s:=CLOSED]> (sockets σ)) σ) as (Ht & Hp & Hc & Hr).
  fold σ0 in Ht, Hp, Hc, Hr.
  destruct (onclose_fields σ0) as (_ & _ & _ & _ & _ & Hpos & Hneg).
  rewrite Hc, Ht, Hr in *. change (timers σ0) with (timers σ) in *.
  split; [|split; [exact Hneg | split; [reflexivity|]]].
  - intros Hgt. destruct (Hpos Hgt) as [E1 E2]. split; [exact E1 | split; [exact E2|]].
    intros rnd rnd'.
    assert (Hlen : length (timers (cleanup σ)) = length (timers σ))
      by apply cleanup_fields.
    assert (Hl : timers (onclose σ0) !! length (timers σ)
                 = Some (mkTimer Timeout RECONNECT_DELAY Reconnect true)).
    { rewrite E1, <- Hlen. rewrite lookup_app_r by lia.
      rewrite Nat.sub_diag. reflexivity. }
    split.
    + simpl. rewrite Hl. reflexivity.
    + simpl.
      destruct (timers (connect rnd (clear_timer (length (timers σ)) (onclose σ0)))
                  !! length (timers σ)) as [t|] eqn:Et; [|reflexivity].
      destruct (pending t) eqn:Hpt; [exfalso|reflexivity].
      destruct (connect_keeps_cancelled _ _ _ _ Et Hpt) as (t0 & Ht0 & Hp0).
      simpl in Ht0. apply lookup_alter_cancel_pending in Ht0; [|exact Hp0].
      destruct Ht0 as [Hne _]. congruence.
  - intros es τ Hrun t Hin Ha.
    assert (Hwt : Forall well_timed (timers τ)).
    { eapply run_well_timed; [exact Hrun | constructor]. }
    rewrite Forall_forall in Hwt. apply list_elem_of_In in Hin.
    specialize (Hwt t Hin). unfold well_timed in Hwt. rewrite Ha in Hwt. exact Hwt.
Qed.

(** X26. The count: [connect] adds one, [disconnect] takes one away (never
    below zero).  [connect] constructs no socket while the current one is
    OPEN or CONNECTING.  [disconnect] changes nothing but the count while the
    count stays positive; when it reaches zero it closes the current socket
    and cancels the two timers whose handles the manager holds.  So any churn
    of [connect] and [disconnect] calls that keeps the count positive leaves
    the socket and the timers as they were. *)
Theorem reference_counted (σ : state) :
  (forall rnd, connectionCount (connect rnd σ) = connectionCount σ + 1)
  /\ connectionCount (disconnect σ) = Z.max 0 (connectionCount σ - 1)
  /\ (forall rnd,
        ws_readyState σ = Some OPEN \/ ws_readyState σ = Some CONNECTING ->
        connect rnd σ = set_connectionCount (connectionCount σ + 1) σ)
  /\ (connectionCount σ - 1 > 0 ->
        disconnect σ = set_connectionCount (connectionCount σ - 1) σ)
  /\ (connectionCount σ - 1 <= 0 ->
        ws (disconnect σ) = None
        /\ pingInterval (disconnect σ) = None
        /\ reconnectTimeout (disconnect σ) = None
        /\ (forall s, ws σ = Some s ->
              sockets σ !! s = Some OPEN \/ sockets σ !! s = Some CONNECTING ->
              sockets (disconnect σ) !! s = Some CLOSING)
        /\ (forall h t, pingInterval σ = Some h \/ reconnectTimeout σ = Some h ->
              timers (disconnect σ) !! h = Some t -> pending t = false))
  /\ (forall es,
        churn es σ = true ->
        ws_readyState σ = Some OPEN \/ ws_readyState σ = Some CONNECTING ->
        exists n, run es σ = Some (set_connectionCount n σ)).
Proof.
  split; [intros; apply connect_count|].
  split; [apply disconnect_count|].
  split; [intros; apply connect_live; assumption|].
  split; [apply disconnect_keep|].
  split; [|intros; apply churn_only_counts; assumption].
  intros H. destruct (disconnect_teardown σ H) as (_ & ? & ? & ? & _ & _ & _ & ? & ?).
  auto.
Qed.

(** X27. Every socket open starts one interval timer of 30000 ms; a tick
    of a keep-alive timer sends a ping on the current socket when that socket
    is OPEN and does nothing otherwise; a socket close cancels the keep-alive
    timer whose handle the manager holds; and while no socket is OPEN no turn
    of the event loop transmits anything. *)
Theorem keep_alive (σ σ' : state) :
  (forall s, step (SocketOpened s) σ = Some σ' ->
     timers σ' = timers σ ++ [mkTimer Interval PING_INTERVAL PingTick true]
     /\ pingInterval σ' = Some (length (timers σ))
     /\ PING_INTERVAL = 30000)
  /\ (forall h rnd t,
        timers σ !! h = Some t -> action t = PingTick ->
        step (TimerFired h rnd) σ = Some σ' ->
        (exists s, ws σ = Some s /\ sockets σ !! s = Some OPEN
                   /\ wire σ' = wire σ ++ [(s, JSON_stringify ping_object)])
        \/ (ws_readyState σ <> Some OPEN /\ wire σ' = wire σ))
  /\ (forall s, step (SocketClosed s) σ = Some σ' ->
        pingInterval σ' = None
        /\ forall h rnd, pingInterval σ = Some h -> is_Some (timers σ !! h) ->
                         step (TimerFired h rnd) σ' = None)
  /\ (forall e, step e σ = Some σ' ->
        (forall s, sockets σ !! s <> Some OPEN) -> wire σ' = wire σ).
Proof.
  split; [|split; [|split]].
  - intros s. simpl. destruct (sockets σ !! s) as [[]|]; intros [= <-].
    destruct (onopen_fields (set_sockets (<[s:=OPEN]> (sockets σ)) σ)) as (-> & -> & _).
    repeat split; reflexivity.
  - intros h rnd t Ht Ha. simpl. rewrite Ht.
    destruct (pending t); [|discriminate]. rewrite Ha.
    destruct (kind t); simpl; intros [= <-].
    + destruct (ping_tick_cases σ) as [(s & Hw & Hs & ->) | (Hn & ->)];
        [left; exists s; auto | right; auto].
    + destruct (ping_tick_cases (clear_timer h σ)) as [(s & Hw & Hs & ->) | (Hn & ->)];
        [left; exists s; auto | right; auto].
  - intros s Hs. apply step_closed in Hs. subst σ'.
    set (σ0 := set_sockets _ σ).
    destruct (onclose_fields σ0) as (_ & _ & _ & _ & Hp & Hpos & Hneg).
    split; [exact Hp|]. intros h rnd Hh Hex. simpl.
    apply lookup_lt_is_Some in Hex.
    destruct (timers (onclose σ0) !! h) as [t|] eqn:Et; [|reflexivity].
    destruct (pending t) eqn:Hpt; [exfalso|reflexivity].
    assert (Hlen : length (timers (cleanup σ0)) = length (timers σ))
      by apply (cleanup_fields σ0).
    assert (Hc : timers (cleanup σ0) !! h = Some t).
    { destruct (Z_le_gt_dec (connectionCount σ0) 0) as [Hz|Hz].
      - destruct (Hneg Hz) as [E _]. rewrite E in Et. exact Et.
      - destruct (Hpos Hz) as [E _]. rewrite E in Et.
        rewrite lookup_app_l in Et by lia. exact Et. }
    assert (Hf : pending t = false).
    { eapply (cleanup_cancels σ0); [exact Hh | exact Hc]. }
    congruence.
  - intros e He Hno. destruct (step_wire _ _ _ He) as [E | (s & text & _ & Hs & _)];
      [exact E|]. exfalso. exact (Hno s Hs).
Qed.

(** C9. The count is never negative, whatever the consumers and the
    browser do; [disconnect] clamps it at zero, and after a teardown at
    count zero the next [connect] constructs a new socket. *)
Theorem count_never_negative :
  (forall es σ, run es init = Some σ -> 0 <= connectionCount σ)
  /\ (forall σ, connectionCount (disconnect σ) = Z.max 0 (connectionCount σ - 1))
  /\ (forall σ rnd,
        connectionCount σ - 1 <= 0 ->
        connectionCount (disconnect σ) = 0
        /\ ws (disconnect σ) = None
        /\ sockets σ !! length (sockets σ) = None
        /\ ws (connect rnd (disconnect σ)) = Some (length (sockets σ))
        /\ sockets (connect rnd (disconnect σ)) !! length (sockets σ) = Some CONNECTING
        /\ connectionCount (connect rnd (disconnect σ)) = 1).
Proof.
  split; [|split].
  - intros es σ H. eapply run_count; [exact H | simpl; lia].
  - apply disconnect_count.
  - intros σ rnd H.
    destruct (disconnect_teardown σ H) as (Hc & Hw & _ & _ & _ & Hlen & _).
    assert (Hr : ws_readyState (disconnect σ) = None)
      by (unfold ws_readyState; rewrite Hw; reflexivity).
    destruct (connect_fresh rnd (disconnect σ)) as (E1 & E2 & _);
      [rewrite Hr; discriminate | rewrite Hr; discriminate |].
    rewrite connect_count, Hc, E1, E2, Hlen.
    split; [reflexivity|]. split; [exact Hw|]. split; [apply lookup_ge_None; lia|].
    split; [reflexivity|]. split; [|reflexivity].
    rewrite lookup_app_r by lia. rewrite Hlen, Nat.sub_diag. reflexivity.
Qed.

End Payloads.

(** *** The theorems at concrete states

    Payloads are given by their JSON text. *)

Local Open Scope string_scope.

Example run_to_one_consumer_open :
  run (fun text : string => text) "ping" [Connect "r"; SocketOpened 0] init
  = Some one_consumer_open.
Proof. reflexivity. Qed.

(** React's development double mount: connect, disconnect, connect.  The
    first socket is closed while CONNECTING and a second one is constructed;
    when the first one's close event arrives a reconnect is scheduled although
    the second socket is alive, and its firing counts one more consumer. *)
Example double_mount :
  run (fun text : string => text) "ping"
      [Connect "a"; Disconnect; Connect "b"; SocketClosed 0; SocketOpened 1;
       TimerFired 0 "c"] init
  = Some {| ws := Some 1%nat; clientId := "client_b"; pingInterval := Some 1%nat;
            reconnectTimeout := Some 0%nat; connectionCount := 2; notified := 2;
            sockets := [CLOSED; OPEN];
            timers := [mkTimer Timeout RECONNECT_DELAY Reconnect false;
                       mkTimer Interval PING_INTERVAL PingTick true];
            wire := [] |}.
Proof. vm_compute. reflexivity. Qed.

(** One consumer whose socket drops: the reconnect timer's [connect()]
    counts once more, so the single consumer's later [disconnect()] leaves
    the count at one and the new socket stays. *)
Example reconnect_counts_again :
  run (fun text : string => text) "ping"
      [SocketClosed 0; TimerFired 1 "s"; SocketOpened 1; Disconnect] one_consumer_open
  = Some {| ws := Some 1%nat; clientId := "client_s"; pingInterval := Some 2%nat;
            reconnectTimeout := None; connectionCount := 1; notified := 3;
            sockets := [CLOSED; OPEN];
            timers := [mkTimer Interval PING_INTERVAL PingTick false;
                       mkTimer Timeout RECONNECT_DELAY Reconnect false;
                       mkTimer Interval PING_INTERVAL PingTick true];
            wire := [] |}.
Proof. vm_compute. reflexivity. Qed.

(** C3. A reconnect is scheduled with no consumer registered.  A lone
    consumer's socket drops and the reconnect timer reopens it; the timer's
    [connect()] is counted like a consumer's.  When the consumer then
    unmounts nobody is registered, yet the count is 1 and the socket stays
    open; when that socket closes, the handler schedules a reconnect. *)
Theorem reconnect_without_consumers :
  consumers reconnected_then_unmounted 0 = 0%nat
  /\ exists σ τ,
       run (fun text : string => text) "ping" reconnected_then_unmounted init = Some σ
       /\ connectionCount σ = 1
       /\ ws_readyState σ = Some OPEN
       /\ step (fun text : string => text) "ping" (SocketClosed 1) σ = Some τ
       /\ reconnectTimeout τ = Some 3%nat
       /\ timers τ !! 3%nat = Some (mkTimer Timeout RECONNECT_DELAY Reconnect true).
Proof.
  split; [reflexivity|]. eexists. eexists.
  split; [vm_compute; reflexivity|].
  split; [reflexivity|]. split; [reflexivity|].
  split; [vm_compute; reflexivity|].
  split; reflexivity.
Qed.

(** C6. A reconnect timer survives the teardown at count zero.  After a
    mount, an unmount and a second mount, the close events of both sockets
    each schedule a reconnect, and the second overwrites the handle of the
    first.  The last unmount brings the count to zero and cancels the timer
    it holds; the other one is still pending, and when it fires the manager
    opens a socket for nobody. *)
Theorem teardown_leaves_reconnect_pending :
  consumers remounted_then_unmounted 0 = 0%nat
  /\ exists σ τ,
       run (fun text : string => text) "ping" remounted_then_unmounted init = Some σ
       /\ connectionCount σ = 0
       /\ ws σ = None
       /\ reconnectTimeout σ = None
       /\ timers σ !! 0%nat = Some (mkTimer Timeout RECONNECT_DELAY Reconnect true)
       /\ step (fun text : string => text) "ping" (TimerFired 0 "c") σ = Some τ
       /\ ws τ = Some 2%nat
       /\ sockets τ !! 2%nat = Some CONNECTING
       /\ connectionCount τ = 1.
Proof.
  split; [reflexivity|]. eexists. eexists.
  split; [vm_compute; reflexivity|].
  do 4 (split; [reflexivity|]).
  split; [vm_compute; reflexivity|].
  repeat split; reflexivity.
Qed.

(** C7. A socket close does not always cancel the keep-alive.  A second
    consumer mounts while the peer is closing the first socket; the second
    socket's open event overwrites the handle of the first keep-alive timer.
    The close event of the first socket then cancels the timer of the second
    socket, which is OPEN and left without a timer of its own; and after the
    second socket has closed too, the first timer is still pending and still
    fires, with every socket closed. *)
Theorem keep_alive_outlives_sockets :
  exists σ τ,
    run (fun text : string => text) "ping" mounted_during_close init = Some σ
    /\ sockets σ = [CLOSED; OPEN]
    /\ ws σ = Some 1%nat
    /\ pingInterval σ = None
    /\ timers σ !! 1%nat = Some (mkTimer Interval PING_INTERVAL PingTick false)
    /\ step (fun text : string => text) "ping" (SocketClosed 1) σ = Some τ
    /\ sockets τ = [CLOSED; CLOSED]
    /\ pingInterval τ = None
    /\ timers τ !! 0%nat = Some (mkTimer Interval PING_INTERVAL PingTick true)
    /\ step (fun text : string => text) "ping" (TimerFired 0 "t") τ = Some τ.
Proof.
  eexists. eexists.
  split; [vm_compute; reflexivity|].
  do 4 (split; [reflexivity|]).
  split; [vm_compute; reflexivity|].
  do 3 (split; [reflexivity|]).
  vm_compute. reflexivity.
Qed.

Lemma send_best_effort_witness :
  send (fun text : string => text) "chat" init = (false, init)
  /\ send (fun text : string => text) "chat" one_consumer_open
     = (true, set_wire [(0%nat, "chat")] one_consumer_open)
  /\ exists later,
       wire one_consumer_open = (wire init ++ later)%list
       /\ forall s, ~ In (s, "chat") later.
Proof.
  split; [|split].
  - apply (send_best_effort (fun text : string => text) "ping" "chat" init).
    left. reflexivity.
  - apply (send_best_effort (fun text : string => text) "ping" "chat" one_consumer_open);
      reflexivity.
  - destruct (send_best_effort (fun text : string => text) "ping" "chat" init)
      as (_ & _ & Hlater).
    apply (Hlater [Connect "r"; SocketOpened 0]).
    + reflexivity.
    + reflexivity.
    + discriminate.
    + intros d [H|[H|[]]]; discriminate.
Defined.

Lemma close_schedules_reconnect_witness :
  exists σ',
    step (fun text : string => text) "ping" (SocketClosed 0) one_consumer_open = Some σ'
    /\ timers σ' = [mkTimer Interval PING_INTERVAL PingTick false;
                    mkTimer Timeout 3000 Reconnect true]
    /\ reconnectTimeout σ' = Some 1%nat.
Proof.
  eexists. split; [reflexivity|].
  destruct (close_schedules_reconnect (fun text : string => text) "ping" 0
              one_consumer_open _ eq_refl) as (Hpos & _).
  destruct Hpos as (Ht & Hr & _); [reflexivity|].
  split; [exact Ht | exact Hr].
Defined.

Lemma reference_counted_witness :
  connect "x" one_consumer_open = two_consumers_open
  /\ disconnect two_consumers_open = one_consumer_open
  /\ ws (disconnect one_consumer_open) = None
  /\ exists n,
       run (fun text : string => text) "ping"
           [Connect "a"; Connect "b"; Disconnect; Disconnect; Connect "c"; Disconnect]
           one_consumer_open
       = Some (set_connectionCount n one_consumer_open).
Proof.
  destruct (reference_counted (fun text : string => text) "ping" one_consumer_open)
    as (_ & _ & Hlive & _ & Hdown & Hchurn).
  destruct (reference_counted (fun text : string => text) "ping" two_consumers_open)
    as (_ & _ & _ & Hkeep & _).
  split; [|split; [|split]].
  - apply Hlive. left. reflexivity.
  - apply Hkeep. reflexivity.
  - apply Hdown. discriminate.
  - apply Hchurn; [reflexivity | left; reflexivity].
Defined.

Lemma keep_alive_witness :
  (exists σ', step (fun text : string => text) "ping" (SocketOpened 0)
                   (connect "r" init) = Some σ'
              /\ pingInterval σ' = Some 0%nat)
  /\ (exists σ', step (fun text : string => text) "ping" (TimerFired 0 "t")
                      one_consumer_open = Some σ'
                 /\ wire σ' = [(0%nat, "ping")])
  /\ (exists σ', step (fun text : string => text) "ping" (SocketClosed 0)
                      one_consumer_open = Some σ'
                 /\ step (fun text : string => text) "ping" (TimerFired 0 "t") σ' = None)
  /\ (exists σ', step (fun text : string => text) "ping" (TimerFired 0 "t")
                      (set_sockets [CLOSING] one_consumer_open) = Some σ'
                 /\ wire σ' = []).
Proof.
  split; [|split; [|split]].
  - eexists. split; [reflexivity|].
    edestruct (keep_alive (fun text : string => text) "ping" (connect "r" init))
      as (Hopen & _).
    apply (Hopen 0%nat). reflexivity.
  - eexists. split; [reflexivity|].
    edestruct (keep_alive (fun text : string => text) "ping" one_consumer_open)
      as (_ & Htick & _).
    destruct (Htick 0%nat "t" _ eq_refl eq_refl eq_refl) as [(s & Hw & _ & E) | (Hn & _)].
    + injection Hw as <-. exact E.
    + exfalso. apply Hn. reflexivity.
  - eexists. split; [reflexivity|].
    edestruct (keep_alive (fun text : string => text) "ping" one_consumer_open)
      as (_ & _ & Hclose & _).
    destruct (Hclose 0%nat eq_refl) as [_ Hoff].
    apply Hoff; [reflexivity | eexists; reflexivity].
  - eexists. split; [reflexivity|].
    edestruct (keep_alive (fun text : string => text) "ping"
                 (set_sockets [CLOSING] one_consumer_open)) as (_ & _ & _ & Hquiet).
    apply (Hquiet (TimerFired 0 "t")); [reflexivity|].
    intros [|[|s]]; discriminate.
Defined.

Lemma count_never_negative_witness :
  (forall σ,
     run (fun text : string => text) "ping"
         [Connect "a"; Disconnect; Disconnect; Disconnect] init = Some σ ->
     0 <= connectionCount σ)
  /\ ws (connect "b" (disconnect one_consumer_open)) = Some 1%nat
  /\ sockets (connect "b" (disconnect one_consumer_open)) !! 1%nat = Some CONNECTING.
Proof.
  destruct (count_never_negative (fun text : string => text) "ping") as (Hrun & _ & Hnew).
  split; [|split].
  - intros σ. apply Hrun.
  - apply (Hnew one_consumer_open "b"). discriminate.
  - apply (Hnew one_consumer_open "b"). discriminate.
Defined.

End WebSocketManagerFacts.

(** ** The chat input *)

Module ChatInputFacts.
Import Types ChatInput.

Lemma trimStart_split (s : js_string) :
  exists pre, s = pre ++ trimStart s /\ forallb is_white_space pre = true.
Proof.
  induction s as [|c s IH]; simpl.
  - exists []. split; reflexivity.
  - destruct (is_white_space c) eqn:E.
    + destruct IH as (pre & Hs & Hp). exists (c :: pre). simpl. rewrite E, <- Hs. auto.
    + exists []. split; reflexivity.
Qed.

Lemma trimStart_head (s : js_string) (c : N) (r : js_string) :
  trimStart s = c :: r -> is_white_space c = false.
Proof.
  induction s as [|d s IH]; simpl; [discriminate|].
  destruct (is_white_space d) eqn:E; [exact IH|]. intros [= <- _]. exact E.
Qed.

Lemma trimEnd_split (s : js_string) :
  exists post, s = trimEnd s ++ post /\ forallb is_white_space post = true.
Proof.
  unfold trimEnd. destruct (trimStart_split (rev s)) as (pre & Hs & Hp).
  exists (rev pre). split.
  - rewrite <- rev_app_distr, <- Hs, rev_involutive. reflexivity.
  - rewrite forallb_forall in *. intros x Hx. apply Hp, in_rev, Hx.
Qed.

Lemma trimEnd_last (s r : js_string) (c : N) :
  trimEnd s = r ++ [c] -> is_white_space c = false.
Proof.
  unfold trimEnd. intros H. apply (f_equal (@rev N)) in H.
  rewrite rev_involutive, rev_app_distr in H. simpl in H.
  eapply trimStart_head, H.
Qed.

(** [trim] removes a run of white space at each end and nothing else; what
    is left neither starts nor ends with white space. *)
Lemma trim_spec (s : js_string) :
  exists pre post,
    s = pre ++ trim s ++ post
    /\ forallb is_white_space pre = true /\ forallb is_white_space post = true
    /\ (forall c r, trim s = c :: r -> is_white_space c = false)
    /\ (forall r c, trim s = r ++ [c] -> is_white_space c = false).
Proof.
  unfold trim.
  destruct (trimStart_split s) as (pre & Hs & Hpre).
  destruct (trimEnd_split (trimStart s)) as (post & Ht & Hpost).
  exists pre, post. split; [|split; [exact Hpre | split; [exact Hpost | split]]].
  - rewrite <- Ht. exact Hs.
  - intros c r E. rewrite E in Ht. simpl in Ht. eapply trimStart_head, Ht.
  - intros r c. apply trimEnd_last.
Qed.


(** C10. [handleSubmit] calls [onSendMessage] exactly when the trimmed text
    is non-empty or a file is attached, and the input is neither disabled nor
    streaming.  The call carries the trimmed text and one attachment per
    uploaded file, in order and with the file's fields; afterwards the text
    and the file list are empty.  In every other case nothing is sent and
    nothing changes. *)
Theorem handleSubmit_sends (p : props) (σ : state) :
  (may_send p σ ->
     handleSubmit p σ
     = (Some (trim (message σ), map to_attachment (files σ)),
        {| message := []; files := []; isUploading := isUploading σ |}))
  /\ (~ may_send p σ -> handleSubmit p σ = (None, σ))
  /\ (forall content attachments σ',
        handleSubmit p σ = (Some (content, attachments), σ') ->
        may_send p σ
        /\ content = trim (message σ)
        /\ length attachments = length (files σ)
        /\ (forall i f, files σ !! i = Some f ->
              exists a, attachments !! i = Some a
                /\ fa_id a = uf_id f /\ fa_name a = uf_name f /\ fa_type a = uf_type f
                /\ fa_url a = uf_url f /\ fa_mime_type a = uf_mime_type f)
        /\ message σ' = [] /\ files σ' = []).
Proof.
  unfold may_send, handleSubmit.
  destruct (trim (message σ)) as [|c r] eqn:Et, (files σ) as [|f fs] eqn:Ef,
    (disabled p), (isStreaming p); simpl.
  all: split; [intros [[H|H] [H1 H2]]; try discriminate; try congruence; reflexivity|].
  all: split; [intros H; try reflexivity; exfalso; apply H;
               (split; [first [left; discriminate | right; discriminate] | split; reflexivity])|].
  all: intros content attachments σ' E; try discriminate.
  all: injection E as <- <- <-.
  all: (split; [split; [first [left; discriminate | right; discriminate]
                       | split; reflexivity]|]).
  all: split; [reflexivity|]. all: split; [simpl; rewrite ?length_map; reflexivity|].
  all: split; [|split; reflexivity].
  all: intros i g Hg.
  all: exists (to_attachment g); split; [|repeat split; reflexivity].
  all: try (rewrite lookup_nil in Hg; discriminate).
  all: change (to_attachment f :: map to_attachment fs) with (to_attachment <$> (f :: fs)).
  all: rewrite list_lookup_fmap, Hg; reflexivity.
Qed.

Lemma handleSubmit_sends_witness :
  handleSubmit (mkProps false false)
    (mkState [0x20; 0x68; 0x69; 0xA0; 0xA]%N
             [mkUploadedFile "f1" "a.png" "image" "u" "image/png" None None] false)
  = (Some ([0x68; 0x69]%N, [mkFileAttachment "f1" "a.png" "image" "u" "image/png"]),
     mkState [] [] false)
  /\ handleSubmit (mkProps false true) (mkState [0x68]%N [] false)
     = (None, mkState [0x68]%N [] false)
  /\ handleSubmit (mkProps false false) (mkState [0x20; 0x9]%N [] false)
     = (None, mkState [0x20; 0x9]%N [] false).
Proof.
  split; [|split].
  - apply (handleSubmit_sends (mkProps false false)
             (mkState [0x20; 0x68; 0x69; 0xA0; 0xA]%N
                [mkUploadedFile "f1" "a.png" "image" "u" "image/png" None None] false)).
    split; [left; discriminate | split; reflexivity].
  - apply (handleSubmit_sends (mkProps false true) (mkState [0x68]%N [] false)).
    intros (_ & _ & H). discriminate.
  - apply (handleSubmit_sends (mkProps false false) (mkState [0x20; 0x9]%N [] false)).
    intros ([H|H] & _); apply H; reflexivity.
Defined.

End ChatInputFacts.

(** ** The upload filter *)

Module FileUploadFacts.
Import Types FileUpload.

Lemma includes_In (l : list string) (x : string) : includes l x = true <-> In x l.
Proof.
  unfold includes. rewrite existsb_exists. split.
  - intros (y & Hy & E). apply String.eqb_eq in E. subst. exact Hy.
  - intros H. exists x. split; [exact H | apply String.eqb_refl].
Qed.

Lemma uploads_app (es1 es2 : list effect) : uploads (es1 ++ es2) = uploads es1 ++ uploads es2.
Proof. apply flat_map_app. Qed.

Section Handler.

Variable files : list UploadedFile.
Variable onUpload : File -> option UploadedFile.
Variable createObjectURL : File -> string.
Variable fileInputRef_current : bool.

Local Abbreviation handle_one := (handle_one files onUpload createObjectURL).
Local Abbreviation handleFileSelect :=
  (handleFileSelect files onUpload createObjectURL fileInputRef_current).

(** A file that fails a check costs one alert and nothing else. *)
Lemma handle_one_rejected (f : File) :
  passes f = false ->
  handle_one f = [Alert (unsupported_message f)] /\ includes ACCEPTED_TYPES (file_type f) = false
  \/ handle_one f = [Alert (too_large_message f)] /\ (MAX_FILE_SIZE < file_size f)%N.
Proof.
  unfold passes, FileUpload.handle_one. intros H.
  destruct (includes ACCEPTED_TYPES (file_type f)); simpl in *; [right | left; auto].
  apply N.leb_gt in H. change 26214400%N with MAX_FILE_SIZE in H.
  rewrite (proj2 (N.ltb_lt _ _) H). auto.
Qed.

(** A file that passes both is uploaded, once. *)
Lemma handle_one_accepted (f : File) :
  passes f = true -> uploads (handle_one f) = [f].
Proof.
  unfold passes, FileUpload.handle_one. intros H.
  apply andb_prop in H. destruct H as [Ht Hs]. rewrite Ht. simpl.
  apply N.leb_le in Hs. change 26214400%N with MAX_FILE_SIZE in Hs.
  rewrite (proj2 (N.ltb_ge _ _) Hs).
  rewrite uploads_app. destruct (String.prefix _ _); simpl; destruct (onUpload f); reflexivity.
Qed.

Lemma uploads_flat_map (selected : list File) :
  uploads (flat_map handle_one selected) = List.filter passes selected.
Proof.
  induction selected as [|f fs IH]; simpl; [reflexivity|].
  rewrite uploads_app, IH. destruct (passes f) eqn:E.
  - rewrite handle_one_accepted by exact E. reflexivity.
  - destruct (handle_one_rejected f E) as [[-> _] | [-> _]]; reflexivity.
Qed.

(** C5. The allow-list and the limit are the stated ones.  A selected file
    whose type is not on the list, or whose size exceeds 26214400 bytes, gets
    exactly one alert naming it and no network call; the files uploaded are
    exactly the selected files that pass both checks, in order. *)
Theorem rejected_before_upload (selected : list File) :
  ACCEPTED_TYPES = ["image/jpeg"; "image/png"; "image/gif"; "image/webp"; "application/pdf"]%string
  /\ MAX_FILE_SIZE = 26214400%N
  /\ uploads (handleFileSelect selected) = List.filter passes selected
  /\ (forall f, In f selected ->
        ~ In (file_type f) ACCEPTED_TYPES \/ (file_size f > 26214400)%N ->
        ~ In (Upload f) (handleFileSelect selected)
        /\ (handle_one f = [Alert (unsupported_message f)]
            \/ handle_one f = [Alert (too_large_message f)])
        /\ exists text, In (Alert text) (handleFileSelect selected)
                        /\ handle_one f = [Alert text])
  /\ (forall f, In (Upload f) (handleFileSelect selected) ->
        In f selected /\ In (file_type f) ACCEPTED_TYPES /\ (file_size f <= 26214400)%N).
Proof.
  assert (Hup : uploads (handleFileSelect selected) = List.filter passes selected).
  { unfold FileUpload.handleFileSelect. rewrite uploads_app, uploads_flat_map.
    destruct fileInputRef_current; simpl; apply app_nil_r. }
  assert (Hin : forall f es, In (Upload f) es <-> In f (uploads es)).
  { intros f es. unfold uploads. rewrite in_flat_map. split.
    - intros H. exists (Upload f). split; [exact H | left; reflexivity].
    - intros (e & He & Hf). destruct e; simpl in Hf; try contradiction.
      destruct Hf as [<-|[]]. exact He. }
  assert (Hpass : forall f, passes f = true
                            <-> In (file_type f) ACCEPTED_TYPES /\ (file_size f <= 26214400)%N).
  { intros f. unfold passes. rewrite andb_true_iff, includes_In, N.leb_le. reflexivity. }
  split; [reflexivity|]. split; [reflexivity|]. split; [exact Hup|]. split.
  - intros f Hf Hbad.
    assert (E : passes f = false).
    { destruct (passes f) eqn:E; [|reflexivity]. apply Hpass in E.
      destruct E as [E1 E2]. destruct Hbad as [H|H]; [contradiction | lia]. }
    split; [|split].
    + rewrite Hin, Hup, filter_In. intros [_ H]. congruence.
    + destruct (handle_one_rejected f E) as [[-> _] | [-> _]]; auto.
    + assert (Hex : exists text, handle_one f = [Alert text]).
      { destruct (handle_one_rejected f E) as [[-> _] | [-> _]]; eauto. }
      destruct Hex as [text Ht]. exists text. split; [|exact Ht].
      unfold FileUpload.handleFileSelect. apply in_or_app. left.
      apply in_flat_map. exists f. split; [exact Hf|]. rewrite Ht. left. reflexivity.
  - intros f H. rewrite Hin, Hup, filter_In in H. destruct H as [H1 H2].
    apply Hpass in H2. tauto.
Qed.

End Handler.

Local Open Scope string_scope.

(** A selection of four files: a text file, an oversize PDF, a PDF of
    exactly 25 MB and a PNG whose upload fails. *)
Example four_files :
  handleFileSelect [] (fun f => if String.eqb (file_name f) "c.pdf"
                               then Some (mkUploadedFile "1" "c.pdf" "pdf" "u" "application/pdf"
                                                         None None)
                               else None)
                   (fun f => "blob:" ++ file_name f) true
    [mkFile "a.txt" "text/plain" 10; mkFile "b.pdf" "application/pdf" 26214401;
     mkFile "c.pdf" "application/pdf" 26214400; mkFile "d.png" "image/png" 5]
  = [Alert "File type not supported: a.txt. Please upload images (JPEG, PNG, GIF, WebP) or PDFs.";
     Alert "File too large: b.pdf. Maximum size is 25MB.";
     Upload (mkFile "c.pdf" "application/pdf" 26214400);
     FilesChange [mkUploadedFile "1" "c.pdf" "pdf" "u" "application/pdf" None None];
     CreateObjectURL (mkFile "d.png" "image/png" 5);
     Upload (mkFile "d.png" "image/png" 5);
     ConsoleError;
     Alert "Failed to upload d.png";
     ResetInput].
Proof. vm_compute. reflexivity. Qed.

Lemma rejected_before_upload_witness :
  ~ In (Upload (mkFile "a.txt" "text/plain" 10))
       (handleFileSelect [] (fun _ => None) (fun f => "blob:" ++ file_name f) true
                         sample_selection)
  /\ ~ In (Upload (mkFile "b.pdf" "application/pdf" 26214401))
          (handleFileSelect [] (fun _ => None) (fun f => "blob:" ++ file_name f) true
                            sample_selection)
  /\ uploads (handleFileSelect [] (fun _ => None) (fun f => "blob:" ++ file_name f) true
                               sample_selection)
     = [mkFile "c.pdf" "application/pdf" 26214400].
Proof.
  destruct (rejected_before_upload [] (fun _ => None) (fun f => "blob:" ++ file_name f) true
              sample_selection) as (_ & _ & Hup & Hrej & _).
  split; [|split].
  - apply (Hrej (mkFile "a.txt" "text/plain" 10)); [left; reflexivity|].
    left. intros [H|[H|[H|[H|[H|[]]]]]]; discriminate.
  - apply (Hrej (mkFile "b.pdf" "application/pdf" 26214401)); [right; left; reflexivity|].
    right. reflexivity.
  - rewrite Hup. reflexivity.
Defined.

End FileUploadFacts.

(** ** The schema: defaults and cascades *)

Module SchemaFacts.
Import Schema.
Local Open Scope string_scope.

(** A value that fits its column is stored as it is, and whatever is
    stored fits. *)
Lemma varchar_fits (n : nat) (s : string) :
  (String.length s <= n)%nat -> varchar n s = Some s.
Proof.
  intros H. unfold varchar, fits. rewrite (proj2 (Nat.leb_le _ _) H). reflexivity.
Qed.

Lemma length_substring_le (n : nat) (s : string) :
  (String.length (substring 0 n s) <= n)%nat.
Proof.
  revert s. induction n as [|n IH]; intros [|c s]; simpl; try lia.
  specialize (IH s). lia.
Qed.

Lemma varchar_length (n : nat) (s t : string) :
  varchar n s = Some t -> (String.length t <= n)%nat.
Proof.
  unfold varchar, fits. destruct (Nat.leb_spec (String.length s) n) as [H|H].
  - intros [= <-]. exact H.
  - destruct (all_spaces _); [|discriminate]. intros [= <-]. apply length_substring_le.
Qed.

Example varchar_cuts_spaces :
  varchar 3 "ab" = Some "ab" /\ varchar 3 "abc   " = Some "abc" /\ varchar 3 "abc d" = None.
Proof. repeat split. Qed.

Lemma existsb_ext {A : Type} (f g : A -> bool) (l : list A) :
  (forall x, f x = g x) -> existsb f l = existsb g l.
Proof.
  intros H. induction l as [|x l IH]; simpl; [reflexivity|]. rewrite H, IH. reflexivity.
Qed.

Lemma existsb_filter {A : Type} (f g : A -> bool) (l : list A) :
  existsb f (List.filter g l) = existsb (fun x => f x && g x) l.
Proof.
  induction l as [|x l IH]; simpl; [reflexivity|].
  destruct (g x); simpl; rewrite IH.
  - rewrite andb_true_r. reflexivity.
  - rewrite andb_false_r. reflexivity.
Qed.

Lemma filter_filter {A : Type} (f g : A -> bool) (l : list A) :
  List.filter g (List.filter f l) = List.filter (fun x => f x && g x) l.
Proof.
  induction l as [|x l IH]; simpl; [reflexivity|].
  destruct (f x); simpl; [destruct (g x); rewrite IH; reflexivity | exact IH].
Qed.

(** Among the rows named [id], the ones named [x]: some exist exactly when
    [x] is [id] and a row named [id] exists. *)
Lemma doomed_parent (id x : string) (cs : list conversation) :
  existsb (fun c => String.eqb (c_id c) x)
          (List.filter (fun c => String.eqb (c_id c) id) cs)
  = String.eqb x id && existsb (fun c => String.eqb (c_id c) id) cs.
Proof.
  rewrite existsb_filter. destruct (String.eqb_spec x id) as [->|Hne]; simpl.
  - apply existsb_ext. intros c. apply andb_diag.
  - induction cs as [|c cs IH]; simpl; [reflexivity|]. rewrite IH, orb_false_r.
    destruct (String.eqb_spec (c_id c) x) as [E|E]; [|reflexivity].
    destruct (String.eqb_spec (c_id c) id) as [E'|E']; [congruence | reflexivity].
Qed.

(** The whole effect of the cascade, table by table. *)
Lemma delete_conversation_tables (id : string) (db : database) :
  has_conversation id db = true ->
  conversations (delete_conversation id db)
  = List.filter (fun c => negb (String.eqb (c_id c) id)) (conversations db)
  /\ messages (delete_conversation id db)
     = List.filter (fun m => negb (owned_message id m)) (messages db)
  /\ attachments (delete_conversation id db)
     = List.filter (fun a => negb (owned_attachment id db a)) (attachments db).
Proof.
  intros Hex. unfold has_conversation in Hex.
  unfold delete_conversation, delete_conversations, delete_messages, delete_attachments.
  simpl. split; [reflexivity|]. split.
  - apply filter_ext. intros m. rewrite doomed_parent, Hex, andb_true_r. reflexivity.
  - rewrite filter_filter. apply filter_ext. intros a.
    unfold owned_attachment. rewrite doomed_parent, Hex, andb_true_r.
    rewrite existsb_filter, orb_comm, negb_orb. f_equal. f_equal.
    apply existsb_ext. intros m. rewrite doomed_parent, Hex, andb_true_r. reflexivity.
Qed.

(** The cascade leaves no dangling reference behind. *)
Lemma delete_conversation_references (id : string) (db : database) :
  has_conversation id db = true ->
  references_ok db -> references_ok (delete_conversation id db).
Proof.
  intros Hex [Hm Ha].
  destruct (delete_conversation_tables id db Hex) as (Ec & Em & Eat).
  assert (Hconv : forall x, x <> id -> has_conversation x db = true ->
                            has_conversation x (delete_conversation id db) = true).
  { intros x Hx H. unfold has_conversation in *. rewrite Ec, existsb_filter.
    rewrite existsb_exists in *. destruct H as (c & Hc & E). exists c. split; [exact Hc|].
    rewrite E. simpl. apply String.eqb_eq in E. rewrite E.
    destruct (String.eqb_spec x id); [contradiction | reflexivity]. }
  split.
  - intros m Hin. rewrite Em, filter_In in Hin. destruct Hin as [Hin Hown].
    apply Hconv; [|apply Hm, Hin].
    unfold owned_message in Hown. destruct (String.eqb_spec (m_conversation_id m) id);
      [discriminate | assumption].
  - intros a Hin. rewrite Eat, filter_In in Hin. destruct Hin as [Hin Hown].
    unfold owned_attachment in Hown. rewrite negb_orb, andb_true_iff in Hown.
    destruct Hown as [Hc Hmsg]. destruct (Ha a Hin) as [Hhm Hhc]. split.
    + unfold has_message in *. rewrite Em, existsb_filter.
      rewrite existsb_exists in Hhm. destruct Hhm as (m & Hmin & E).
      rewrite existsb_exists. exists m. split; [exact Hmin|]. rewrite E. simpl.
      destruct (owned_message id m) eqn:Eo; [|reflexivity].
      exfalso. rewrite negb_true_iff in Hmsg.
      assert (Ht : existsb (fun m => String.eqb (m_id m) (a_message_id a) && owned_message id m)
                           (messages db) = true).
      { apply existsb_exists. exists m. rewrite E, Eo. auto. }
      congruence.
    + apply Hconv; [|exact Hhc].
      destruct (String.eqb_spec (a_conversation_id a) id); [discriminate | assumption].
Qed.

(** C4. Deleting a conversation removes every message whose
    [conversation_id] is that conversation and every attachment whose
    [conversation_id] is that conversation or whose [message_id] is one of
    those messages; no row that is left references the deleted conversation,
    and no other row is removed. *)
Theorem delete_conversation_cascades (id : string) (db : database) :
  has_conversation id db = true ->
  has_conversation id (delete_conversation id db) = false
  /\ (forall m, In m (messages (delete_conversation id db)) -> m_conversation_id m <> id)
  /\ (forall a, In a (attachments (delete_conversation id db)) ->
        a_conversation_id a <> id
        /\ forall m, In m (messages db) -> m_id m = a_message_id a ->
                     m_conversation_id m <> id)
  /\ (forall m, In m (messages db) -> m_conversation_id m <> id ->
        In m (messages (delete_conversation id db)))
  /\ (forall a, In a (attachments db) -> owned_attachment id db a = false ->
        In a (attachments (delete_conversation id db)))
  /\ (forall c, In c (conversations db) -> c_id c <> id ->
        In c (conversations (delete_conversation id db))).
Proof.
  intros Hex. destruct (delete_conversation_tables id db Hex) as (Ec & Em & Eat).
  split; [|split; [|split; [|split; [|split]]]].
  - unfold has_conversation. rewrite Ec, existsb_filter.
    apply not_true_is_false. rewrite existsb_exists. intros (c & _ & H).
    destruct (String.eqb (c_id c) id); discriminate.
  - intros m Hin. rewrite Em, filter_In in Hin. destruct Hin as [_ H].
    unfold owned_message in H. destruct (String.eqb_spec (m_conversation_id m) id);
      [discriminate | assumption].
  - intros a Hin. rewrite Eat, filter_In in Hin. destruct Hin as [_ H].
    unfold owned_attachment in H. rewrite negb_orb, andb_true_iff in H.
    destruct H as [Hc Hm]. split.
    + destruct (String.eqb_spec (a_conversation_id a) id); [discriminate | assumption].
    + intros m Hmin Eid Hconv. rewrite negb_true_iff in Hm.
      assert (Ht : existsb (fun m => String.eqb (m_id m) (a_message_id a) && owned_message id m)
                           (messages db) = true).
      { apply existsb_exists. exists m. split; [exact Hmin|]. unfold owned_message.
        rewrite Eid, Hconv, !String.eqb_refl. reflexivity. }
      congruence.
  - intros m Hin Hne. rewrite Em, filter_In. split; [exact Hin|].
    unfold owned_message. destruct (String.eqb_spec (m_conversation_id m) id);
      [contradiction | reflexivity].
  - intros a Hin Hown. rewrite Eat, filter_In, Hown. auto.
  - intros c Hin Hne. rewrite Ec, filter_In. split; [exact Hin|].
    destruct (String.eqb_spec (c_id c) id); [contradiction | reflexivity].
Qed.

Example delete_first_conversation :
  delete_conversation "c1" sample
  = {| conversations := [mkConversation "c2" "Second" 20 20];
       messages := [mkMessage "m2" "c2" "user" "hi" 21];
       attachments := [mkAttachment "a2" "m2" "c2" "y.pdf" "pdf" "u2" "application/pdf" 22] |}.
Proof. vm_compute. reflexivity. Qed.

Lemma delete_conversation_cascades_witness :
  has_conversation "c1" (delete_conversation "c1" sample) = false
  /\ In (mkMessage "m2" "c2" "user" "hi" 21) (messages (delete_conversation "c1" sample))
  /\ (forall a, In a (attachments (delete_conversation "c1" sample)) ->
        a_conversation_id a <> "c1").
Proof.
  destruct (delete_conversation_cascades "c1" sample eq_refl)
    as (Hgone & _ & Hatt & Hkeep & _).
  split; [exact Hgone|]. split.
  - apply Hkeep; [right; left; reflexivity | discriminate].
  - intros a Ha. apply (Hatt a Ha).
Defined.

(** C8. A conversation row inserted without a title carries the title
    'New Conversation', and so does the row the client's [createConversation]
    asks for when it is called without a title.  The title can be
    overwritten, in the table and in the client's list (by a rename or by a
    title-updated event); identifiers and creation timestamps stay as they
    were. *)
Theorem default_title_then_mutable :
  (forall uuid now db,
     has_conversation uuid db = false ->
     exists db',
       insert_conversation uuid now None db
       = Some (mkConversation uuid "New Conversation" now now, db')
       /\ insert_conversation uuid now (Api.body_title (Api.createConversation None)) db
          = Some (mkConversation uuid "New Conversation" now now, db')
       /\ In (mkConversation uuid "New Conversation" now now) (conversations db'))
  /\ (forall id title db,
        (String.length title <= 255)%nat ->
        exists db',
          update_title id title db = Some db'
          /\ map c_id (conversations db') = map c_id (conversations db)
          /\ map c_created_at (conversations db') = map c_created_at (conversations db)
          /\ (forall c, In c (conversations db') -> c_id c = id -> c_title c = title))
  /\ (forall id title cs,
        map Types.conv_id (Chat.retitle id title cs) = map Types.conv_id cs
        /\ map Types.conv_created_at (Chat.retitle id title cs)
           = map Types.conv_created_at cs
        /\ (forall c, In c (Chat.retitle id title cs) ->
              Types.conv_id c = id -> Types.conv_title c = title))
  /\ (forall id title c,
        Chat.conversations (Chat.handleRenameConversation true id title c)
        = Chat.retitle id title (Chat.conversations c))
  /\ (forall now id title b c,
        Chat.handleMessage (Chat.chat_options now) (Types.title_updated id title) (b, c)
        = (b, Chat.set_conversations (Chat.retitle id title (Chat.conversations c)) c)).
Proof.
  split; [|split; [|split; [|split]]].
  - intros uuid now db Hfresh. eexists. unfold insert_conversation. simpl.
    rewrite Hfresh. simpl. split; [reflexivity|]. split; [reflexivity|].
    apply in_or_app. right. left. reflexivity.
  - intros id title db Hlen. eexists. unfold update_title.
    rewrite (varchar_fits _ _ Hlen). split; [reflexivity|].
    simpl. rewrite !map_map. split; [|split].
    + apply map_ext. intros c. destruct (String.eqb (c_id c) id); reflexivity.
    + apply map_ext. intros c. destruct (String.eqb (c_id c) id); reflexivity.
    + intros c Hin Hid. apply in_map_iff in Hin. destruct Hin as (c0 & <- & _).
      destruct (String.eqb_spec (c_id c0) id) as [E|E]; [reflexivity|].
      contradiction.
  - intros id title cs. unfold Chat.retitle. rewrite !map_map. split; [|split].
    + apply map_ext. intros c. destruct (String.eqb (Types.conv_id c) id); reflexivity.
    + apply map_ext. intros c. destruct (String.eqb (Types.conv_id c) id); reflexivity.
    + intros c Hin Hid. apply in_map_iff in Hin. destruct Hin as (c0 & <- & _).
      destruct (String.eqb_spec (Types.conv_id c0) id) as [E|E]; [reflexivity|].
      contradiction.
  - reflexivity.
  - reflexivity.
Qed.

Lemma default_title_then_mutable_witness :
  (exists db',
     insert_conversation "c3" 30 None sample
     = Some (mkConversation "c3" "New Conversation" 30 30, db'))
  /\ (exists db',
        update_title "c1" "Quarterly report" sample = Some db'
        /\ map c_id (conversations db') = ["c1"; "c2"]
        /\ map c_created_at (conversations db') = [10; 20]%Z).
Proof.
  destruct default_title_then_mutable as (Hins & Hupd & _).
  split.
  - destruct (Hins "c3" 30%Z sample eq_refl) as (db' & E & _). exists db'. exact E.
  - destruct (Hupd "c1" "Quarterly report" sample) as (db' & E & Hid & Hat & _).
    + simpl. lia.
    + exists db'. split; [exact E|]. split; [exact Hid | exact Hat].
Defined.

Example rename_first_conversation :
  update_title "c1" "Quarterly report" sample
  = Some {| conversations := [mkConversation "c1" "Quarterly report" 10 10;
                              mkConversation "c2" "Second" 20 20];
            messages := messages sample; attachments := attachments sample |}.
Proof. vm_compute. reflexivity. Qed.

End SchemaFacts.

(** ** A chat turn, from the server's relay to the client's handlers *)

Module TurnFacts.
Import Types Schema Server.
Local Open Scope string_scope.
Local Open Scope list_scope.

Lemma append_assoc (a b c : string) :
  String.append (String.append a b) c = String.append a (String.append b c).
Proof. induction a as [|x a IH]; simpl; [reflexivity | rewrite IH; reflexivity]. Qed.

Lemma append_empty_r (a : string) : String.append a EmptyString = a.
Proof. induction a as [|x a IH]; simpl; [reflexivity | rewrite IH; reflexivity]. Qed.

Lemma stream_events_app (l1 l2 : list WebSocketMessage) :
  stream_events (l1 ++ l2) = stream_events l1 ++ stream_events l2.
Proof. apply List.filter_app. Qed.

Lemma stream_events_chunks (tokens : list string) :
  stream_events (map stream_chunk tokens) = map stream_chunk tokens.
Proof.
  induction tokens as [|x l IH]; [reflexivity|].
  unfold stream_events in *. simpl. rewrite IH. reflexivity.
Qed.

Lemma receive_app (now : string) (l1 l2 : list WebSocketMessage) (st : bool * Chat.state) :
  Chat.receive now (l1 ++ l2) st = Chat.receive now l2 (Chat.receive now l1 st).
Proof. apply fold_left_app. Qed.

(** The client appends every chunk to the text it is showing. *)
Lemma receive_chunks (now : string) (tokens : list string) (b : bool) (c : Chat.state) :
  Chat.receive now (map stream_chunk tokens) (b, c)
  = (b, Chat.set_streamingContent
          (String.append (Chat.streamingContent c) (assemble tokens)) c).
Proof.
  revert c. induction tokens as [|x l IH]; intros c.
  - simpl. rewrite append_empty_r. destruct c; reflexivity.
  - change (Chat.receive now (map stream_chunk (x :: l)) (b, c))
      with (Chat.receive now (map stream_chunk l)
              (b, Chat.set_streamingContent (String.append (Chat.streamingContent c) x) c)).
    rewrite IH. simpl. rewrite append_assoc. reflexivity.
Qed.

Lemma has_message_app (id : string) (db : database) (row : message) :
  has_message id (mkDatabase (conversations db) (messages db ++ [row])
                             (Schema.attachments db))
  = has_message id db || String.eqb (m_id row) id.
Proof.
  unfold has_message. simpl. rewrite existsb_app. simpl. rewrite orb_false_r. reflexivity.
Qed.

(** The frames and the database of a turn whose model call completes. *)
Lemma completed_turn_frames (t : turn) (req : chat_request) (db : database)
    (first : string) (rest : list string) :
  outcome t = Completed first rest ->
  has_conversation (conversation_id req) db = true ->
  has_message (user_uuid t) db = false ->
  has_message (assistant_uuid t) db = false ->
  user_uuid t <> assistant_uuid t ->
  exists tail,
    fst (handle_chat t req db)
    = [message_saved (user_uuid t) "user" (content req); stream_start]
      ++ map stream_chunk (first :: rest)
      ++ [stream_end (assistant_uuid t) (assemble (first :: rest))] ++ tail
    /\ (tail = [] \/ tail = [title_updated (conversation_id req) (summary t)])
    /\ messages (snd (handle_chat t req db))
       = messages db
         ++ [Schema.mkMessage (user_uuid t) (conversation_id req) "user" (content req) (now t);
             Schema.mkMessage (assistant_uuid t) (conversation_id req) "assistant"
                       (assemble (first :: rest)) (now t)].
Proof.
  intros Ho Hc Hu Ha Hne. unfold handle_chat, insert_message. rewrite Hu, Hc. simpl.
  rewrite Ho. rewrite has_message_app, Ha. simpl.
  destruct (String.eqb_spec (user_uuid t) (assistant_uuid t)) as [E|_]; [contradiction|].
  unfold has_conversation in *. simpl. rewrite Hc. simpl.
  destruct (negb _).
  - unfold update_title. destruct (varchar 255 (summary t)); simpl.
    + exists [title_updated (conversation_id req) (summary t)].
      rewrite <- app_assoc. simpl. auto.
    + exists []. rewrite <- app_assoc. simpl. auto.
  - exists []. rewrite <- app_assoc. simpl. auto.
Qed.

(** C1, for a model call that completes.  For a chat request on an
    existing conversation, the frames contain, in order, exactly one
    stream-start, one chunk per token (at least one) and one stream-end; the
    chunks' concatenation is the stream-end's content and the content of the
    persisted assistant message.  On the client the text shown just before
    the stream-end is that concatenation, and the message appended at the
    stream-end carries it. *)
Theorem completed_turn_streams (t : turn) (req : chat_request) (db : database)
    (first : string) (rest : list string) :
  outcome t = Completed first rest ->
  has_conversation (conversation_id req) db = true ->
  has_message (user_uuid t) db = false ->
  has_message (assistant_uuid t) db = false ->
  user_uuid t <> assistant_uuid t ->
  streamed (fst (handle_chat t req db)) (snd (handle_chat t req db))
  /\ stream_events (fst (handle_chat t req db))
     = stream_start :: map stream_chunk (first :: rest)
       ++ [stream_end (assistant_uuid t) (assemble (first :: rest))]
  /\ (forall clock b c,
        exists before after,
          fst (handle_chat t req db)
          = before ++ stream_end (assistant_uuid t) (assemble (first :: rest)) :: after
          /\ Chat.streamingContent (snd (Chat.receive clock before (b, c)))
             = assemble (first :: rest)
          /\ fst (Chat.receive clock (fst (handle_chat t req db)) (b, c)) = false
          /\ Chat.messages (snd (Chat.receive clock (fst (handle_chat t req db)) (b, c)))
             = Chat.messages c
               ++ [Types.mkMessage (assistant_uuid t) (Chat.currentConversationId c) "assistant"
                             (assemble (first :: rest)) [] clock]).
Proof.
  intros Ho Hc Hu Ha Hne.
  destruct (completed_turn_frames t req db first rest Ho Hc Hu Ha Hne)
    as (tail & Hf & Htail & Hm).
  assert (Hev : stream_events (fst (handle_chat t req db))
                = stream_start :: map stream_chunk (first :: rest)
                  ++ [stream_end (assistant_uuid t) (assemble (first :: rest))]).
  { rewrite Hf. rewrite !stream_events_app, stream_events_chunks.
    destruct Htail as [-> | ->]; simpl; rewrite ?app_nil_r; reflexivity. }
  split; [|split; [exact Hev|]].
  - exists (first :: rest), (assistant_uuid t).
    split; [discriminate|]. split; [exact Hev|].
    exists (Schema.mkMessage (assistant_uuid t) (conversation_id req) "assistant"
                      (assemble (first :: rest)) (now t)).
    split; [|repeat split; reflexivity].
    rewrite Hm. apply in_or_app. right. right. left. reflexivity.
  - intros clock b c.
    exists ([message_saved (user_uuid t) "user" (content req); stream_start]
            ++ map stream_chunk (first :: rest)), tail.
    split; [rewrite Hf, <- !app_assoc; reflexivity|].
    assert (Hbefore :
      Chat.receive clock
        ([message_saved (user_uuid t) "user" (content req); stream_start]
         ++ map stream_chunk (first :: rest)) (b, c)
      = (true, Chat.set_streamingContent (assemble (first :: rest)) c)).
    { rewrite receive_app.
      change (Chat.receive clock [message_saved (user_uuid t) "user" (content req);
                                  stream_start] (b, c))
        with (true, Chat.set_streamingContent EmptyString c).
      rewrite receive_chunks. reflexivity. }
    split; [rewrite Hbefore; reflexivity|].
    rewrite Hf, !app_assoc, receive_app, receive_app, Hbefore.
    destruct Htail as [-> | ->]; split; reflexivity.
Qed.

(** A turn whose model call fails carries no stream-end, whatever was
    streamed before the failure, and persists nothing but the user message. *)
Lemma failed_turn_has_no_end (t : turn) (req : chat_request) (db : database)
    (emitted : list string) (reason : string) :
  outcome t = Failed emitted reason ->
  (forall id text, ~ In (stream_end id text) (fst (handle_chat t req db)))
  /\ (forall m, In m (messages (snd (handle_chat t req db))) ->
        In m (messages db) \/ m_role m = "user").
Proof.
  intros Ho. unfold handle_chat. rewrite Ho.
  destruct (insert_message _ _ _ _ _ db) as [[saved db1]|] eqn:Ei; simpl.
  - split.
    + intros id text [H|[H|H]]; try discriminate.
      apply in_app_or in H. destruct H as [H|[H|[]]]; [|discriminate].
      apply in_map_iff in H. destruct H as (x & H & _). discriminate.
    + intros m Hin. unfold insert_message in Ei.
      destruct (has_message _ db); [discriminate|].
      destruct (negb (has_conversation _ db)); [discriminate|].
      destruct (negb _); [discriminate|].
      injection Ei as <- <-. simpl in Hin. apply in_app_or in Hin.
      destruct Hin as [H|[<-|[]]]; [left; exact H | right; reflexivity].
  - split; [intros id text [H|[]]; discriminate | auto].
Qed.

Example completed_turn_frames_example :
  fst (handle_chat completed_turn sample_request sample)
  = [message_saved "m3" "user" "What is in the picture?"; stream_start;
     stream_chunk "A "; stream_chunk "red "; stream_chunk "bicycle.";
     stream_end "m4" "A red bicycle."].
Proof. vm_compute. reflexivity. Qed.

Example failed_turn_frames_example :
  handle_chat failed_turn sample_request sample
  = ([message_saved "m3" "user" "What is in the picture?"; stream_start;
      stream_chunk "A "; error "model unavailable"],
     mkDatabase (conversations sample)
                (messages sample ++ [Schema.mkMessage "m3" "c1" "user" "What is in the picture?" 30])
                (Schema.attachments sample)).
Proof. vm_compute. reflexivity. Qed.

Lemma completed_turn_streams_witness :
  streamed (fst (handle_chat completed_turn sample_request sample))
           (snd (handle_chat completed_turn sample_request sample))
  /\ stream_events (fst (handle_chat completed_turn sample_request sample))
     = [stream_start; stream_chunk "A "; stream_chunk "red "; stream_chunk "bicycle.";
        stream_end "m4" "A red bicycle."].
Proof.
  destruct (completed_turn_streams completed_turn sample_request sample "A "
              ["red "; "bicycle."]) as (Hs & Hev & _).
  - reflexivity.
  - reflexivity.
  - reflexivity.
  - reflexivity.
  - discriminate.
  - split; [exact Hs | exact Hev].
Defined.

(** C1 as stated fails when the model call fails: the request is on an
    existing conversation, yet the frames carry no stream-end and no
    assistant message is persisted. *)
Lemma failed_turn_not_streamed :
  has_conversation (conversation_id sample_request) sample = true
  /\ ~ streamed (fst (handle_chat failed_turn sample_request sample))
                (snd (handle_chat failed_turn sample_request sample)).
Proof.
  split; [reflexivity|].
  rewrite failed_turn_frames_example. simpl fst. simpl snd.
  intros (chunks & id & Hne & Hev & _).
  change (stream_events [message_saved "m3" "user" "What is in the picture?"; stream_start;
                         stream_chunk "A "; error "model unavailable"])
    with [stream_start; stream_chunk "A "] in Hev.
  destruct chunks as [|x [|y chunks]]; [congruence | discriminate | discriminate].
Qed.

End TurnFacts.

(** ** The connection manager: one connection, counted consumers *)

Module ConnectionFacts.
Import WebSocketManager Hook.

Lemma settled_init : settled init.
Proof.
  split.
  - intros s st H. simpl in H. rewrite lookup_nil in H. discriminate.
  - repeat split; intros ? H; discriminate.
Qed.

(** Changing cells that are neither sockets, timers nor references. *)
Lemma settled_same (σ τ : state) :
  ws τ = ws σ -> sockets τ = sockets σ ->
  pingInterval τ = pingInterval σ -> reconnectTimeout τ = reconnectTimeout σ ->
  length (timers τ) = length (timers σ) ->
  settled σ -> settled τ.
Proof.
  intros Hw Hs Hp Hr Hl [Ho (Hv1 & Hv2 & Hv3)]. split.
  - intros s st. rewrite Hs, Hw. apply Ho.
  - unfold handles_valid. rewrite Hw, Hs, Hp, Hr, Hl. auto.
Qed.

Lemma settled_clear_timer (h : nat) (σ : state) : settled σ -> settled (clear_timer h σ).
Proof.
  apply settled_same; try reflexivity. simpl. apply length_alter.
Qed.

Lemma settled_connect (rnd : string) (σ : state) : settled σ -> settled (connect rnd σ).
Proof.
  intros Hs. destruct Hs as [Ho (Hv1 & Hv2 & Hv3)].
  unfold connect.
  assert (E : ws_readyState (set_connectionCount (connectionCount σ + 1) σ)
              = ws_readyState σ) by reflexivity.
  rewrite E. clear E.
  destruct (bool_decide (ws_readyState σ = Some OPEN)
            || bool_decide (ws_readyState σ = Some CONNECTING)) eqn:Elive.
  - split; [exact Ho | repeat split; assumption].
  - apply orb_false_elim in Elive. destruct Elive as [E1 E2].
    apply bool_decide_eq_false in E1. apply bool_decide_eq_false in E2.
    assert (Hold : forall s st, sockets σ !! s = Some st -> st = CLOSING \/ st = CLOSED).
    { intros s st Hl. destruct (decide (ws σ = Some s)) as [Hw|Hw]; [|eauto].
      unfold ws_readyState in E1, E2. rewrite Hw in E1, E2. simpl in E1, E2.
      rewrite Hl in E1, E2. destruct st; auto; congruence. }
    destruct σ as [w cid pi rt n nf ss ts wr]. simpl in *.
    destruct rt as [r|]; simpl; (split; [|repeat split]); simpl.
    all: try (intros s st Hl Hne; simpl in Hl, Hne; apply lookup_app_Some in Hl;
              destruct Hl as [Hl | [Hge Hl]]; [eapply Hold; exact Hl|];
              exfalso; apply Hne; f_equal;
              destruct (s - length ss)%nat eqn:Ed; simpl in Hl;
              [lia | rewrite lookup_nil in Hl; discriminate]).
    all: try (intros s [= <-]; rewrite length_app; simpl; lia).
    all: try (intros h Hh; rewrite ?length_alter; apply Hv2; exact Hh).
    all: try (intros h Hh; discriminate).
Qed.

Lemma settled_insert_out (s : nat) (st : readyState) (σ : state) :
  st = CLOSING \/ st = CLOSED ->
  settled σ -> settled (set_sockets (<[s := st]> (sockets σ)) σ).
Proof.
  intros Hst [Ho (Hv1 & Hv2 & Hv3)]. split.
  - intros s' st' Hl Hne. simpl in *. apply list_lookup_insert_Some in Hl.
    destruct Hl as [(<- & <- & _) | (_ & Hl)]; [exact Hst | eapply Ho; eassumption].
  - repeat split; simpl; try assumption.
    intros s' Hw. rewrite length_insert. auto.
Qed.

Lemma settled_cleanup (σ : state) : settled σ -> settled (cleanup σ).
Proof.
  intros [Ho (Hv1 & Hv2 & Hv3)].
  destruct (WebSocketManagerFacts.cleanup_fields σ) as (Hw & Hs & _ & _ & Hr & Hp & Hl).
  split.
  - intros s st. rewrite Hs, Hw. apply Ho.
  - unfold handles_valid. rewrite Hw, Hs, Hr, Hp, Hl.
    repeat split; try assumption. intros h H. discriminate.
Qed.

Lemma settled_disconnect (σ : state) : settled σ -> settled (disconnect σ).
Proof.
  intros Hs. unfold disconnect.
  set (σ1 := set_connectionCount (connectionCount σ - 1) σ).
  assert (H1 : settled σ1) by (revert Hs; apply settled_same; reflexivity).
  clearbody σ1. case_bool_decide; [|exact H1].
  set (σ2 := cleanup (set_connectionCount 0 σ1)).
  assert (H2 : settled σ2).
  { apply settled_cleanup. revert H1. apply settled_same; reflexivity. }
  clearbody σ2.
  set (σ3 := match reconnectTimeout σ2 with
             | Some h => set_reconnectTimeout None (clearTimeout h σ2)
             | None => σ2
             end).
  assert (H3 : settled σ3).
  { subst σ3. destruct (reconnectTimeout σ2) as [h|] eqn:Er; [|exact H2].
    destruct H2 as [Ho (Hv1 & Hv2 & Hv3)]. split; [exact Ho|].
    repeat split; simpl; try assumption.
    - intros h' Hh. rewrite length_alter. auto.
    - intros h' Hh. discriminate. }
  clearbody σ3. destruct (ws σ3) as [s|] eqn:Ew; [|exact H3].
  destruct H3 as [Ho (Hv1 & Hv2 & Hv3)].
  unfold socket_close. destruct (sockets σ3 !! s) as [st|] eqn:Es.
  - assert (Hall : forall s' st', sockets σ3 !! s' = Some st' -> s' <> s ->
                                  st' = CLOSING \/ st' = CLOSED).
    { intros s' st' Hl Hne. eapply Ho; [exact Hl | congruence]. }
    destruct st; (split; [|repeat split]); simpl; rewrite ?length_insert;
      try assumption; try (intros ? ?; discriminate).
    all: intros s' st' Hl _; simpl in Hl.
    all: try (apply list_lookup_insert_Some in Hl;
              destruct Hl as [(<- & <- & _) | (Hne & Hl)]; [auto | eapply Hall; eauto]).
    all: destruct (decide (s' = s)) as [->|Hne]; [rewrite Es in Hl; injection Hl as <-; auto
                                                 | eapply Hall; eauto].
  - split; [|repeat split]; simpl; try assumption; try (intros ? ?; discriminate).
    intros s' st' Hl _. simpl in Hl.
    destruct (decide (s' = s)) as [->|Hne]; [congruence|].
    eapply Ho; [exact Hl | congruence].
Qed.

Section Payloads.

Context {object : Type}.
Variable JSON_stringify : object -> string.
Variable ping_object : object.

Local Abbreviation send := (send JSON_stringify).
Local Abbreviation step := (step JSON_stringify ping_object).
Local Abbreviation run := (run JSON_stringify ping_object).

Lemma settled_ping_tick (σ : state) :
  settled σ -> settled (ping_tick JSON_stringify ping_object σ).
Proof.
  destruct (WebSocketManagerFacts.ping_tick_cases JSON_stringify ping_object σ)
    as [(s & _ & _ & ->) | (_ & ->)]; [|auto].
  apply settled_same; reflexivity.
Qed.

Lemma settled_step (e : event) (σ σ' : state) :
  step e σ = Some σ' -> settled σ -> settled σ'.
Proof.
  destruct e as [rnd| |d|s|s|s text|s|s|h rnd]; simpl.
  - intros [= <-]. apply settled_connect.
  - intros [= <-]. apply settled_disconnect.
  - intros [= <-].
    destruct (WebSocketManagerFacts.send_cases JSON_stringify d σ)
      as [(s & _ & _ & ->) | (_ & ->)]; simpl; [|auto].
    apply settled_same; reflexivity.
  - destruct (sockets σ !! s) as [[]|] eqn:Es; intros [= <-] [Ho (Hv1 & Hv2 & Hv3)].
    assert (Hw : ws σ = Some s).
    { destruct (decide (ws σ = Some s)) as [?|Hne]; [assumption|].
      destruct (Ho s CONNECTING Es Hne); discriminate. }
    split.
    + intros s' st' Hl Hne. simpl in *. apply list_lookup_insert_Some in Hl.
      destruct Hl as [(<- & _ & _) | (_ & Hl)]; [congruence | eapply Ho; eassumption].
    + repeat split; simpl.
      * intros s' Hs'. rewrite length_insert. auto.
      * intros h' [= <-]. rewrite length_app. simpl. lia.
      * intros h' Hh. rewrite length_app. simpl. specialize (Hv3 h' Hh). lia.
  - destruct (sockets σ !! s) as [[]|]; intros [= <-]. apply settled_insert_out. auto.
  - destruct (sockets σ !! s) as [[]|]; intros [= <-]; auto.
  - destruct (sockets σ !! s); intros [= <-]. auto.
  - intros H. apply (WebSocketManagerFacts.step_closed JSON_stringify ping_object) in H.
    subst σ'. intros Hs.
    assert (H0 : settled (cleanup (set_sockets (<[s:=CLOSED]> (sockets σ)) σ))).
    { apply settled_cleanup, settled_insert_out; auto. }
    unfold onclose. set (σ1 := cleanup _) in *. clearbody σ1.
    destruct H0 as [Ho (Hv1 & Hv2 & Hv3)].
    simpl. case_bool_decide; simpl; (split; [exact Ho|]); repeat split; simpl;
      try assumption.
    + intros h Hh. rewrite length_app. simpl. specialize (Hv2 h Hh). lia.
    + intros h [= <-]. rewrite length_app. simpl. lia.
  - destruct (timers σ !! h) as [t|]; [|discriminate].
    destruct (pending t); [|discriminate].
    destruct (kind t), (action t); simpl; intros [= <-] Hs.
    + apply settled_ping_tick, Hs.
    + apply settled_connect, Hs.
    + apply settled_ping_tick, settled_clear_timer, Hs.
    + apply settled_connect, settled_clear_timer, Hs.
Qed.

Lemma settled_run (es : list event) (σ σ' : state) :
  run es σ = Some σ' -> settled σ -> settled σ'.
Proof.
  revert σ. induction es as [|e es IH]; simpl; intros σ H H0.
  - injection H as <-. exact H0.
  - destruct (step e σ) as [σ1|] eqn:E; simpl in H; [|discriminate].
    eapply IH; [exact H|]. eapply settled_step; eassumption.
Qed.

(** X1. One connection at a time: in every state the manager can reach, a
    socket that is CONNECTING or OPEN is the current one, so at most one
    socket is alive; and the socket and timer references the manager holds
    always point at objects that exist. *)
Theorem single_live_socket (es : list event) (σ : state) :
  run es init = Some σ ->
  (forall s, sockets σ !! s = Some OPEN \/ sockets σ !! s = Some CONNECTING ->
             ws σ = Some s)
  /\ (forall s1 s2,
        sockets σ !! s1 = Some OPEN \/ sockets σ !! s1 = Some CONNECTING ->
        sockets σ !! s2 = Some OPEN \/ sockets σ !! s2 = Some CONNECTING ->
        s1 = s2)
  /\ handles_valid σ.
Proof.
  intros H. destruct (settled_run _ _ _ H settled_init) as [Ho Hv].
  assert (Hcur : forall s, sockets σ !! s = Some OPEN \/ sockets σ !! s = Some CONNECTING ->
                           ws σ = Some s).
  { intros s Hs. destruct (decide (ws σ = Some s)) as [?|Hne]; [assumption|].
    destruct Hs as [Hs|Hs]; destruct (Ho _ _ Hs Hne); discriminate. }
  split; [exact Hcur|]. split; [|exact Hv].
  intros s1 s2 H1 H2. apply Hcur in H1. apply Hcur in H2. congruence.
Qed.

(** X2. A reconnect counts as a consumer.  When a socket closes at a
    positive count and the reconnect timer then fires, the count is one
    higher than before, so the [disconnect] that would have brought the count
    to zero no longer tears the connection down. *)
Theorem reconnect_inflates_count (s : nat) (rnd : string) (σ σ1 σ2 : state) :
  connectionCount σ > 0 ->
  step (SocketClosed s) σ = Some σ1 ->
  step (TimerFired (length (timers σ)) rnd) σ1 = Some σ2 ->
  connectionCount σ2 = connectionCount σ + 1
  /\ disconnect σ2 = set_connectionCount (connectionCount σ) σ2.
Proof.
  intros Hpos H1 H2.
  apply (WebSocketManagerFacts.step_closed JSON_stringify ping_object) in H1. subst σ1.
  set (σ0 := set_sockets _ σ) in *.
  destruct (WebSocketManagerFacts.onclose_fields σ0) as (_ & _ & _ & Hc & _ & Hsched & _).
  destruct (Hsched Hpos) as [Ht _].
  assert (Hlen : length (timers (cleanup σ0)) = length (timers σ))
    by apply (WebSocketManagerFacts.cleanup_fields σ0).
  simpl in H2. rewrite Ht, <- Hlen in H2.
  rewrite lookup_app_r in H2 by lia. rewrite Nat.sub_diag in H2. simpl in H2.
  injection H2 as <-.
  assert (E : connectionCount (connect rnd (clear_timer (length (timers (cleanup σ0)))
                                                       (onclose σ0)))
              = connectionCount σ + 1).
  { rewrite WebSocketManagerFacts.connect_count. simpl. rewrite Hc. reflexivity. }
  split; [exact E|].
  rewrite WebSocketManagerFacts.disconnect_keep by lia. rewrite E. f_equal. lia.
Qed.

(** [send] succeeds exactly when the snapshot the hook publishes as
    [isConnected] is true, and a failed [send] changes nothing. *)
Lemma send_agrees_with_snapshot (data : object) (σ : state) :
  fst (send data σ) = getSnapshot σ
  /\ (getSnapshot σ = false -> snd (send data σ) = σ)
  /\ (getSnapshot σ = true ->
        exists s, ws σ = Some s
                  /\ wire (snd (send data σ)) = wire σ ++ [(s, JSON_stringify data)]).
Proof.
  unfold getSnapshot.
  destruct (WebSocketManagerFacts.send_cases JSON_stringify data σ)
    as [(s & Hw & Hs & ->) | (Hn & ->)]; simpl.
  - assert (E : ws_readyState σ = Some OPEN)
      by (unfold ws_readyState; rewrite Hw; exact Hs).
    rewrite bool_decide_eq_true_2 by exact E.
    split; [reflexivity|]. split; [discriminate|]. intros _. exists s. auto.
  - rewrite bool_decide_eq_false_2 by exact Hn.
    split; [reflexivity|]. split; [reflexivity | discriminate].
Qed.

End Payloads.

Local Open Scope string_scope.

Lemma single_live_socket_witness :
  ws two_consumers_open = Some 0%nat /\ handles_valid two_consumers_open.
Proof.
  destruct (single_live_socket (fun text : string => text) "ping"
              [Connect "r"; SocketOpened 0; Connect "q"] two_consumers_open)
    as (Hcur & _ & Hv).
  - vm_compute. reflexivity.
  - split; [apply Hcur; left; reflexivity | exact Hv].
Defined.

Lemma reconnect_inflates_count_witness :
  connectionCount
    {| ws := Some 1%nat; clientId := "client_s"; pingInterval := None;
       reconnectTimeout := None; connectionCount := 2; notified := 2;
       sockets := [CLOSED; CONNECTING];
       timers := [mkTimer Interval PING_INTERVAL PingTick false;
                  mkTimer Timeout RECONNECT_DELAY Reconnect false];
       wire := [] |} = 1 + 1.
Proof.
  eapply (reconnect_inflates_count (fun text : string => text) "ping" 0 "s"
            one_consumer_open).
  - reflexivity.
  - vm_compute. reflexivity.
  - vm_compute. reflexivity.
Defined.

End ConnectionFacts.

(** ** The listener sets *)

Module ListenersFacts.
Import Listeners.

Lemma set_add_in (x y : nat) (s : js_set) : In y (set_add x s) <-> y = x \/ In y s.
Proof.
  unfold set_add. destruct (existsb (Nat.eqb x) s) eqn:E.
  - apply existsb_exists in E. destruct E as (z & Hz & Ez). apply Nat.eqb_eq in Ez.
    subst z. split; [auto | intros [->|H]; assumption].
  - rewrite in_app_iff. simpl. split; [intros [H|[<-|[]]]; auto | intros [->|H]; auto].
Qed.

Lemma set_add_NoDup (x : nat) (s : js_set) : NoDup s -> NoDup (set_add x s).
Proof.
  intros H. unfold set_add. destruct (existsb (Nat.eqb x) s) eqn:E; [exact H|].
  apply NoDup_app. split; [exact H|]. split; [|apply NoDup_singleton].
  intros y Hy Hx. apply list_elem_of_singleton in Hx. subst y.
  assert (Ht : existsb (Nat.eqb x) s = true).
  { apply existsb_exists. exists x. split; [apply list_elem_of_In, Hy | apply Nat.eqb_refl]. }
  congruence.
Qed.

Lemma set_delete_in (x y : nat) (s : js_set) : In y (set_delete x s) <-> y <> x /\ In y s.
Proof.
  unfold set_delete. rewrite filter_In. rewrite negb_true_iff, Nat.eqb_neq. tauto.
Qed.

Lemma set_delete_absent (x : nat) (s : js_set) : ~ In x s -> set_delete x s = s.
Proof.
  intros H. unfold set_delete. induction s as [|y s IH]; [reflexivity|]. simpl.
  destruct (Nat.eqb_spec y x) as [->|Hne]; simpl.
  - exfalso. apply H. left. reflexivity.
  - rewrite IH; [reflexivity|]. intros Hin. apply H. right. exact Hin.
Qed.

Lemma set_delete_add (x : nat) (s : js_set) : ~ In x s -> set_delete x (set_add x s) = s.
Proof.
  intros H. unfold set_add.
  destruct (existsb (Nat.eqb x) s) eqn:E.
  - apply existsb_exists in E. destruct E as (z & Hz & Ez). apply Nat.eqb_eq in Ez.
    subst z. contradiction.
  - unfold set_delete. rewrite List.filter_app. simpl. rewrite Nat.eqb_refl. simpl.
    rewrite app_nil_r. apply (set_delete_absent x s H).
Qed.

(** X3. The listener set is a set: a listener subscribed twice is called
    once per notification, and one call of the returned unsubscribe removes
    it altogether; subscribing a new listener and unsubscribing it again
    restores the set, order included, and other listeners are never
    affected. *)
Theorem subscribe_is_set_like (l : nat) (r : registry) :
  NoDup (listeners r) ->
  NoDup (notifyListeners (subscribe l (subscribe l r)))
  /\ notifyListeners (subscribe l (subscribe l r)) = notifyListeners (subscribe l r)
  /\ In l (notifyListeners (subscribe l r))
  /\ ~ In l (notifyListeners (unsubscribe l (subscribe l (subscribe l r))))
  /\ (~ In l (listeners r) -> unsubscribe l (subscribe l r) = r)
  /\ (forall other, other <> l ->
        (In other (notifyListeners (subscribe l r)) <-> In other (listeners r))
        /\ (In other (notifyListeners (unsubscribe l r)) <-> In other (listeners r))).
Proof.
  intros Hnd. unfold notifyListeners, subscribe, unsubscribe. simpl.
  assert (Hin : In l (set_add l (listeners r))) by (apply set_add_in; auto).
  assert (Hidem : set_add l (set_add l (listeners r)) = set_add l (listeners r)).
  { unfold set_add at 1.
    assert (E : existsb (Nat.eqb l) (set_add l (listeners r)) = true).
    { apply existsb_exists. exists l. split; [exact Hin | apply Nat.eqb_refl]. }
    rewrite E. reflexivity. }
  rewrite Hidem.
  split; [apply set_add_NoDup, Hnd|]. split; [reflexivity|]. split; [exact Hin|].
  split; [rewrite set_delete_in; tauto|]. split.
  - intros Hfresh. rewrite set_delete_add by exact Hfresh. destruct r; reflexivity.
  - intros other Hne. rewrite set_add_in, set_delete_in. tauto.
Qed.

Lemma subscribe_is_set_like_witness :
  notifyListeners (subscribe 7 (subscribe 7 (mkRegistry [3; 5]%nat []))) = [3; 5; 7]%nat
  /\ unsubscribe 7 (subscribe 7 (mkRegistry [3; 5]%nat [])) = mkRegistry [3; 5]%nat [].
Proof.
  destruct (subscribe_is_set_like 7 (mkRegistry [3; 5]%nat [])) as (_ & E & _ & _ & Hrt & _).
  - apply (bool_decide_unpack _). vm_compute. exact I.
  - split; [rewrite E; reflexivity|]. apply Hrt.
    simpl. intros [H|[H|[]]]; discriminate.
Defined.

Lemma call_until_throw_prefix (throws : nat -> bool) (s : js_set) :
  exists rest, s = call_until_throw throws s ++ rest
               /\ (rest <> [] -> exists l, last (call_until_throw throws s) = Some l
                                           /\ throws l = true).
Proof.
  induction s as [|l s IH]; simpl.
  - exists []. split; [reflexivity | congruence].
  - destruct (throws l) eqn:E.
    + exists s. split; [reflexivity|]. intros _. exists l. auto.
    + destruct IH as (rest & Hs & Hr). exists rest. split; [f_equal; exact Hs|].
      intros Hne. destruct (Hr Hne) as (l' & Hl & Ht). exists l'. split; [|exact Ht].
      destruct (call_until_throw throws s); [discriminate | exact Hl].
Qed.

(** X4. A frame that does not parse reaches no message listener.  A frame
    that parses reaches the listeners in registration order up to and
    including the first one that throws, and none after it; if no listener
    throws, every listener is called. *)
Theorem onmessage_delivery (parsed : bool) (throws : nat -> bool) (r : registry) :
  (parsed = false -> onmessage parsed throws r = [])
  /\ (parsed = true ->
        exists skipped,
          messageListeners r = onmessage parsed throws r ++ skipped
          /\ (forall l, In l (removelast (onmessage parsed throws r)) -> throws l = false)
          /\ (skipped <> [] ->
                exists l, last (onmessage parsed throws r) = Some l /\ throws l = true))
  /\ (parsed = true -> (forall l, In l (messageListeners r) -> throws l = false) ->
        onmessage parsed throws r = messageListeners r).
Proof.
  unfold onmessage. split; [intros ->; reflexivity|]. split.
  - intros ->. destruct (call_until_throw_prefix throws (messageListeners r))
      as (rest & Hs & Hr).
    exists rest. split; [exact Hs|]. split; [|exact Hr].
    clear. induction (messageListeners r) as [|l s IH]; simpl; [intros ? []|].
    destruct (throws l) eqn:E; simpl; [intros ? []|].
    destruct (call_until_throw throws s) as [|x xs] eqn:Ec; [intros ? []|].
    intros y [<-|Hy]; [exact E | apply IH, Hy].
  - intros -> Hall. induction (messageListeners r) as [|l s IH]; simpl; [reflexivity|].
    rewrite (Hall l) by (left; reflexivity). f_equal. apply IH.
    intros y Hy. apply Hall. right. exact Hy.
Qed.

Lemma onmessage_delivery_witness :
  onmessage false (fun l => Nat.eqb l 2) (mkRegistry [] [1; 2; 3]%nat) = []
  /\ onmessage true (fun _ => false) (mkRegistry [] [1; 2; 3]%nat) = [1; 2; 3]%nat.
Proof.
  split.
  - apply (onmessage_delivery false (fun l => Nat.eqb l 2) (mkRegistry [] [1; 2; 3]%nat)).
    reflexivity.
  - apply (onmessage_delivery true (fun _ => false) (mkRegistry [] [1; 2; 3]%nat));
      [reflexivity | reflexivity].
Defined.

Example throwing_listener_cuts_delivery :
  onmessage true (fun l => Nat.eqb l 2) (mkRegistry [] [1; 2; 3]%nat) = [1; 2]%nat.
Proof. reflexivity. Qed.

End ListenersFacts.

(** ** The chat page *)

Module ChatPageFacts.
Import Types ChatPage.
Local Open Scope string_scope.
Local Open Scope list_scope.

Lemma text_append_assoc (a b c : string) :
  String.append (String.append a b) c = String.append a (String.append b c).
Proof. induction a as [|x a IH]; simpl; [reflexivity | rewrite IH; reflexivity]. Qed.

Lemma text_append_empty_r (a : string) : String.append a EmptyString = a.
Proof. induction a as [|x a IH]; simpl; [reflexivity | rewrite IH; reflexivity]. Qed.

Lemma receive_cons (clock : string) (m : WebSocketMessage) (frames : list WebSocketMessage)
    (st : bool * Chat.state) :
  Chat.receive clock (m :: frames) st
  = Chat.receive clock frames (Chat.handleMessage (Chat.chat_options clock) m st).
Proof. reflexivity. Qed.

Lemma receive_split (clock : string) (l1 l2 : list WebSocketMessage) (st : bool * Chat.state) :
  Chat.receive clock (l1 ++ l2) st = Chat.receive clock l2 (Chat.receive clock l1 st).
Proof. apply fold_left_app. Qed.

Lemma receive_appends (clock : string) (frames : list WebSocketMessage)
    (b : bool) (c : Chat.state) :
  Chat.messages (snd (Chat.receive clock frames (b, c)))
  = Chat.messages c
    ++ map (reply clock (Chat.currentConversationId c)) (stream_ends frames)
  /\ Chat.currentConversationId (snd (Chat.receive clock frames (b, c)))
     = Chat.currentConversationId c
  /\ map conv_id (Chat.conversations (snd (Chat.receive clock frames (b, c))))
     = map conv_id (Chat.conversations c).
Proof.
  revert b c. induction frames as [|m frames IH]; intros b c.
  - simpl. rewrite app_nil_r. auto.
  - rewrite receive_cons.
    destruct m as [id role content| |content|id content|cid title|msg| |ty]; simpl;
      try (destruct (IH b c) as (E1 & E2 & E3); rewrite E1, E2, E3; auto; fail).
    + destruct (IH true (Chat.set_streamingContent EmptyString c)) as (E1 & E2 & E3).
      rewrite E1, E2, E3. auto.
    + destruct (IH b (Chat.set_streamingContent
                        (String.append (Chat.streamingContent c) content) c))
        as (E1 & E2 & E3).
      rewrite E1, E2, E3. auto.
    + match goal with
      | |- context [Chat.receive clock frames (false, ?c1)] =>
          destruct (IH false c1) as (E1 & E2 & E3); rewrite E1, E2, E3
      end.
      simpl. rewrite <- app_assoc. auto.
    + match goal with
      | |- context [Chat.receive clock frames (b, ?c1)] =>
          destruct (IH b c1) as (E1 & E2 & E3); rewrite E1, E2, E3
      end.
      simpl. split; [reflexivity|]. split; [reflexivity|].
      unfold Chat.retitle. rewrite map_map. apply map_ext.
      intros x. destruct (String.eqb (conv_id x) cid); reflexivity.
    + destruct (IH false (Chat.set_streamingContent EmptyString c)) as (E1 & E2 & E3).
      rewrite E1, E2, E3. auto.
Qed.

(** X5. Whatever frames arrive, the message list only grows: it gains one
    assistant message per stream-end frame, in order, tagged with the
    conversation selected on the page, and every earlier message stays in
    place.  No frame changes the selection, the identifiers or the order of
    the listed conversations, or the loading and sidebar flags. *)
Theorem frames_only_append_replies (clock : string) (frames : list WebSocketMessage)
    (p : page) :
  Chat.messages (cells (on_frames clock frames p))
  = Chat.messages (cells p)
    ++ map (reply clock (Chat.currentConversationId (cells p))) (stream_ends frames)
  /\ (forall i m, Chat.messages (cells p) !! i = Some m ->
        Chat.messages (cells (on_frames clock frames p)) !! i = Some m)
  /\ Chat.currentConversationId (cells (on_frames clock frames p))
     = Chat.currentConversationId (cells p)
  /\ map conv_id (Chat.conversations (cells (on_frames clock frames p)))
     = map conv_id (Chat.conversations (cells p))
  /\ isLoadingConversations (on_frames clock frames p) = isLoadingConversations p
  /\ isLoadingMessages (on_frames clock frames p) = isLoadingMessages p
  /\ sidebarOpen (on_frames clock frames p) = sidebarOpen p.
Proof.
  destruct (receive_appends clock frames false (cells p)) as (Em & Ec & Ei).
  unfold on_frames. simpl. split; [exact Em|]. split.
  - intros i m Hi. rewrite Em. apply lookup_app_l_Some. exact Hi.
  - repeat split; assumption.
Qed.

Lemma frames_only_append_replies_witness :
  Chat.messages
    (cells (on_frames "t" [stream_start; stream_chunk "Hi"; stream_end "m2" "Hi"]
              (mkPage (Chat.mkState [] (Some "c1")
                         [mkMessage "m1" (Some "c1") "user" "hello" [] "t0"] EmptyString)
                      false false true)))
  !! 0%nat
  = Some (mkMessage "m1" (Some "c1") "user" "hello" [] "t0").
Proof.
  apply (frames_only_append_replies "t"
           [stream_start; stream_chunk "Hi"; stream_end "m2" "Hi"]
           (mkPage (Chat.mkState [] (Some "c1")
                      [mkMessage "m1" (Some "c1") "user" "hello" [] "t0"] EmptyString)
                   false false true)).
  reflexivity.
Defined.

Lemma receive_quiet (clock : string) (frames : list WebSocketMessage)
    (b : bool) (c : Chat.state) :
  (forall m, In m frames -> resets m = false) ->
  fst (Chat.receive clock frames (b, c)) = b
  /\ Chat.streamingContent (snd (Chat.receive clock frames (b, c)))
     = String.append (Chat.streamingContent c) (concat_all (chunk_contents frames)).
Proof.
  revert c. induction frames as [|m frames IH]; intros c Hq.
  - simpl. rewrite text_append_empty_r. auto.
  - rewrite receive_cons.
    assert (Hm : resets m = false) by (apply Hq; left; reflexivity).
    assert (Hrest : forall m', In m' frames -> resets m' = false)
      by (intros m' H'; apply Hq; right; exact H').
    destruct m as [id role content| |content|id content|cid title|msg| |ty]; simpl in *;
      try discriminate; try (apply IH; exact Hrest).
    + destruct (IH (Chat.set_streamingContent
                      (String.append (Chat.streamingContent c) content) c) Hrest)
        as [E1 E2].
      rewrite E1, E2. simpl. rewrite text_append_assoc. auto.
    + match goal with
      | |- context [Chat.receive clock frames (b, ?c1)] =>
          destruct (IH c1 Hrest) as [E1 E2]; rewrite E1, E2
      end. auto.
Qed.

Lemma streamed_text_quiet (clock : string)
    (before : list WebSocketMessage) (r : WebSocketMessage) (after : list WebSocketMessage)
    (st : bool * Chat.state) :
  resets r = true ->
  (forall m, In m after -> resets m = false) ->
  Chat.streamingContent (snd (Chat.receive clock (before ++ r :: after) st))
  = concat_all (chunk_contents after)
  /\ fst (Chat.receive clock (before ++ r :: after) st)
     = match r with stream_start => true | _ => false end.
Proof.
  intros Hr Hq. rewrite receive_split, receive_cons.
  destruct (Chat.receive clock before st) as [b c].
  destruct r as [id role content| |content|id content|cid title|msg| |ty];
    try discriminate; simpl;
    match goal with
    | |- context [Chat.receive clock after (?b1, ?c1)] =>
        destruct (receive_quiet clock after b1 c1 Hq) as [E1 E2]; rewrite E1, E2
    end; auto.
Qed.

(** X6. The text shown while streaming is the concatenation of the chunks
    received since the last stream-start, stream-end or error frame, whatever
    came before that frame and whatever other frames are interleaved; the
    streaming flag is up exactly when that last frame was a stream-start.
    With no such frame at all, the chunks are appended to the text already
    shown and the flag keeps its value. *)
Theorem streamed_text_since_reset (clock : string) (frames : list WebSocketMessage)
    (st : bool * Chat.state) :
  (forall before r after,
     frames = before ++ r :: after ->
     resets r = true ->
     (forall m, In m after -> resets m = false) ->
     Chat.streamingContent (snd (Chat.receive clock frames st))
     = concat_all (chunk_contents after)
     /\ fst (Chat.receive clock frames st)
        = match r with stream_start => true | _ => false end)
  /\ ((forall m, In m frames -> resets m = false) ->
      Chat.streamingContent (snd (Chat.receive clock frames st))
      = String.append (Chat.streamingContent (snd st)) (concat_all (chunk_contents frames))
      /\ fst (Chat.receive clock frames st) = fst st).
Proof.
  split.
  - intros before r after -> Hr Hq. apply streamed_text_quiet; assumption.
  - intros Hq. destruct st as [b c]. simpl.
    destruct (receive_quiet clock frames b c Hq) as [E1 E2]. auto.
Qed.

Lemma streamed_text_since_reset_witness :
  Chat.streamingContent
    (snd (Chat.receive "t"
            [stream_chunk "old"; stream_start; stream_chunk "A "; pong; stream_chunk "red ";
             message_saved "m" "user" "q"]
            (false, Chat.mkState [] (Some "c1") [] "stale")))
  = "A red ".
Proof.
  destruct (streamed_text_since_reset "t"
              [stream_chunk "old"; stream_start; stream_chunk "A "; pong; stream_chunk "red ";
               message_saved "m" "user" "q"]
              (false, Chat.mkState [] (Some "c1") [] "stale")) as [Hreset _].
  apply (Hreset [stream_chunk "old"] stream_start
           [stream_chunk "A "; pong; stream_chunk "red "; message_saved "m" "user" "q"]).
  - reflexivity.
  - reflexivity.
  - intros m [<-|[<-|[<-|[<-|[]]]]]; reflexivity.
Defined.

Lemma listed_retitle (id title : string) (c : Chat.state) :
  selection_listed c ->
  selection_listed (Chat.set_conversations (Chat.retitle id title (Chat.conversations c)) c).
Proof.
  unfold selection_listed. simpl. destruct (Chat.currentConversationId c) as [cur|]; [|auto].
  intros (conv & Hin & Hid).
  exists (if String.eqb (conv_id conv) id then Chat.with_title title conv else conv).
  split.
  - unfold Chat.retitle. apply in_map_iff. exists conv. auto.
  - destruct (String.eqb (conv_id conv) id); exact Hid.
Qed.

Lemma listed_frames (clock : string) (frames : list WebSocketMessage) (b : bool)
    (c : Chat.state) :
  selection_listed c -> selection_listed (snd (Chat.receive clock frames (b, c))).
Proof.
  destruct (receive_appends clock frames b c) as (_ & Ecur & Eids).
  unfold selection_listed. rewrite Ecur.
  destruct (Chat.currentConversationId c) as [cur|]; [|auto].
  intros (conv & Hin & Hid).
  assert (Hm : In cur (map conv_id (Chat.conversations c))).
  { apply in_map_iff. exists conv. auto. }
  rewrite <- Eids in Hm. apply in_map_iff in Hm. destruct Hm as (conv' & E & Hin').
  exists conv'. auto.
Qed.

Lemma listed_delete (ok : bool) (id : string) (p : page) :
  selection_listed (cells p) ->
  selection_listed (cells (handleDeleteConversation ok id (cells p) p)).
Proof.
  unfold handleDeleteConversation. destruct ok; [|auto].
  unfold selection_listed.
  destruct (Chat.currentConversationId (cells p)) as [cur|] eqn:Ec; simpl;
    [|rewrite Ec; auto].
  intros (conv & Hin & Hid).
  destruct (String.eqb_spec cur id) as [->|Hne]; simpl.
  - destruct (List.filter (other_than id) (Chat.conversations (cells p)))
      as [|first rest] eqn:Ef; [exact I|].
    exists first. split; [left; reflexivity | reflexivity].
  - rewrite Ec. exists conv. split; [|exact Hid].
    apply filter_In. split; [exact Hin|]. unfold other_than. rewrite Hid.
    destruct (String.eqb_spec cur id); [contradiction | reflexivity].
Qed.

Lemma listed_act (a : action) (p : page) :
  selection_listed (cells p) -> selection_listed (cells (act a p)).
Proof.
  destruct a as [data|created|position|ok id title|ok id|clock frames]; simpl.
  - destruct data; auto.
  - destruct created as [conv|]; [|auto]. intros _. unfold selection_listed. simpl.
    exists conv. auto.
  - destruct (Chat.conversations (cells p) !! position) as [conv|] eqn:E; [|auto].
    intros _. unfold selection_listed. simpl. exists conv. split; [|reflexivity].
    apply list_elem_of_In. eapply list_elem_of_lookup_2. exact E.
  - unfold Chat.handleRenameConversation. destruct ok; [apply listed_retitle | auto].
  - apply listed_delete.
  - apply listed_frames.
Qed.

(** X7. The selected conversation is always one of the listed ones.  From
    the mounted page, after the conversation list has loaded (or failed to)
    and after any sequence of message loads, new conversations, clicks on
    sidebar entries, renames, deletes and incoming frames, the selection is
    empty or names a conversation in the list. *)
Theorem selection_always_listed (data : option (list Conversation)) (actions : list action) :
  selection_listed (cells (act_all actions (mount data initial))).
Proof.
  assert (H0 : selection_listed (cells (mount data initial))).
  { destruct data as [[|first rest]|]; unfold selection_listed; simpl; auto.
    exists first. auto. }
  revert H0. generalize (mount data initial).
  unfold act_all. induction actions as [|a actions IH]; intros p Hp; simpl; [exact Hp|].
  apply IH, listed_act, Hp.
Qed.

(** X8. Deleting a conversation on the page.  After a delete that
    resolved, no listed conversation has the deleted identifier and the
    others keep their order.  The selection is decided by what the handler
    captured when it was called: if the captured selection was the deleted
    conversation, the selection moves to the first remaining conversation of
    the captured list (or to none); otherwise the selection in place is left
    alone.  So when nothing has happened between the call and its resolution
    the selection is never the deleted conversation, whereas after a click on
    that conversation while the request was in flight it stays selected
    though it is no longer listed.  After a delete that rejected the page is
    unchanged. *)
Theorem delete_moves_selection (id : string) (captured : Chat.state) (p : page) :
  Chat.conversations (cells (handleDeleteConversation true id captured p))
  = List.filter (other_than id) (Chat.conversations (cells p))
  /\ (forall conv,
        In conv (Chat.conversations (cells (handleDeleteConversation true id captured p))) ->
        conv_id conv <> id)
  /\ (Chat.currentConversationId captured = Some id ->
        Chat.currentConversationId (cells (handleDeleteConversation true id captured p))
        = option_map conv_id
            (head (List.filter (other_than id) (Chat.conversations captured)))
        /\ Chat.currentConversationId (cells (handleDeleteConversation true id captured p))
           <> Some id)
  /\ (Chat.currentConversationId captured <> Some id ->
        Chat.currentConversationId (cells (handleDeleteConversation true id captured p))
        = Chat.currentConversationId (cells p))
  /\ (captured = cells p ->
        Chat.currentConversationId (cells (handleDeleteConversation true id captured p))
        <> Some id)
  /\ (Chat.currentConversationId captured <> Some id ->
        Chat.currentConversationId (cells p) = Some id ->
        Chat.currentConversationId (cells (handleDeleteConversation true id captured p))
        = Some id
        /\ ~ selection_listed (cells (handleDeleteConversation true id captured p)))
  /\ handleDeleteConversation false id captured p = p.
Proof.
  assert (Hf : forall cs conv, In conv (List.filter (other_than id) cs) -> conv_id conv <> id).
  { intros cs conv H. apply filter_In in H. destruct H as [_ H]. unfold other_than in H.
    destruct (String.eqb_spec (conv_id conv) id); [discriminate | assumption]. }
  assert (Hlist : Chat.conversations (cells (handleDeleteConversation true id captured p))
                  = List.filter (other_than id) (Chat.conversations (cells p))).
  { unfold handleDeleteConversation.
    destruct (Chat.currentConversationId captured) as [cur|]; [|reflexivity].
    destruct (String.eqb cur id); reflexivity. }
  assert (Hgone : Chat.currentConversationId captured = Some id ->
                  Chat.currentConversationId
                    (cells (handleDeleteConversation true id captured p))
                  = option_map conv_id
                      (head (List.filter (other_than id) (Chat.conversations captured)))).
  { intros E. unfold handleDeleteConversation. rewrite E, String.eqb_refl.
    destruct (List.filter (other_than id) (Chat.conversations captured)); reflexivity. }
  assert (Hkept : Chat.currentConversationId captured <> Some id ->
                  Chat.currentConversationId
                    (cells (handleDeleteConversation true id captured p))
                  = Chat.currentConversationId (cells p)).
  { intros Hne. unfold handleDeleteConversation.
    destruct (Chat.currentConversationId captured) as [cur|]; [|reflexivity].
    destruct (String.eqb_spec cur id) as [->|_]; [congruence | reflexivity]. }
  assert (Hmoved : Chat.currentConversationId captured = Some id ->
                   Chat.currentConversationId
                     (cells (handleDeleteConversation true id captured p)) <> Some id).
  { intros E. rewrite (Hgone E).
    destruct (List.filter (other_than id) (Chat.conversations captured))
      as [|first rest] eqn:Ef; simpl; [discriminate|].
    intros [= E']. apply (Hf (Chat.conversations captured) first); [|exact E'].
    rewrite Ef. left. reflexivity. }
  split; [exact Hlist|]. split; [rewrite Hlist; apply Hf|].
  split; [intros E; split; [apply Hgone | apply Hmoved]; exact E|].
  split; [exact Hkept|]. split; [|split; [|reflexivity]].
  - intros ->.
    assert (Hd : Chat.currentConversationId (cells p) = Some id
                 \/ Chat.currentConversationId (cells p) <> Some id).
    { destruct (Chat.currentConversationId (cells p)) as [cur|]; [|right; discriminate].
      destruct (String.eqb_spec cur id) as [->|Hne]; [left; reflexivity | right; congruence]. }
    destruct Hd as [E|E]; [apply Hmoved; exact E | rewrite (Hkept E); exact E].
  - intros Hne Hsel. rewrite (Hkept Hne). split; [exact Hsel|].
    unfold selection_listed. rewrite (Hkept Hne), Hsel, Hlist.
    intros (conv & Hin & Hid). exact (Hf _ _ Hin Hid).
Qed.

Lemma delete_moves_selection_witness :
  Chat.currentConversationId
    (cells (handleDeleteConversation true "c2"
              (Chat.mkState [mkConversation "c1" "First" "t1" "t1";
                             mkConversation "c2" "Second" "t2" "t2"]
                            (Some "c1") [] EmptyString)
              (mkPage (Chat.mkState [mkConversation "c1" "First" "t1" "t1";
                                     mkConversation "c2" "Second" "t2" "t2"]
                                    (Some "c2") [] EmptyString) false false false)))
  = Some "c2"
  /\ Chat.currentConversationId
       (cells (handleDeleteConversation true "c1"
                 (Chat.mkState [mkConversation "c1" "First" "t1" "t1";
                                mkConversation "c2" "Second" "t2" "t2"]
                               (Some "c1") [] EmptyString)
                 (mkPage (Chat.mkState [mkConversation "c1" "First" "t1" "t1";
                                        mkConversation "c2" "Second" "t2" "t2"]
                                       (Some "c1") [] EmptyString) false false true)))
     = Some "c2".
Proof.
  split.
  - destruct (delete_moves_selection "c2"
                (Chat.mkState [mkConversation "c1" "First" "t1" "t1";
                               mkConversation "c2" "Second" "t2" "t2"]
                              (Some "c1") [] EmptyString)
                (mkPage (Chat.mkState [mkConversation "c1" "First" "t1" "t1";
                                       mkConversation "c2" "Second" "t2" "t2"]
                                      (Some "c2") [] EmptyString) false false false))
      as (_ & _ & _ & _ & _ & Hstale & _).
    apply Hstale; [discriminate | reflexivity].
  - destruct (delete_moves_selection "c1"
                (Chat.mkState [mkConversation "c1" "First" "t1" "t1";
                               mkConversation "c2" "Second" "t2" "t2"]
                              (Some "c1") [] EmptyString)
                (mkPage (Chat.mkState [mkConversation "c1" "First" "t1" "t1";
                                       mkConversation "c2" "Second" "t2" "t2"]
                                      (Some "c1") [] EmptyString) false false true))
      as (_ & _ & Hmove & _).
    destruct Hmove as [E _]; [reflexivity | exact E].
Defined.

Lemma concat_all_chunks (tokens : list string) :
  concat_all (chunk_contents (map stream_chunk tokens)) = concat_all tokens.
Proof.
  induction tokens as [|t tokens IH]; simpl; [reflexivity|].
  unfold concat_all in *. simpl. rewrite IH. reflexivity.
Qed.

Lemma chunks_quiet (tokens : list string) :
  forall m, In m (map stream_chunk tokens) -> resets m = false.
Proof. intros m H. apply in_map_iff in H. destruct H as (t & <- & _). reflexivity. Qed.

Lemma stream_ends_chunks (tokens : list string) : stream_ends (map stream_chunk tokens) = [].
Proof. induction tokens as [|t tokens IH]; simpl; [reflexivity | exact IH]. Qed.

Lemma last_is_user_snoc (ms : list Message) (m : Message) :
  last_is_user (ms ++ [m]) = String.eqb (msg_role m) "user".
Proof. unfold last_is_user. rewrite last_snoc. reflexivity. Qed.

Section Serialiser.

Variable JSON_stringify : Hook.hook_object -> string.

Local Abbreviation sendMessageToServer := (sendMessageToServer JSON_stringify).

(** X9. Sending is optimistic.  [sendMessageToServer] appends the user's
    message to the list whether or not the socket is open; the request goes on
    the wire exactly when the connection snapshot is true, and otherwise the
    manager is left as it was, so the message is shown but never
    transmitted. *)
Theorem optimistic_send (stamp clock conversationId content : string)
    (attachments : list FileAttachment) (p : page) (σ : WebSocketManager.state) :
  Chat.messages
    (cells (fst (sendMessageToServer stamp clock conversationId content attachments (p, σ))))
  = Chat.messages (cells p)
    ++ [mkMessage ("temp_" ++ stamp) (Some conversationId) "user" content attachments clock]
  /\ (WebSocketManager.getSnapshot σ = false ->
        snd (sendMessageToServer stamp clock conversationId content attachments (p, σ)) = σ)
  /\ (WebSocketManager.getSnapshot σ = true ->
        exists s,
          WebSocketManager.ws σ = Some s
          /\ WebSocketManager.wire
               (snd (sendMessageToServer stamp clock conversationId content attachments
                                         (p, σ)))
             = WebSocketManager.wire σ
               ++ [(s, JSON_stringify
                         (Hook.chat_literal conversationId content attachments))]).
Proof.
  unfold ChatPage.sendMessageToServer, Hook.sendMessage. simpl.
  split; [reflexivity|].
  unfold WebSocketManager.getSnapshot.
  destruct (WebSocketManagerFacts.send_cases JSON_stringify
              (Hook.chat_literal conversationId content attachments) σ)
    as [(s & Hw & Hs & ->) | (Hn & ->)]; simpl.
  - split.
    + intros H. apply bool_decide_eq_false in H. exfalso. apply H.
      unfold WebSocketManager.ws_readyState. rewrite Hw. exact Hs.
    + intros _. exists s. auto.
  - split; [reflexivity|]. intros H. apply bool_decide_eq_true in H. contradiction.
Qed.

(** X10. What the page shows around a turn.  Once a message has been sent
    on a selected conversation the thinking indicator is up, connected or not.
    While chunks arrive, the streaming bubble replaces it as soon as the
    accumulated text is non-empty.  After the stream-end neither is shown.
    After an error frame the thinking indicator is shown again. *)
Theorem indicators_through_a_turn (stamp clock conversationId content : string)
    (attachments : list FileAttachment) (p : page) (σ : WebSocketManager.state)
    (tokens : list string) :
  no_conversation (Chat.currentConversationId (cells p)) = false ->
  isLoadingMessages p = false ->
  Chat.streamingContent (cells p) = EmptyString ->
  let sent := fst (sendMessageToServer stamp clock conversationId content attachments (p, σ)) in
  main_view_of sent = MessageList true false
  /\ main_view_of (on_frames clock (stream_start :: map stream_chunk tokens) sent)
     = MessageList (is_empty (concat_all tokens)) (negb (is_empty (concat_all tokens)))
  /\ (forall id text,
        main_view_of (on_frames clock
                        (stream_start :: map stream_chunk tokens ++ [stream_end id text]) sent)
        = MessageList false false)
  /\ (forall reason,
        main_view_of (on_frames clock
                        (stream_start :: map stream_chunk tokens ++ [error reason]) sent)
        = MessageList true false).
Proof.
  intros Hsel Hload Hempty sent.
  assert (Hmsgs : Chat.messages (cells sent)
                  = Chat.messages (cells p)
                    ++ [mkMessage ("temp_" ++ stamp) (Some conversationId) "user" content
                                  attachments clock]) by reflexivity.
  assert (Hcur : Chat.currentConversationId (cells sent) = Chat.currentConversationId (cells p))
    by reflexivity.
  assert (Hl : isLoadingMessages sent = false) by exact Hload.
  assert (Hview : forall frames text ms,
            Chat.streamingContent (snd (Chat.receive clock frames (false, cells sent))) = text ->
            Chat.messages (snd (Chat.receive clock frames (false, cells sent)))
            = Chat.messages (cells sent) ++ ms ->
            main_view_of (on_frames clock frames sent)
            = MessageList (last_is_user (Chat.messages (cells sent) ++ ms) && is_empty text)
                          (negb (is_empty text))).
  { intros frames text ms Ht Hm. unfold main_view_of, on_frames.
    destruct (receive_appends clock frames false (cells sent)) as (_ & Ec & _).
    unfold set_cells. cbn [cells isLoadingMessages].
    rewrite Ec, Hcur, Hsel, Hl, Hm, Ht, Hmsgs.
    rewrite <- !app_assoc, !length_app. simpl.
    replace (length (Chat.messages (cells p)) + S (length ms) =? 0)%nat with false
      by (symmetry; apply Nat.eqb_neq; lia).
    reflexivity. }
  split; [|split; [|split]].
  - unfold main_view_of. rewrite Hcur, Hsel, Hl, Hmsgs, length_app. simpl.
    replace (length (Chat.messages (cells p)) + 1 =? 0)%nat with false
      by (symmetry; apply Nat.eqb_neq; lia).
    rewrite last_is_user_snoc. simpl. rewrite Hempty. reflexivity.
  - rewrite (Hview (stream_start :: map stream_chunk tokens) (concat_all tokens) []).
    + rewrite app_nil_r, Hmsgs, last_is_user_snoc. reflexivity.
    + destruct (streamed_text_quiet clock [] stream_start (map stream_chunk tokens)
                  (false, cells sent) eq_refl (chunks_quiet tokens)) as [E _].
      change ([] ++ stream_start :: map stream_chunk tokens)
        with (stream_start :: map stream_chunk tokens) in E.
      rewrite E. apply concat_all_chunks.
    + destruct (receive_appends clock (stream_start :: map stream_chunk tokens) false
                  (cells sent)) as (E & _).
      rewrite E. simpl. rewrite stream_ends_chunks. reflexivity.
  - intros id text.
    rewrite (Hview (stream_start :: map stream_chunk tokens ++ [stream_end id text])
               EmptyString
               [reply clock (Chat.currentConversationId (cells sent)) (id, text)]).
    + rewrite last_is_user_snoc. reflexivity.
    + destruct (streamed_text_quiet clock (stream_start :: map stream_chunk tokens)
                  (stream_end id text) [] (false, cells sent) eq_refl) as [E _];
        [intros ? []|].
      exact E.
    + destruct (receive_appends clock
                  (stream_start :: map stream_chunk tokens ++ [stream_end id text]) false
                  (cells sent)) as (E & _).
      rewrite E. simpl. unfold stream_ends. rewrite flat_map_app.
      fold (stream_ends (map stream_chunk tokens)). rewrite stream_ends_chunks. reflexivity.
  - intros reason.
    rewrite (Hview (stream_start :: map stream_chunk tokens ++ [error reason]) EmptyString []).
    + rewrite app_nil_r, Hmsgs, last_is_user_snoc. reflexivity.
    + destruct (streamed_text_quiet clock (stream_start :: map stream_chunk tokens)
                  (error reason) [] (false, cells sent) eq_refl) as [E _];
        [intros ? []|].
      exact E.
    + destruct (receive_appends clock
                  (stream_start :: map stream_chunk tokens ++ [error reason]) false
                  (cells sent)) as (E & _).
      rewrite E. simpl. unfold stream_ends. rewrite flat_map_app.
      fold (stream_ends (map stream_chunk tokens)). rewrite stream_ends_chunks. reflexivity.
Qed.

End Serialiser.

Lemma optimistic_send_witness :
  snd (sendMessageToServer (fun _ => "frame") "1" "t" "c1" "hello" []
         (initial, WebSocketManager.init))
  = WebSocketManager.init.
Proof.
  apply (optimistic_send (fun _ => "frame") "1" "t" "c1" "hello" [] initial
           WebSocketManager.init).
  reflexivity.
Defined.

Lemma indicators_through_a_turn_witness :
  main_view_of
    (fst (sendMessageToServer (fun _ => "frame") "1" "t" "c1" "hello" []
            (mkPage (Chat.mkState [] (Some "c1") [] EmptyString) false false true,
             WebSocketManager.init)))
  = MessageList true false.
Proof.
  apply (indicators_through_a_turn (fun _ => "frame") "1" "t" "c1" "hello" []
           (mkPage (Chat.mkState [] (Some "c1") [] EmptyString) false false true)
           WebSocketManager.init []); reflexivity.
Defined.

End ChatPageFacts.

(** ** The file list of the input *)

Module FileListFacts.
Import Types FileUpload FileList.
Local Open Scope string_scope.
Local Open Scope list_scope.

Section Handler.

Variable files : list UploadedFile.
Variable onUpload : File -> option UploadedFile.
Variable createObjectURL : File -> string.
Variable fileInputRef_current : bool.

Local Abbreviation handle_one := (handle_one files onUpload createObjectURL).
Local Abbreviation handleFileSelect :=
  (handleFileSelect files onUpload createObjectURL fileInputRef_current).

Lemma handle_one_changes (f : File) (fs : list UploadedFile) :
  In (FilesChange fs) (handle_one f) ->
  passes f = true
  /\ exists u, onUpload f = Some u
               /\ fs = files ++ [with_preview (preview_of createObjectURL f) u].
Proof.
  unfold FileUpload.handle_one, passes, preview_of.
  destruct (includes ACCEPTED_TYPES (file_type f)); simpl; [|intros [H|[]]; discriminate].
  destruct (N.ltb_spec MAX_FILE_SIZE (file_size f)) as [Hlt|Hle]; simpl;
    [intros [H|[]]; discriminate|].
  intros H. split; [apply N.leb_le; exact Hle|].
  apply in_app_or in H. destruct H as [H|H].
  - destruct (String.prefix "image/" (file_type f)); simpl in H;
      [destruct H as [H|[]]; discriminate | contradiction].
  - destruct H as [H|H]; [discriminate|].
    destruct (onUpload f) as [u|]; simpl in H.
    + destruct H as [[= <-]|[]]. exists u. auto.
    + destruct H as [H|[H|[]]]; discriminate.
Qed.

Lemma select_changes (selected : list File) (fs : list UploadedFile) :
  In (FilesChange fs) (handleFileSelect selected) ->
  exists f u, In f selected /\ passes f = true /\ onUpload f = Some u
              /\ fs = files ++ [with_preview (preview_of createObjectURL f) u].
Proof.
  unfold FileUpload.handleFileSelect. intros H. apply in_app_or in H.
  destruct H as [H|H];
    [|destruct fileInputRef_current; [destruct H as [H|[]]; discriminate | contradiction]].
  apply in_flat_map in H. destruct H as (f & Hf & H).
  apply handle_one_changes in H. destruct H as (Hp & u & Hu & E). exists f, u. auto.
Qed.

Lemma files_after_select_cases (start : list UploadedFile) (es : list effect) :
  (forall fs, In (FilesChange fs) es -> exists u, fs = files ++ [u]) ->
  files_after_select start es = start
  \/ exists u, files_after_select start es = files ++ [u].
Proof.
  revert start. induction es as [|e es IH]; intros start H; simpl; [auto|].
  assert (Hrest : forall fs, In (FilesChange fs) es -> exists u, fs = files ++ [u])
    by (intros fs Hfs; apply H; right; exact Hfs).
  destruct e as [t|f|f|fs| |]; try (apply IH; exact Hrest).
  destruct (H fs) as [u ->]; [left; reflexivity|].
  destruct (IH (files ++ [u]) Hrest) as [E|E]; [right; exists u; exact E | right; exact E].
Qed.

(** X11. One selection adds at most one file.  Every [onFilesChange] call of
    a selection passes the list the handler started with plus the one file
    just uploaded, so however many of the selected files are uploaded, the
    list afterwards is the old list or the old list with a single file
    appended. *)
Theorem selection_keeps_one_file (selected : list File) :
  (forall fs, In (FilesChange fs) (handleFileSelect selected) ->
     exists f u, In f selected /\ passes f = true /\ onUpload f = Some u
                 /\ fs = files ++ [with_preview (preview_of createObjectURL f) u])
  /\ (files_after_select files (handleFileSelect selected) = files
      \/ exists u, files_after_select files (handleFileSelect selected) = files ++ [u])
  /\ (length (files_after_select files (handleFileSelect selected)) <= length files + 1)%nat
  /\ uploads (handleFileSelect selected) = List.filter passes selected.
Proof.
  split; [apply select_changes|].
  assert (Hc : files_after_select files (handleFileSelect selected) = files
               \/ exists u, files_after_select files (handleFileSelect selected) = files ++ [u]).
  { apply files_after_select_cases. intros fs H. apply select_changes in H.
    destruct H as (f & u & _ & _ & _ & ->). eauto. }
  split; [exact Hc|]. split.
  - destruct Hc as [-> | [u ->]]; [lia | rewrite length_app; simpl; lia].
  - unfold FileUpload.handleFileSelect.
    rewrite FileUploadFacts.uploads_app, FileUploadFacts.uploads_flat_map.
    destruct fileInputRef_current; simpl; apply app_nil_r.
Qed.

Lemma accepted_type_cases (t : string) :
  includes ACCEPTED_TYPES t = true ->
  t = "image/jpeg" \/ t = "image/png" \/ t = "image/gif" \/ t = "image/webp"
  \/ t = "application/pdf".
Proof.
  intros H. apply FileUploadFacts.includes_In in H. simpl in H.
  destruct H as [H|[H|[H|[H|[H|[]]]]]]; subst; auto.
Qed.

(** X12. Previews go with images only: an accepted file gets an object-URL
    preview exactly when it is not a PDF, the URL is created before the
    upload call, and a rejected file never has a URL created for it. *)
Theorem previews_for_images (f : File) :
  (passes f = true ->
     (file_type f <> "application/pdf" ->
        preview_of createObjectURL f = Some (createObjectURL f)
        /\ exists rest, handle_one f = CreateObjectURL f :: Upload f :: rest)
     /\ (file_type f = "application/pdf" ->
        preview_of createObjectURL f = None
        /\ exists rest, handle_one f = Upload f :: rest))
  /\ (passes f = false -> forall g, ~ In (CreateObjectURL g) (handle_one f)).
Proof.
  split.
  - intros Hp. unfold passes in Hp. apply andb_prop in Hp. destruct Hp as [Ht Hs].
    apply N.leb_le in Hs. change 26214400%N with MAX_FILE_SIZE in Hs.
    unfold FileUpload.handle_one, preview_of. rewrite Ht.
    rewrite (proj2 (N.ltb_ge _ _) Hs). simpl.
    destruct (accepted_type_cases _ Ht) as [E|[E|[E|[E|E]]]]; rewrite E; simpl; split;
      try (intros H; discriminate H);
      try (intros H; exfalso; apply H; reflexivity);
      intros _; (split; [reflexivity | eexists; reflexivity]).
  - intros Hp g Hin.
    destruct (FileUploadFacts.handle_one_rejected files onUpload createObjectURL f Hp)
      as [[E _] | [E _]]; rewrite E in Hin; destruct Hin as [H|[]]; discriminate.
Qed.

End Handler.

Lemma handle_one_feedback (files : list UploadedFile) (onUpload : File -> option UploadedFile)
    (createObjectURL : File -> string) (f : File) :
  (length (alerts (handle_one files onUpload createObjectURL f))
   + length (changes (handle_one files onUpload createObjectURL f)) = 1)%nat.
Proof.
  unfold handle_one.
  destruct (negb (includes ACCEPTED_TYPES (file_type f))); [reflexivity|].
  destruct (N.ltb MAX_FILE_SIZE (file_size f)); [reflexivity|].
  destruct (String.prefix "image/" (file_type f)), (onUpload f); reflexivity.
Qed.

(** X13. Every selected file gets an answer: for each file the handler
    either raises exactly one alert (unsupported type, too large, or upload
    failed) or passes exactly one new list to [onFilesChange], never both and
    never neither; so the alerts and list changes of a selection add up to
    the number of files selected.  The input is reset at most once, after the
    last file, and only if [fileInputRef.current] still holds the element;
    when it is [null] nothing is reset. *)
Theorem every_file_gets_feedback (files : list UploadedFile)
    (onUpload : File -> option UploadedFile) (createObjectURL : File -> string)
    (fileInputRef_current : bool) (selected : list File) :
  (length (alerts (handleFileSelect files onUpload createObjectURL fileInputRef_current
                                    selected))
   + length (changes (handleFileSelect files onUpload createObjectURL fileInputRef_current
                                       selected))
   = length selected)%nat
  /\ (forall f, In f selected ->
        (exists text, alerts (handle_one files onUpload createObjectURL f) = [text]
                      /\ changes (handle_one files onUpload createObjectURL f) = [])
        \/ (exists fs, changes (handle_one files onUpload createObjectURL f) = [fs]
                       /\ alerts (handle_one files onUpload createObjectURL f) = []))
  /\ exists before,
       handleFileSelect files onUpload createObjectURL fileInputRef_current selected
       = before ++ (if fileInputRef_current then [ResetInput] else [])
       /\ ~ In ResetInput before.
Proof.
  split; [|split].
  - unfold handleFileSelect, alerts, changes. rewrite !flat_map_app.
    assert (E1 : flat_map (fun e => match e with Alert t => [t] | _ => [] end)
                          (if fileInputRef_current then [ResetInput] else []) = [])
      by (destruct fileInputRef_current; reflexivity).
    assert (E2 : flat_map (fun e => match e with FilesChange fs => [fs] | _ => [] end)
                          (if fileInputRef_current then [ResetInput] else []) = [])
      by (destruct fileInputRef_current; reflexivity).
    rewrite E1, E2, !app_nil_r. clear E1 E2.
    induction selected as [|f fs IH]; [reflexivity|]. simpl.
    rewrite !flat_map_app, !length_app.
    pose proof (handle_one_feedback files onUpload createObjectURL f) as H.
    unfold alerts, changes in H. lia.
  - intros f _. pose proof (handle_one_feedback files onUpload createObjectURL f) as H.
    destruct (alerts (handle_one files onUpload createObjectURL f)) as [|t [|t' ts]];
      destruct (changes (handle_one files onUpload createObjectURL f)) as [|c [|c' cs]];
      simpl in H; try lia; [right | left]; eauto.
  - exists (flat_map (handle_one files onUpload createObjectURL) selected).
    split; [reflexivity|]. intros H. apply in_flat_map in H. destruct H as (f & _ & H).
    unfold handle_one in H.
    destruct (negb (includes ACCEPTED_TYPES (file_type f)));
      [destruct H as [H|[]]; discriminate|].
    destruct (N.ltb MAX_FILE_SIZE (file_size f)); [destruct H as [H|[]]; discriminate|].
    apply in_app_or in H. destruct H as [H|[H|H]]; try discriminate.
    + destruct (String.prefix "image/" (file_type f)); simpl in H;
        [destruct H as [H|[]]; discriminate | contradiction].
    + destruct (onUpload f); simpl in H;
        [destruct H as [H|[]]; discriminate | destruct H as [H|[H|[]]]; discriminate].
Qed.

Lemma every_file_gets_feedback_witness :
  (exists text, alerts (handle_one [] (fun _ => None) (fun _ => "blob:x")
                                   (mkFile "a.txt" "text/plain" 10)) = [text]
                /\ changes (handle_one [] (fun _ => None) (fun _ => "blob:x")
                                       (mkFile "a.txt" "text/plain" 10)) = [])
  \/ (exists fs, changes (handle_one [] (fun _ => None) (fun _ => "blob:x")
                                     (mkFile "a.txt" "text/plain" 10)) = [fs]
                 /\ alerts (handle_one [] (fun _ => None) (fun _ => "blob:x")
                                       (mkFile "a.txt" "text/plain" 10)) = []).
Proof.
  apply (every_file_gets_feedback [] (fun _ => None) (fun _ => "blob:x") true
           [mkFile "a.txt" "text/plain" 10]).
  left. reflexivity.
Defined.

Lemma find_has_id (fileId : string) (files : list UploadedFile) (f : UploadedFile) :
  List.find (has_id fileId) files = Some f -> In f files /\ uf_id f = fileId.
Proof.
  intros H. apply find_some in H. destruct H as [Hin H].
  unfold has_id in H. apply String.eqb_eq in H. auto.
Qed.

(** X14. [removeFile] drops every file with the given identifier and keeps
    the others in order.  It revokes at most one URL, the non-empty preview
    of the first file with that identifier.  For an identifier that is not in
    the list it revokes nothing and passes the list on unchanged. *)
Theorem removeFile_removes (files : list UploadedFile) (fileId : string) :
  files_after_removal files (removeFile files fileId)
  = List.filter (fun f => negb (has_id fileId f)) files
  /\ (forall f, In f (files_after_removal files (removeFile files fileId)) <->
                In f files /\ uf_id f <> fileId)
  /\ (forall url, In (RevokeObjectURL url) (removeFile files fileId) ->
        url <> EmptyString
        /\ exists f, List.find (has_id fileId) files = Some f /\ uf_preview f = Some url)
  /\ ((forall f, In f files -> uf_id f <> fileId) ->
        removeFile files fileId = [FilesChanged files]).
Proof.
  assert (Hafter : files_after_removal files (removeFile files fileId)
                   = List.filter (fun f => negb (has_id fileId f)) files).
  { unfold removeFile, files_after_removal. rewrite fold_left_app. simpl.
    reflexivity. }
  split; [exact Hafter|]. split; [|split].
  - intros f. rewrite Hafter, filter_In. unfold has_id.
    destruct (String.eqb_spec (uf_id f) fileId); simpl; split; intros [H1 H2];
      try discriminate; try contradiction; auto.
  - intros url H. unfold removeFile in H. apply in_app_or in H.
    destruct H as [H|[H|[]]]; [|discriminate].
    destruct (List.find (has_id fileId) files) as [f|] eqn:Ef; [|contradiction].
    destruct (uf_preview f) as [[|a rest]|] eqn:Ep; try contradiction.
    destruct H as [[= <-]|[]]. split; [discriminate|]. exists f. auto.
  - intros Habs. unfold removeFile.
    assert (Enone : List.find (has_id fileId) files = None).
    { destruct (List.find (has_id fileId) files) as [f|] eqn:Ef; [|reflexivity].
      apply find_has_id in Ef. destruct Ef as [Hin Hid]. exfalso. exact (Habs f Hin Hid). }
    rewrite Enone. simpl. f_equal. f_equal.
    clear Enone Hafter. induction files as [|g gs IH]; [reflexivity|]. simpl.
    assert (Hg : has_id fileId g = false).
    { unfold has_id. apply String.eqb_neq. apply Habs. left. reflexivity. }
    rewrite Hg. simpl. f_equal. apply IH. intros f Hf. apply Habs. right. exact Hf.
Qed.

(** X15. Adding a file and removing it again restores the list, and the
    URL revoked on removal is the one created for the preview: for an accepted
    image whose upload resolves to a file with an identifier not yet in the
    list, selecting it and then removing it yields the old list and revokes
    exactly the created URL. *)
Theorem add_then_remove (files : list UploadedFile) (onUpload : File -> option UploadedFile)
    (createObjectURL : File -> string) (fileInputRef_current : bool)
    (f : File) (u : UploadedFile) :
  passes f = true ->
  file_type f <> "application/pdf" ->
  onUpload f = Some u ->
  createObjectURL f <> EmptyString ->
  (forall g, In g files -> uf_id g <> uf_id u) ->
  files_after_select files
    (handleFileSelect files onUpload createObjectURL fileInputRef_current [f])
  = files ++ [with_preview (Some (createObjectURL f)) u]
  /\ removeFile (files ++ [with_preview (Some (createObjectURL f)) u]) (uf_id u)
     = [RevokeObjectURL (createObjectURL f); FilesChanged files].
Proof.
  intros Hp Hne Hu Hurl Hfresh.
  assert (Hfilter : List.filter (fun g => negb (has_id (uf_id u) g)) files = files).
  { clear -Hfresh. induction files as [|g gs IH]; [reflexivity|]. simpl.
    assert (Hg : has_id (uf_id u) g = false)
      by (unfold has_id; apply String.eqb_neq; apply Hfresh; left; reflexivity).
    rewrite Hg. simpl. f_equal. apply IH. intros h Hh. apply Hfresh. right. exact Hh. }
  assert (Hfind : forall tl, List.find (has_id (uf_id u)) (files ++ tl)
                             = List.find (has_id (uf_id u)) tl).
  { intros tl. clear -Hfresh. induction files as [|g gs IH]; [reflexivity|]. simpl.
    assert (Hg : has_id (uf_id u) g = false)
      by (unfold has_id; apply String.eqb_neq; apply Hfresh; left; reflexivity).
    rewrite Hg. apply IH. intros h Hh. apply Hfresh. right. exact Hh. }
  split.
  - unfold passes in Hp. apply andb_prop in Hp. destruct Hp as [Ht Hs].
    apply N.leb_le in Hs. change 26214400%N with MAX_FILE_SIZE in Hs.
    change (handleFileSelect files onUpload createObjectURL fileInputRef_current [f])
      with ((handle_one files onUpload createObjectURL f ++ [])
            ++ (if fileInputRef_current then [ResetInput] else [])).
    unfold FileUpload.handle_one.
    rewrite Ht, (proj2 (N.ltb_ge _ _) Hs), Hu. simpl.
    destruct (accepted_type_cases _ Ht) as [E|[E|[E|[E|E]]]]; try congruence;
      rewrite E; destruct fileInputRef_current; reflexivity.
  - unfold removeFile. rewrite Hfind. simpl. unfold has_id at 1. simpl.
    rewrite String.eqb_refl. simpl.
    destruct (createObjectURL f) as [|a rest] eqn:Eurl; [congruence|].
    simpl. rewrite List.filter_app, Hfilter. simpl. unfold has_id. simpl.
    rewrite String.eqb_refl. simpl. rewrite app_nil_r. reflexivity.
Qed.

Lemma selection_keeps_one_file_witness :
  (length (files_after_select []
             (handleFileSelect []
                (fun f => Some (mkUploadedFile (file_name f) (file_name f) "pdf" "u"
                                               (file_type f) None None))
                (fun f => String.append "blob:" (file_name f)) false
                [mkFile "a.pdf" "application/pdf" 10; mkFile "b.pdf" "application/pdf" 20]))
   <= 0 + 1)%nat.
Proof.
  apply (selection_keeps_one_file []
           (fun f => Some (mkUploadedFile (file_name f) (file_name f) "pdf" "u"
                                          (file_type f) None None))
           (fun f => String.append "blob:" (file_name f)) false
           [mkFile "a.pdf" "application/pdf" 10; mkFile "b.pdf" "application/pdf" 20]).
Defined.

Example two_uploads_one_kept :
  files_after_select []
    (handleFileSelect []
       (fun f => Some (mkUploadedFile (file_name f) (file_name f) "pdf" "u"
                                      (file_type f) None None))
       (fun f => String.append "blob:" (file_name f)) false
       [mkFile "a.pdf" "application/pdf" 10; mkFile "b.pdf" "application/pdf" 20])
  = [mkUploadedFile "b.pdf" "b.pdf" "pdf" "u" "application/pdf" None None].
Proof. vm_compute. reflexivity. Qed.

Lemma previews_for_images_witness :
  preview_of (fun f => String.append "blob:" (file_name f)) (mkFile "d.png" "image/png" 5)
  = Some "blob:d.png"
  /\ preview_of (fun f => String.append "blob:" (file_name f)) (mkFile "c.pdf" "application/pdf" 5)
     = None.
Proof.
  split.
  - apply (previews_for_images [] (fun _ => None) (fun f => String.append "blob:" (file_name f))
             (mkFile "d.png" "image/png" 5)); [reflexivity | discriminate].
  - apply (previews_for_images [] (fun _ => None) (fun f => String.append "blob:" (file_name f))
             (mkFile "c.pdf" "application/pdf" 5)); reflexivity.
Defined.

Lemma removeFile_removes_witness :
  removeFile [mkUploadedFile "1" "a.png" "image" "u" "image/png" None (Some "blob:a")] "2"
  = [FilesChanged [mkUploadedFile "1" "a.png" "image" "u" "image/png" None (Some "blob:a")]].
Proof.
  apply (removeFile_removes
           [mkUploadedFile "1" "a.png" "image" "u" "image/png" None (Some "blob:a")] "2").
  intros f [<-|[]]. discriminate.
Defined.

Lemma add_then_remove_witness :
  removeFile ([] ++ [with_preview (Some "blob:d.png")
                       (mkUploadedFile "7" "d.png" "image" "u" "image/png" None None)]) "7"
  = [RevokeObjectURL "blob:d.png"; FilesChanged []].
Proof.
  apply (add_then_remove []
           (fun _ => Some (mkUploadedFile "7" "d.png" "image" "u" "image/png" None None))
           (fun f => String.append "blob:" (file_name f)) false
           (mkFile "d.png" "image/png" 5)
           (mkUploadedFile "7" "d.png" "image" "u" "image/png" None None)).
  - reflexivity.
  - discriminate.
  - reflexivity.
  - discriminate.
  - intros g [].
Defined.

End FileListFacts.

(** ** The chat input: keys and flags *)

Module ChatInputKeysFacts.
Import Types ChatInput ChatInputKeys.
Local Open Scope string_scope.

Lemma handleSubmit_cases (p : props) (σ : state) :
  handleSubmit p σ = (None, σ)
  \/ exists sent, handleSubmit p σ = (Some sent, mkState [] [] (isUploading σ)).
Proof.
  unfold handleSubmit.
  destruct (is_empty_string (trim (message σ)) && Nat.eqb (length (files σ)) 0);
    [left; reflexivity|].
  destruct (disabled p || isStreaming p); [left; reflexivity|].
  right. eexists. reflexivity.
Qed.

(** X16. No double send.  After a submit that sent, the input is empty, so
    a second submit (a second Enter, a double click) sends nothing and
    changes nothing; a submit that did not send leaves the input as it was, so
    repeating it does not send either. *)
Theorem submit_twice_sends_once (p : props) (σ : state) :
  fst (handleSubmit p (snd (handleSubmit p σ))) = None
  /\ snd (handleSubmit p (snd (handleSubmit p σ))) = snd (handleSubmit p σ)
  /\ (fst (handleSubmit p σ) = None -> snd (handleSubmit p σ) = σ).
Proof.
  destruct (handleSubmit_cases p σ) as [E | [sent E]]; rewrite E; simpl.
  - rewrite E. simpl. auto.
  - split; [reflexivity|]. split; [reflexivity | discriminate].
Qed.

Lemma submit_twice_sends_once_witness :
  snd (handleSubmit (mkProps true false) (mkState [0x68; 0x69]%N [] false))
  = mkState [0x68; 0x69]%N [] false.
Proof.
  apply (submit_twice_sends_once (mkProps true false) (mkState [0x68; 0x69]%N [] false)).
  reflexivity.
Defined.

Lemma may_send_bool (p : props) (σ : state) :
  may_send p σ <->
  (is_empty_string (trim (message σ)) && Nat.eqb (length (files σ)) 0 = false
   /\ disabled p || isStreaming p = false).
Proof.
  unfold may_send.
  destruct (trim (message σ)) as [|c r], (files σ) as [|f fs], (disabled p), (isStreaming p);
    simpl; split; intros H; try tauto; try (destruct H as [? ?]; discriminate);
    try (destruct H as [[H|H] ?]; congruence);
    try (destruct H as [? [? ?]]; discriminate);
    try (split; [first [left; discriminate | right; discriminate] | auto]).
Qed.

(** X17. The send button and the keyboard.  The send button is enabled
    exactly when a submit would send and no upload is in flight; so a click on
    the enabled button always sends.  A key press submits exactly when the
    key is Enter without Shift, and then it does what [handleSubmit] does;
    any other key, Shift+Enter included, leaves the input alone and keeps the
    key's default action. *)
Theorem button_and_keys (p : props) (σ : state) (e : KeyboardEvent) :
  (send_button_disabled p σ = false <-> may_send p σ /\ isUploading σ = false)
  /\ (send_button_disabled p σ = false -> fst (handleSubmit p σ) <> None)
  /\ (key e = "Enter" -> shiftKey e = false ->
        handleKeyDown e p σ = (true, handleSubmit p σ))
  /\ (key e <> "Enter" \/ shiftKey e = true ->
        handleKeyDown e p σ = (false, (None, σ))).
Proof.
  assert (Hb : send_button_disabled p σ = false <-> may_send p σ /\ isUploading σ = false).
  { rewrite may_send_bool. unfold send_button_disabled, isDisabled.
    destruct (is_empty_string (trim (message σ)) && Nat.eqb (length (files σ)) 0),
      (disabled p), (isStreaming p), (isUploading σ); simpl; intuition congruence. }
  split; [exact Hb|]. split; [|split].
  - intros H. apply Hb in H. destruct H as [H _]. apply may_send_bool in H.
    destruct H as [H1 H2]. unfold handleSubmit. rewrite H1, H2. discriminate.
  - intros Hk Hs. unfold handleKeyDown. rewrite Hk, Hs. reflexivity.
  - intros H. unfold handleKeyDown.
    destruct (String.eqb_spec (key e) "Enter") as [Hk|Hk]; simpl; [|reflexivity].
    destruct H as [H|H]; [contradiction | rewrite H; reflexivity].
Qed.

Lemma button_and_keys_witness :
  fst (handleSubmit (mkProps false false) (mkState [0x68]%N [] false)) <> None
  /\ handleKeyDown (mkKey "Enter" true) (mkProps false false) (mkState [0x68]%N [] false)
     = (false, (None, mkState [0x68]%N [] false)).
Proof.
  destruct (button_and_keys (mkProps false false) (mkState [0x68]%N [] false)
              (mkKey "Enter" true)) as (_ & Hclick & _ & Hother).
  split; [apply Hclick; reflexivity | apply Hother; right; reflexivity].
Defined.

(** X18. What is sent is trimmed.  The text handed to [onSendMessage] is
    the typed text without a run of white space at each end: it neither
    starts nor ends with a white-space code unit, and it is empty only if at
    least one attachment goes with it. *)
Theorem sent_text_is_trimmed (p : props) (σ σ' : state) (content : js_string)
    (attachments : list FileAttachment) :
  handleSubmit p σ = (Some (content, attachments), σ') ->
  (exists pre post,
     message σ = (pre ++ content ++ post)%list
     /\ forallb is_white_space pre = true /\ forallb is_white_space post = true)
  /\ (forall c rest, content = c :: rest -> is_white_space c = false)
  /\ (forall rest c, content = (rest ++ [c])%list -> is_white_space c = false)
  /\ (content = [] -> attachments <> []).
Proof.
  unfold handleSubmit.
  destruct (is_empty_string (trim (message σ)) && Nat.eqb (length (files σ)) 0) eqn:E1;
    [discriminate|].
  destruct (disabled p || isStreaming p); [discriminate|].
  intros [= <- <- _].
  destruct (ChatInputFacts.trim_spec (message σ))
    as (pre & post & Hs & Hpre & Hpost & Hhead & Hlast).
  split; [exists pre, post; auto|]. split; [exact Hhead|]. split; [exact Hlast|].
  intros Hempty. rewrite Hempty in E1. simpl in E1.
  destruct (files σ); [discriminate | discriminate].
Qed.

Lemma sent_text_is_trimmed_witness :
  exists pre post,
    [0x20; 0x68; 0x69; 0xA]%N = (pre ++ [0x68; 0x69]%N ++ post)%list
    /\ forallb is_white_space pre = true /\ forallb is_white_space post = true.
Proof.
  destruct (sent_text_is_trimmed (mkProps false false)
              (mkState [0x20; 0x68; 0x69; 0xA]%N [] false) (mkState [] [] false)
              [0x68; 0x69]%N []) as [H _].
  - reflexivity.
  - exact H.
Defined.

End ChatInputKeysFacts.

(** ** The schema under sequences of statements *)

Module StatementsFacts.
Import Schema Statements.
Local Open Scope string_scope.
Local Open Scope list_scope.

Lemma has_conversation_In (id : string) (db : database) :
  has_conversation id db = true <-> In id (map c_id (conversations db)).
Proof.
  unfold has_conversation. rewrite existsb_exists, in_map_iff. split.
  - intros (c & Hc & E). apply String.eqb_eq in E. eauto.
  - intros (c & E & Hc). exists c. split; [exact Hc | apply String.eqb_eq; exact E].
Qed.

Lemma has_message_In (id : string) (db : database) :
  has_message id db = true <-> In id (map m_id (messages db)).
Proof.
  unfold has_message. rewrite existsb_exists, in_map_iff. split.
  - intros (c & Hc & E). apply String.eqb_eq in E. eauto.
  - intros (c & E & Hc). exists c. split; [exact Hc | apply String.eqb_eq; exact E].
Qed.

Lemma has_attachment_In (id : string) (db : database) :
  has_attachment id db = true <-> In id (map a_id (attachments db)).
Proof.
  unfold has_attachment. rewrite existsb_exists, in_map_iff. split.
  - intros (c & Hc & E). apply String.eqb_eq in E. eauto.
  - intros (c & E & Hc). exists c. split; [exact Hc | apply String.eqb_eq; exact E].
Qed.

Lemma NoDup_map_filter {A : Type} (f : A -> string) (g : A -> bool) (l : list A) :
  NoDup (map f l) -> NoDup (map f (List.filter g l)).
Proof.
  induction l as [|x l IH]; simpl; [auto|].
  rewrite NoDup_cons. intros [Hx Hl]. destruct (g x); simpl; [|apply IH, Hl].
  apply NoDup_cons. split; [|apply IH, Hl].
  intros Hin. apply Hx. apply list_elem_of_In in Hin. apply list_elem_of_In.
  apply in_map_iff in Hin. destruct Hin as (y & E & Hy). apply filter_In in Hy.
  apply in_map_iff. exists y. tauto.
Qed.

Lemma NoDup_map_snoc {A : Type} (f : A -> string) (l : list A) (x : A) :
  NoDup (map f l) -> ~ In (f x) (map f l) -> NoDup (map f (l ++ [x])).
Proof.
  intros Hl Hx. rewrite map_app. simpl. apply NoDup_app. split; [exact Hl|].
  split; [|apply NoDup_singleton].
  intros y Hy Hin. apply list_elem_of_singleton in Hin. subst y.
  apply Hx. apply list_elem_of_In. exact Hy.
Qed.

Lemma filter_all {A : Type} (g : A -> bool) (l : list A) :
  (forall x, In x l -> g x = true) -> List.filter g l = l.
Proof.
  intros H. induction l as [|x l IH]; [reflexivity|]. simpl.
  rewrite (H x) by (left; reflexivity). f_equal. apply IH.
  intros y Hy. apply H. right. exact Hy.
Qed.

Lemma database_ext (a b : database) :
  conversations a = conversations b -> messages a = messages b ->
  attachments a = attachments b -> a = b.
Proof. destruct a, b. simpl. intros -> -> ->. reflexivity. Qed.

(** A database whose tables are parts of a consistent one's, and whose
    references still resolve, is consistent. *)
Lemma consistent_part (db db' : database) :
  consistent db ->
  (exists g, conversations db' = List.filter g (conversations db)) ->
  (exists g, messages db' = List.filter g (messages db)) ->
  (exists g, attachments db' = List.filter g (attachments db)) ->
  references_ok db' -> consistent db'.
Proof.
  intros ((K1 & K2 & K3) & (C1 & C2 & C3) & _) [g1 E1] [g2 E2] [g3 E3] Hr.
  split; [|split; [|exact Hr]].
  - unfold keys_unique. rewrite E1, E2, E3.
    split; [|split]; apply NoDup_map_filter; assumption.
  - unfold checks_hold. rewrite E1, E2, E3. split; [|split].
    + intros c H. apply filter_In in H. apply C1, H.
    + intros m H. apply filter_In in H. apply C2, H.
    + intros a H. apply filter_In in H. apply C3, H.
Qed.

Lemma filter_none {A : Type} (g : A -> bool) (l : list A) :
  (forall x, In x l -> g x = false) -> List.filter g l = [].
Proof.
  intros H. induction l as [|x l IH]; [reflexivity|]. simpl.
  rewrite (H x) by (left; reflexivity). apply IH.
  intros y Hy. apply H. right. exact Hy.
Qed.

Lemma delete_conversation_absent (id : string) (db : database) :
  has_conversation id db = false -> delete_conversation id db = db.
Proof.
  intros H. unfold has_conversation in H.
  assert (Hnot : forall c, In c (conversations db) -> String.eqb (c_id c) id = false).
  { intros c Hc. apply not_true_is_false. intros Ht.
    assert (Hex : existsb (fun c => String.eqb (c_id c) id) (conversations db) = true)
      by (apply existsb_exists; eauto).
    congruence. }
  assert (Hgone : List.filter (fun c => String.eqb (c_id c) id) (conversations db) = [])
    by (apply filter_none; exact Hnot).
  unfold delete_conversation, delete_conversations, delete_messages, delete_attachments.
  rewrite Hgone. simpl.
  assert (E1 : List.filter (fun c => negb (String.eqb (c_id c) id)) (conversations db)
               = conversations db).
  { apply filter_all. intros c Hc. rewrite (Hnot c Hc). reflexivity. }
  assert (E2 : List.filter (fun _ : message => true) (messages db) = messages db)
    by (apply filter_all; reflexivity).
  assert (E0 : List.filter (fun _ : message => false) (messages db) = [])
    by (apply filter_none; reflexivity).
  rewrite E1, E2, E0. simpl.
  rewrite !(filter_all (fun _ : attachment => true)) by reflexivity.
  destruct db; reflexivity.
Qed.

Lemma doomed_message (id x : string) (ms : list message) :
  existsb (fun m => String.eqb (m_id m) x)
          (List.filter (fun m => String.eqb (m_id m) id) ms)
  = String.eqb x id && existsb (fun m => String.eqb (m_id m) id) ms.
Proof.
  rewrite SchemaFacts.existsb_filter. destruct (String.eqb_spec x id) as [->|Hne]; simpl.
  - apply SchemaFacts.existsb_ext. intros c. apply andb_diag.
  - induction ms as [|c cs IH]; simpl; [reflexivity|]. rewrite IH, orb_false_r.
    destruct (String.eqb_spec (m_id c) x) as [E|E]; [|reflexivity].
    destruct (String.eqb_spec (m_id c) id) as [E'|E']; [congruence | reflexivity].
Qed.

(** The tables after [DELETE FROM messages WHERE id = ...]. *)
Lemma delete_message_tables (id : string) (db : database) :
  conversations (delete_message id db) = conversations db
  /\ messages (delete_message id db)
     = List.filter (fun m => negb (String.eqb (m_id m) id)) (messages db)
  /\ attachments (delete_message id db)
     = List.filter (fun a => negb (String.eqb (a_message_id a) id && has_message id db))
                   (attachments db).
Proof.
  unfold delete_message, delete_messages, delete_attachments. simpl.
  split; [reflexivity|]. split; [reflexivity|].
  apply filter_ext. intros a. rewrite doomed_message. reflexivity.
Qed.

Lemma delete_message_references (id : string) (db : database) :
  references_ok db -> references_ok (delete_message id db).
Proof.
  intros [Hm Ha]. destruct (delete_message_tables id db) as (Ec & Em & Eat).
  assert (Hconv : forall x, has_conversation x (delete_message id db) = has_conversation x db).
  { intros x. unfold has_conversation. rewrite Ec. reflexivity. }
  split.
  - intros m Hin. rewrite Em in Hin. apply filter_In in Hin. rewrite Hconv.
    apply Hm, Hin.
  - intros a Hin. rewrite Eat in Hin. apply filter_In in Hin. destruct Hin as [Hin Hkeep].
    destruct (Ha a Hin) as [Hhm Hhc]. split; [|rewrite Hconv; exact Hhc].
    unfold has_message. rewrite Em, SchemaFacts.existsb_filter.
    unfold has_message in Hhm. rewrite existsb_exists in Hhm.
    destruct Hhm as (m & Hmin & E). rewrite existsb_exists. exists m.
    split; [exact Hmin|]. rewrite E. simpl.
    apply String.eqb_eq in E. rewrite E.
    destruct (String.eqb_spec (a_message_id a) id) as [Eid|Eid]; [|reflexivity].
    exfalso. simpl in Hkeep.
    assert (Ht : has_message id db = true).
    { unfold has_message. apply existsb_exists. exists m.
      split; [exact Hmin | apply String.eqb_eq; congruence]. }
    rewrite Ht in Hkeep. discriminate.
Qed.

Lemma consistent_exec (s : statement) (db : database) :
  consistent db -> consistent (exec s db).
Proof.
  intros Hc.
  destruct s as [uuid now title|uuid now cid role content
                |uuid now mid cid name type url mime|id title|id|id]; simpl.
  - (* INSERT INTO conversations *)
    unfold insert_conversation.
    destruct (has_conversation uuid db) eqn:Efresh; [exact Hc|].
    destruct (varchar 255 _) as [stored|] eqn:Efit; simpl; [|exact Hc].
    apply SchemaFacts.varchar_length in Efit.
    destruct Hc as ((K1 & K2 & K3) & (C1 & C2 & C3) & (R1 & R2)).
    assert (Hmono : forall x, has_conversation x db = true ->
              has_conversation x
                (mkDatabase (conversations db ++ [mkConversation uuid stored now now])
                            (messages db) (attachments db)) = true).
    { intros x H. unfold has_conversation in *. simpl. rewrite existsb_app, H. reflexivity. }
    split; [|split].
    + split; [|split]; simpl; try assumption.
      apply NoDup_map_snoc; [exact K1|]. simpl. intros Hin.
      apply has_conversation_In in Hin. congruence.
    + split; [|split]; simpl; try assumption.
      intros c Hin. apply in_app_or in Hin. destruct Hin as [Hin|[<-|[]]]; [auto|].
      exact Efit.
    + split; simpl.
      * intros m Hin. apply Hmono, R1, Hin.
      * intros a Hin. destruct (R2 a Hin) as [H1 H2]. split; [exact H1 | apply Hmono, H2].
  - (* INSERT INTO messages *)
    unfold insert_message.
    destruct (has_message uuid db) eqn:Efresh; [exact Hc|].
    destruct (has_conversation cid db) eqn:Econv; simpl; [|exact Hc].
    destruct (String.eqb role "user" || String.eqb role "assistant") eqn:Erole; simpl;
      [|exact Hc].
    destruct Hc as ((K1 & K2 & K3) & (C1 & C2 & C3) & (R1 & R2)).
    split; [|split].
    + split; [|split]; simpl; try assumption.
      apply NoDup_map_snoc; [exact K2|]. simpl. intros Hin.
      apply has_message_In in Hin. congruence.
    + split; [|split]; simpl; try assumption.
      intros m Hin. apply in_app_or in Hin. destruct Hin as [Hin|[<-|[]]]; [auto|].
      simpl. apply orb_prop in Erole.
      destruct Erole as [E|E]; apply String.eqb_eq in E; auto.
    + split; simpl.
      * intros m Hin. apply in_app_or in Hin. destruct Hin as [Hin|[<-|[]]];
          [apply R1, Hin | exact Econv].
      * intros a Hin. destruct (R2 a Hin) as [H1 H2]. split; [|exact H2].
        unfold has_message in *. simpl. rewrite existsb_app, H1. reflexivity.
  - (* INSERT INTO attachments *)
    unfold insert_attachment.
    destruct (has_attachment uuid db) eqn:Efresh; [exact Hc|].
    destruct (has_message mid db) eqn:Emsg; simpl; [|exact Hc].
    destruct (has_conversation cid db) eqn:Econv; simpl; [|exact Hc].
    destruct (String.eqb type "image" || String.eqb type "pdf") eqn:Etype; simpl;
      [|exact Hc].
    destruct (varchar 255 name) as [stored_name|] eqn:Ename; simpl; [|exact Hc].
    destruct (varchar 100 mime) as [stored_mime|] eqn:Emime; simpl; [|exact Hc].
    apply SchemaFacts.varchar_length in Ename. apply SchemaFacts.varchar_length in Emime.
    destruct Hc as ((K1 & K2 & K3) & (C1 & C2 & C3) & (R1 & R2)).
    split; [|split].
    + split; [|split]; simpl; try assumption.
      apply NoDup_map_snoc; [exact K3|]. simpl. intros Hin.
      apply has_attachment_In in Hin. congruence.
    + split; [|split]; simpl; try assumption.
      intros a Hin. apply in_app_or in Hin. destruct Hin as [Hin|[<-|[]]]; [auto|].
      simpl. split; [|auto]. apply orb_prop in Etype.
      destruct Etype as [E|E]; apply String.eqb_eq in E; auto.
    + split; simpl; [exact R1|].
      intros a Hin. apply in_app_or in Hin. destruct Hin as [Hin|[<-|[]]];
        [apply R2, Hin | auto].
  - (* UPDATE conversations SET title *)
    unfold update_title. destruct (varchar 255 title) as [stored|] eqn:Efit; simpl;
      [|exact Hc].
    apply SchemaFacts.varchar_length in Efit.
    destruct Hc as ((K1 & K2 & K3) & (C1 & C2 & C3) & (R1 & R2)).
    assert (Hids : map c_id (map (fun c => if String.eqb (c_id c) id
                                           then set_title stored c else c)
                                 (conversations db))
                   = map c_id (conversations db)).
    { rewrite map_map. apply map_ext. intros c.
      destruct (String.eqb (c_id c) id); reflexivity. }
    assert (Hsame : forall x,
              has_conversation x
                (mkDatabase (map (fun c => if String.eqb (c_id c) id
                                           then set_title stored c else c)
                                 (conversations db)) (messages db) (attachments db))
              = has_conversation x db).
    { intros x. apply eq_true_iff_eq. rewrite !has_conversation_In. simpl.
      rewrite Hids. reflexivity. }
    split; [|split].
    + split; [|split]; simpl; try assumption. rewrite Hids. exact K1.
    + split; [|split]; simpl; try assumption.
      intros c Hin. apply in_map_iff in Hin. destruct Hin as (c0 & <- & Hin).
      destruct (String.eqb (c_id c0) id); [exact Efit | apply C1, Hin].
    + split; simpl.
      * intros m Hin. rewrite Hsame. apply R1, Hin.
      * intros a Hin. rewrite Hsame. apply R2, Hin.
  - (* DELETE FROM conversations *)
    destruct (has_conversation id db) eqn:Eex;
      [|rewrite delete_conversation_absent by exact Eex; exact Hc].
    destruct (SchemaFacts.delete_conversation_tables id db Eex) as (Ec & Em & Eat).
    apply (consistent_part db); eauto.
    apply SchemaFacts.delete_conversation_references; [exact Eex | apply Hc].
  - (* DELETE FROM messages *)
    destruct (delete_message_tables id db) as (Ec & Em & Eat).
    apply (consistent_part db); eauto.
    + exists (fun _ => true). rewrite Ec. symmetry. apply filter_all. reflexivity.
    + apply delete_message_references, Hc.
Qed.

(** X19. The statements keep the schema's constraints.  Starting from the
    empty database, after any sequence of inserts, title updates and deletes
    (rejected ones included) primary keys are unique, every role and
    attachment type is one of the allowed values, the bounded columns are
    within their bounds, and every foreign key points at an existing row. *)
Theorem statements_keep_constraints (ss : list statement) :
  consistent (exec_all ss empty).
Proof.
  assert (H0 : consistent empty).
  { split; [|split].
    - repeat split; constructor.
    - unfold checks_hold. simpl. split; [|split]; intros x Hx; destruct Hx.
    - unfold references_ok. simpl. split; intros x Hx; destruct Hx. }
  revert H0. generalize empty. unfold exec_all.
  induction ss as [|s ss IH]; intros db H; simpl; [exact H|].
  apply IH, consistent_exec, H.
Qed.

(** X20. Creating a conversation and deleting it again is a round trip:
    in a database whose foreign keys resolve, inserting a conversation under a
    fresh identifier and then deleting that identifier gives back the
    database, row for row. *)
Theorem insert_then_delete_conversation (uuid : string) (now : Z) (title : option string)
    (db db' : database) (row : conversation) :
  references_ok db ->
  insert_conversation uuid now title db = Some (row, db') ->
  has_conversation uuid db = false
  /\ c_id row = uuid
  /\ delete_conversation uuid db' = db.
Proof.
  intros [R1 R2]. unfold insert_conversation.
  destruct (has_conversation uuid db) eqn:Efresh; [discriminate|].
  destruct (varchar 255 _) as [stored|]; [|discriminate].
  intros [= <- <-]. split; [reflexivity|]. split; [reflexivity|].
  set (row := mkConversation uuid stored now now).
  set (db' := mkDatabase (conversations db ++ [row]) (messages db) (attachments db)).
  assert (Hex : has_conversation uuid db' = true).
  { unfold has_conversation. simpl. rewrite existsb_app. simpl.
    rewrite String.eqb_refl. apply orb_true_iff. right. reflexivity. }
  assert (Hother : forall x, has_conversation x db = true -> String.eqb x uuid = false).
  { intros x Hx. apply String.eqb_neq. intros ->. congruence. }
  destruct (SchemaFacts.delete_conversation_tables uuid db' Hex) as (Ec & Em & Eat).
  assert (E1 : conversations (delete_conversation uuid db') = conversations db).
  { rewrite Ec. simpl. rewrite List.filter_app. simpl. rewrite String.eqb_refl. simpl.
    rewrite app_nil_r. apply filter_all. intros c Hc. apply negb_true_iff.
    apply Hother. apply has_conversation_In. apply in_map. exact Hc. }
  assert (Hmsg : forall m, In m (messages db) -> owned_message uuid m = false).
  { intros m Hm. unfold owned_message. apply Hother, R1, Hm. }
  assert (E2 : messages (delete_conversation uuid db') = messages db).
  { rewrite Em. simpl. apply filter_all. intros m Hm. rewrite (Hmsg m Hm). reflexivity. }
  assert (E3 : attachments (delete_conversation uuid db') = attachments db).
  { rewrite Eat. simpl. apply filter_all. intros a Ha. apply negb_true_iff.
    unfold owned_attachment. simpl.
    rewrite (Hother (a_conversation_id a)) by (apply R2, Ha). simpl.
    apply not_true_is_false. intros Ht. apply existsb_exists in Ht.
    destruct Ht as (m & Hm & E). rewrite (Hmsg m Hm), andb_false_r in E. discriminate. }
  apply database_ext; assumption.
Qed.

(** X21. Deleting a message cascades to its attachments and no further:
    afterwards no message has that identifier and no attachment refers to it,
    every other message and every attachment of another message is still
    there, and the conversations table is untouched. *)
Theorem delete_message_cascades (id : string) (db : database) :
  has_message id db = true ->
  conversations (delete_message id db) = conversations db
  /\ has_message id (delete_message id db) = false
  /\ (forall a, In a (attachments (delete_message id db)) -> a_message_id a <> id)
  /\ (forall m, In m (messages db) -> m_id m <> id -> In m (messages (delete_message id db)))
  /\ (forall a, In a (attachments db) -> a_message_id a <> id ->
        In a (attachments (delete_message id db))).
Proof.
  intros Hex. destruct (delete_message_tables id db) as (Ec & Em & Eat).
  rewrite Hex in Eat.
  split; [exact Ec|]. split; [|split; [|split]].
  - unfold has_message. rewrite Em, SchemaFacts.existsb_filter.
    apply not_true_is_false. rewrite existsb_exists. intros (m & _ & H).
    destruct (String.eqb (m_id m) id); discriminate.
  - intros a Hin. rewrite Eat in Hin. apply filter_In in Hin. destruct Hin as [_ H].
    rewrite andb_true_r in H.
    destruct (String.eqb_spec (a_message_id a) id); [discriminate | assumption].
  - intros m Hin Hne. rewrite Em. apply filter_In. split; [exact Hin|].
    destruct (String.eqb_spec (m_id m) id); [contradiction | reflexivity].
  - intros a Hin Hne. rewrite Eat. apply filter_In. split; [exact Hin|].
    rewrite andb_true_r.
    destruct (String.eqb_spec (a_message_id a) id); [contradiction | reflexivity].
Qed.

Lemma insert_then_delete_conversation_witness :
  delete_conversation "c3"
    (mkDatabase (conversations sample ++ [mkConversation "c3" "New Conversation" 30 30])
                (messages sample) (attachments sample))
  = sample.
Proof.
  apply (insert_then_delete_conversation "c3" 30 None sample
           (mkDatabase (conversations sample ++ [mkConversation "c3" "New Conversation" 30 30])
                       (messages sample) (attachments sample))
           (mkConversation "c3" "New Conversation" 30 30)).
  - split.
    + intros m [<-|[<-|[]]]; reflexivity.
    + intros a [<-|[<-|[<-|[]]]]; split; reflexivity.
  - reflexivity.
Defined.

Lemma delete_message_cascades_witness :
  conversations (delete_message "m1" sample) = conversations sample
  /\ has_message "m1" (delete_message "m1" sample) = false.
Proof.
  destruct (delete_message_cascades "m1" sample) as (Hc & Hm & _).
  - reflexivity.
  - split; [exact Hc | exact Hm].
Defined.

Example delete_first_message :
  delete_message "m1" sample
  = {| conversations := conversations sample;
       messages := [mkMessage "m2" "c2" "user" "hi" 21];
       attachments := [mkAttachment "a2" "m2" "c2" "y.pdf" "pdf" "u2" "application/pdf" 22] |}.
Proof. vm_compute. reflexivity. Qed.

End StatementsFacts.

(** ** The storage bucket *)

Module StorageFacts.
Import Types Storage.
Local Open Scope string_scope.
Local Open Scope list_scope.

Lemma on_conflict_twice (row b : bucket) :
  on_conflict row (on_conflict row b) = on_conflict row b.
Proof. reflexivity. Qed.

Lemma upsert_present (row : bucket) (table : list bucket) :
  existsb (fun b => String.eqb (b_id b) (b_id row)) (upsert row table) = true.
Proof.
  unfold upsert.
  destruct (existsb (fun b => String.eqb (b_id b) (b_id row)) table) eqn:E.
  - apply existsb_exists in E. destruct E as (b & Hb & E). apply existsb_exists.
    exists (on_conflict row b). split.
    + apply in_map_iff. exists b. rewrite E. auto.
    + exact E.
  - rewrite existsb_app. simpl. rewrite String.eqb_refl. apply orb_true_iff. right.
    reflexivity.
Qed.

Lemma upsert_rows (row : bucket) (table : list bucket) (b : bucket) :
  In b (upsert row table) ->
  (b_id b <> b_id row /\ In b table)
  \/ (b_id b = b_id row
      /\ b_public b = b_public row /\ file_size_limit b = file_size_limit row
      /\ allowed_mime_types b = allowed_mime_types row
      /\ (b = row \/ exists old, In old table /\ b_id old = b_id row
                                 /\ b_name b = b_name old)).
Proof.
  unfold upsert.
  destruct (existsb (fun b => String.eqb (b_id b) (b_id row)) table) eqn:E.
  - intros H. apply in_map_iff in H. destruct H as (old & <- & Hold).
    destruct (String.eqb_spec (b_id old) (b_id row)) as [Eid|Eid].
    + right. simpl. repeat split; try assumption. right. exists old. auto.
    + left. auto.
  - intros H. apply in_app_or in H. destruct H as [H|[<-|[]]].
    + left. split; [|exact H]. intros Eid.
      assert (Ht : existsb (fun b => String.eqb (b_id b) (b_id row)) table = true).
      { apply existsb_exists. exists b. split; [exact H | apply String.eqb_eq, Eid]. }
      congruence.
    + right. repeat split. left. reflexivity.
Qed.

(** X22. The bucket statement of the storage migration can be run against
    any buckets table and run again: afterwards a [chat-files] bucket exists, every row with that
    identifier is public with the 26214400-byte limit and the five media
    types (a row that was there before keeps its name), rows of other buckets
    are exactly the ones that were there, and a second run changes nothing. *)
Theorem migration_is_idempotent (table : list bucket) :
  (exists b, In b (migrate table) /\ b_id b = "chat-files")
  /\ (forall b, In b (migrate table) -> b_id b = "chat-files" ->
        b_public b = true /\ file_size_limit b = 26214400%N
        /\ allowed_mime_types b
           = ["image/jpeg"; "image/png"; "image/gif"; "image/webp"; "application/pdf"])
  /\ (forall b, b_id b <> "chat-files" -> (In b (migrate table) <-> In b table))
  /\ map b_id (migrate table)
     = map b_id table
       ++ (if existsb (fun b => String.eqb (b_id b) "chat-files") table
           then [] else ["chat-files"])
  /\ migrate (migrate table) = migrate table.
Proof.
  unfold migrate. split; [|split; [|split; [|split]]].
  - pose proof (upsert_present chat_files table) as H. apply existsb_exists in H.
    destruct H as (b & Hb & E). apply String.eqb_eq in E. eauto.
  - intros b Hb Hid. apply upsert_rows in Hb.
    destruct Hb as [[Hne _] | (_ & H1 & H2 & H3 & _)]; [contradiction|]. auto.
  - intros b Hne. split.
    + intros Hb. apply upsert_rows in Hb. destruct Hb as [[_ H] | (Hid & _)];
        [exact H | contradiction].
    + intros Hb. unfold upsert.
      destruct (existsb _ table); [|apply in_or_app; left; exact Hb].
      apply in_map_iff. exists b. split; [|exact Hb].
      destruct (String.eqb_spec (b_id b) (b_id chat_files)); [contradiction | reflexivity].
  - unfold upsert. simpl.
    destruct (existsb (fun b => String.eqb (b_id b) "chat-files") table).
    + rewrite app_nil_r, map_map. apply map_ext. intros b.
      destruct (String.eqb (b_id b) "chat-files"); reflexivity.
    + rewrite map_app. reflexivity.
  - unfold upsert at 1. rewrite upsert_present.
    unfold upsert. destruct (existsb _ table) eqn:E.
    + rewrite map_map. apply map_ext. intros b.
      destruct (String.eqb (b_id b) (b_id chat_files)) eqn:Eb; cbn [b_id on_conflict];
        rewrite Eb; reflexivity.
    + rewrite map_app. simpl. f_equal.
      rewrite <- (map_id table) at 2. apply map_ext_in. intros b Hb.
      change "chat-files" with (b_id chat_files).
      destruct (String.eqb_spec (b_id b) (b_id chat_files)) as [Eid|Eid]; [|reflexivity].
      exfalso.
      assert (Ht : existsb (fun b => String.eqb (b_id b) (b_id chat_files)) table = true).
      { apply existsb_exists. exists b. split; [exact Hb | apply String.eqb_eq, Eid]. }
      congruence.
Qed.

(** X23. After the bucket statement the bucket admits exactly the files the
    client lets through: for every [chat-files] row of the migrated table, a
    file is within the row's size limit and on its media-type list exactly
    when [handleFileSelect]'s two checks pass it. *)
Theorem client_check_matches_bucket (table : list bucket) (b : bucket) (f : File) :
  In b (migrate table) -> b_id b = "chat-files" ->
  admits b f = FileUpload.passes f.
Proof.
  intros Hb Hid. apply upsert_rows in Hb.
  destruct Hb as [[Hne _] | (_ & _ & H2 & H3 & _)]; [contradiction|].
  unfold admits, FileUpload.passes, FileUpload.includes. rewrite H2, H3. simpl.
  apply andb_comm.
Qed.

Lemma client_check_matches_bucket_witness :
  admits (mkBucket "chat-files" "uploads" true 26214400
                   ["image/jpeg"; "image/png"; "image/gif"; "image/webp"; "application/pdf"])
         (mkFile "b.pdf" "application/pdf" 26214401)
  = FileUpload.passes (mkFile "b.pdf" "application/pdf" 26214401).
Proof.
  apply (client_check_matches_bucket
           [mkBucket "avatars" "avatars" false 1024 ["image/png"];
            mkBucket "chat-files" "uploads" false 10 []]).
  - right. left. reflexivity.
  - reflexivity.
Defined.

Lemma migration_is_idempotent_witness :
  migrate (migrate [mkBucket "avatars" "avatars" false 1024 ["image/png"];
                    mkBucket "chat-files" "uploads" false 10 []])
  = migrate [mkBucket "avatars" "avatars" false 1024 ["image/png"];
             mkBucket "chat-files" "uploads" false 10 []].
Proof.
  apply (migration_is_idempotent [mkBucket "avatars" "avatars" false 1024 ["image/png"];
                                  mkBucket "chat-files" "uploads" false 10 []]).
Defined.

Example migrate_existing_bucket :
  migrate [mkBucket "avatars" "avatars" false 1024 ["image/png"];
           mkBucket "chat-files" "uploads" false 10 []]
  = [mkBucket "avatars" "avatars" false 1024 ["image/png"];
     mkBucket "chat-files" "uploads" true 26214400
              ["image/jpeg"; "image/png"; "image/gif"; "image/webp"; "application/pdf"]].
Proof. vm_compute. reflexivity. Qed.

End StorageFacts.

(** ** The sidebar's dialogs *)

Module SidebarFacts.
Import ChatInput Sidebar.
Local Open Scope string_scope.



End SidebarFacts.
